(** * Fulcrum calendar feed: a shallow embedding of [server.js]

    The development follows the single source file of the service:
    the helpers ([icsEscape], [toUTC], [yyyymmdd], [addDaysISO],
    [veventTimed], [veventAllDay], [foldLines], [finalizeIcs]), the
    operation cache ([cacheGetOps], [cachePutOps]), the operation selector
    ([pickPrimaryOperation]), the event mapper ([mapJobToEvent]) and the
    [/calendar.ics] route with its per-URL response cache, together with
    the status filter and the body of the listing request and the reading
    of the upstream answers ([unwrapItems]).

    JavaScript strings are sequences of UTF-16 code units, JavaScript values
    read from the upstream JSON are a small tagged union, [Map] objects are
    association lists in insertion order, and exceptions are an explicit
    error monad. *)

From Stdlib Require Import List ZArith NArith Lia Bool String Ascii.
From Stdlib Require Import DecimalString.
From Equations Require Import Equations.
Import ListNotations.

Set Implicit Arguments.
Local Open Scope Z_scope.

(* ================================================================== *)
(** ** JavaScript strings and values *)
(* ================================================================== *)

(** A JavaScript string: its UTF-16 code units. *)
Definition jstring := list N.

(** The code units of an ASCII literal of the source. *)
Definition js (s : string) : jstring :=
  map N_of_ascii (list_ascii_of_string s).

Definition CR : N := 13%N.
Definition LF : N := 10%N.
Definition SP : N := 32%N.
Definition CRLF : jstring := [CR; LF].

Definition jstring_eq_dec : forall a b : jstring, {a = b} + {a <> b} :=
  list_eq_dec N.eq_dec.

Definition jstring_eqb (a b : jstring) : bool :=
  if jstring_eq_dec a b then true else false.

(** The values a field of an upstream JSON record, a query parameter or a
    header holds in this development: [undefined] (an absent field),
    [null], a number that is a safe integer (at most 2^53 - 1 in absolute
    value: the numbers [String] writes as their decimal digits) and a
    string.  A field that holds a boolean, another number, an array or an
    object is not described: the records below are the records whose
    fields hold these values. *)
Inductive jsval : Type :=
| JUndefined
| JNull
| JNum (n : Z)
| JStr (s : jstring).

Definition jsval_eq_dec : forall a b : jsval, {a = b} + {a <> b}.
Proof.
  decide equality; [apply Z.eq_dec | apply jstring_eq_dec].
Defined.

(** [a === b] on these values. *)
Definition strict_eq (a b : jsval) : bool :=
  if jsval_eq_dec a b then true else false.

(** [Boolean(v)]. *)
Definition truthy (v : jsval) : bool :=
  match v with
  | JUndefined | JNull => false
  | JNum n => negb (n =? 0)
  | JStr [] => false
  | JStr (_ :: _) => true
  end.

(** [a || b]. *)
Definition jor (a b : jsval) : jsval := if truthy a then a else b.
Infix "|||" := jor (at level 50, left associativity).

(** [v != null]. *)
Definition not_nullish (v : jsval) : bool :=
  match v with
  | JUndefined | JNull => false
  | _ => true
  end.

(** [String(n)] for a safe integer. *)
Definition Z_to_jstring (n : Z) : jstring :=
  js (NilZero.string_of_int (Z.to_int n)).

(** [String(v)], which is also what a template literal does to [v]. *)
Definition ToString (v : jsval) : jstring :=
  match v with
  | JUndefined => js "undefined"
  | JNull => js "null"
  | JNum n => Z_to_jstring n
  | JStr s => s
  end.

(** [parts.join(sep)] on an array of strings. *)
Fixpoint join (sep : jstring) (parts : list jstring) : jstring :=
  match parts with
  | [] => []
  | [p] => p
  | p :: rest => p ++ sep ++ join sep rest
  end.

(** Exceptions: a computation returns a value or throws an [Error] with a
    message. *)
Inductive result (A : Type) : Type :=
| Ok (a : A)
| Throw (message : jstring).
Arguments Ok {A} a.
Arguments Throw {A} message.

Definition bind {A B} (r : result A) (k : A -> result B) : result B :=
  match r with
  | Ok a => k a
  | Throw m => Throw m
  end.

Notation "'do' x <- r ; k" := (bind r (fun x => k))
  (at level 10, x name, r at level 100, k at level 200).

Fixpoint mapM {A B} (f : A -> result B) (l : list A) : result (list B) :=
  match l with
  | [] => Ok []
  | a :: rest => do b <- f a; do bs <- mapM f rest; Ok (b :: bs)
  end.

(* ================================================================== *)
(** ** Dates *)
(* ================================================================== *)

(** A [Date] object is its time value: milliseconds since the epoch, or
    [None] for the invalid date (time value NaN). *)
Definition time := option Z.

Definition msPerDay : Z := 86400000.
Definition maxTime : Z := 8640000000000000.

Definition TimeClip (t : Z) : time :=
  if Z.abs t <=? maxTime then Some t else None.

Definition Day (t : Z) : Z := t / msPerDay.
Definition TimeWithinDay (t : Z) : Z := t mod msPerDay.

(** Day number (days since the epoch) of a date of the proleptic Gregorian
    calendar, and back. *)
Definition days_from_civil (y m d : Z) : Z :=
  let y := if m <=? 2 then y - 1 else y in
  let era := y / 400 in
  let yoe := y - era * 400 in
  let mp := if 2 <? m then m - 3 else m + 9 in
  let doy := (153 * mp + 2) / 5 + d - 1 in
  let doe := yoe * 365 + yoe / 4 - yoe / 100 + doy in
  era * 146097 + doe - 719468.

Definition civil_from_days (z : Z) : Z * Z * Z :=
  let z := z + 719468 in
  let era := z / 146097 in
  let doe := z - era * 146097 in
  let yoe := (doe - doe / 1460 + doe / 36524 - doe / 146096) / 365 in
  let doy := doe - (365 * yoe + yoe / 4 - yoe / 100) in
  let mp := (5 * doy + 2) / 153 in
  let d := doy - (153 * mp + 2) / 5 + 1 in
  let m := if mp <? 10 then mp + 3 else mp - 9 in
  let y := yoe + era * 400 in
  ((if m <=? 2 then y + 1 else y), m, d).

Definition getUTCFullYear (t : Z) : Z := fst (fst (civil_from_days (Day t))).
(** [getUTCMonth() + 1]. *)
Definition getUTCMonth1 (t : Z) : Z := snd (fst (civil_from_days (Day t))).
Definition getUTCDate (t : Z) : Z := snd (civil_from_days (Day t)).
Definition getUTCHours (t : Z) : Z := TimeWithinDay t / 3600000.
Definition getUTCMinutes (t : Z) : Z := (TimeWithinDay t / 60000) mod 60.
Definition getUTCSeconds (t : Z) : Z := (TimeWithinDay t / 1000) mod 60.
Definition getUTCMilliseconds (t : Z) : Z := TimeWithinDay t mod 1000.

(** [s.padStart(n, "0")]. *)
Definition padStart0 (n : nat) (s : jstring) : jstring :=
  repeat 48%N (n - List.length s) ++ s.

(** [pad] of [toUTC] and [yyyymmdd]: [String(n).padStart(2, "0")]. *)
Definition pad (n : Z) : jstring := padStart0 2 (Z_to_jstring n).

Definition NaN_string : jstring := js "NaN".

(** The date of a valid time value as [yyyymmdd] writes it. *)
Definition ymd (d : Z) : jstring :=
  Z_to_jstring (getUTCFullYear d) ++ pad (getUTCMonth1 d) ++ pad (getUTCDate d).

(** [d.toISOString()] on a valid date: [YYYY-MM-DDTHH:mm:ss.sssZ], with a
    signed six-digit year outside 0..9999. *)
Definition toISOString (t : Z) : jstring :=
  let y := getUTCFullYear t in
  let year :=
    if (0 <=? y) && (y <=? 9999) then padStart0 4 (Z_to_jstring y)
    else (if y <? 0 then js "-" else js "+")
           ++ padStart0 6 (Z_to_jstring (Z.abs y)) in
  year ++ js "-" ++ pad (getUTCMonth1 t) ++ js "-" ++ pad (getUTCDate t)
    ++ js "T" ++ pad (getUTCHours t) ++ js ":" ++ pad (getUTCMinutes t)
    ++ js ":" ++ pad (getUTCSeconds t) ++ js "."
    ++ padStart0 3 (Z_to_jstring (getUTCMilliseconds t)) ++ js "Z".

(** *** A parser for UTC timestamps in the ECMAScript date-time format

    [Date.parse] is the engine's; the development is parametric in it (see
    the section below).  For concrete scenarios this parser covers the
    interchange format with four-digit years, [YYYY-MM-DD] and
    [YYYY-MM-DDTHH:mm[:ss[.sss]]Z]. *)

Definition digit (c : N) : option Z :=
  if ((48 <=? c) && (c <=? 57))%N then Some (Z.of_N c - 48) else None.

Fixpoint digits (n : nat) (s : jstring) (acc : Z) : option (Z * jstring) :=
  match n with
  | O => Some (acc, s)
  | S n' =>
      match s with
      | c :: rest =>
          match digit c with
          | Some d => digits n' rest (acc * 10 + d)
          | None => None
          end
      | [] => None
      end
  end.

Definition expect (c : N) (s : jstring) : option jstring :=
  match s with
  | c' :: rest => if (c =? c')%N then Some rest else None
  | [] => None
  end.

Definition isLeap (y : Z) : bool :=
  ((y mod 4 =? 0) && negb (y mod 100 =? 0)) || (y mod 400 =? 0).

Definition daysInMonth (y m : Z) : Z :=
  if m =? 2 then (if isLeap y then 29 else 28)
  else if (m =? 4) || (m =? 6) || (m =? 9) || (m =? 11) then 30 else 31.

Definition obind {A B} (o : option A) (k : A -> option B) : option B :=
  match o with
  | Some a => k a
  | None => None
  end.

Notation "'let?' x := o 'in' k" := (obind o (fun x => k))
  (at level 10, x pattern, o at level 100, k at level 200).

Definition parseFraction (s : jstring) : option (Z * jstring) :=
  match s with
  | 46%N :: rest => digits 3 rest 0
  | _ => Some (0, s)
  end.

Definition parseSeconds (s : jstring) : option (Z * jstring) :=
  match s with
  | 58%N :: rest =>
      let? (sec, rest) := digits 2 rest 0 in
      let? (ms, rest) := parseFraction rest in
      if sec <=? 59 then Some (sec * 1000 + ms, rest) else None
  | _ => Some (0, s)
  end.

Definition parseTimeOfDay (s : jstring) : option Z :=
  let? (h, s) := digits 2 s 0 in
  let? s := expect 58%N s in
  let? (mi, s) := digits 2 s 0 in
  let? (sms, s) := parseSeconds s in
  match s with
  | [90%N] =>
      if (h <=? 23) && (mi <=? 59)
      then Some (h * 3600000 + mi * 60000 + sms) else None
  | _ => None
  end.

Definition isoParse (s : jstring) : time :=
  let? (y, s) := digits 4 s 0 in
  let? s := expect 45%N s in
  let? (m, s) := digits 2 s 0 in
  let? s := expect 45%N s in
  let? (d, s) := digits 2 s 0 in
  if (1 <=? m) && (m <=? 12) && (1 <=? d) && (d <=? daysInMonth y m) then
    let day := days_from_civil y m d in
    match s with
    | [] => Some (day * msPerDay)
    | 84%N :: rest =>
        let? tod := parseTimeOfDay rest in Some (day * msPerDay + tod)
    | _ => None
    end
  else None.

(* ================================================================== *)
(** ** The upstream records *)
(* ================================================================== *)

Module Job.
Record t : Type := mk {
  id : jsval;
  name : jsval;
  number : jsval;
  status : jsval;
  salesOrderId : jsval;
  scheduledStartUtc : jsval;
  originalScheduledStartUtc : jsval;
  productionDueDate : jsval;
  scheduledEndUtc : jsval;
  originalScheduledEndUtc : jsval
}.
End Job.

Module Op.
Record t : Type := mk {
  id : jsval;
  name : jsval;
  scheduledEquipmentName : jsval;
  scheduledStartUtc : jsval;
  originalScheduledStartUtc : jsval;
  scheduledEndUtc : jsval;
  originalScheduledEndUtc : jsval
}.
End Op.

Module Item.
Record reference : Type := mkRef {
  name : jsval;
  number : jsval;
  description : jsval
}.
Record t : Type := mk {
  itemReference : option reference;
  quantityToMake : jsval
}.
End Item.

(** [x?.f] on an object that may be [null] or [undefined]. *)
Definition opt {A} (f : A -> jsval) (x : option A) : jsval :=
  match x with
  | Some a => f a
  | None => JUndefined
  end.

(** The operation's effective start and end, read from a primary operation
    that may be [null]. *)
Definition opStartOpt (primaryOp : option Op.t) : jsval :=
  opt Op.scheduledStartUtc primaryOp
    ||| opt Op.originalScheduledStartUtc primaryOp.

Definition opEndOpt (primaryOp : option Op.t) : jsval :=
  opt Op.scheduledEndUtc primaryOp ||| opt Op.originalScheduledEndUtc primaryOp.

(** The calendar event record [mapJobToEvent] returns. *)
Module Event.
Record t : Type := mk {
  id : jsval;
  start : jsval;
  end_ : jsval;
  summary : jstring;
  location : jsval;
  description : jstring;
  categories : list jsval
}.
End Event.

(** What [Array.prototype.join] does to an element. *)
Definition join_elem (v : jsval) : jstring :=
  match v with
  | JUndefined | JNull => []
  | _ => ToString v
  end.

(** [arr.filter(Boolean)]. *)
Definition filter_Boolean (arr : list jsval) : list jsval := filter truthy arr.

Definition array_join (sep : jstring) (arr : list jsval) : jstring :=
  join sep (map join_elem arr).

(** [c ? a : b] with a JavaScript value as the condition. *)
Definition cond {A} (c : jsval) (a b : A) : A := if truthy c then a else b.

(* ================================================================== *)
(** ** RFC 5545 line folding *)
(* ================================================================== *)

Definition isHighSurrogate (c : N) : bool := ((55296 <=? c) && (c <=? 56319))%N.
Definition isLowSurrogate (c : N) : bool := ((56320 <=? c) && (c <=? 57343))%N.

(** UTF-8 bytes of a code point. *)
Definition utf8_codepoint (cp : N) : list N :=
  (if cp <? 128 then [cp]
   else if cp <? 2048 then
     [N.lor 192 (N.shiftr cp 6); N.lor 128 (N.land cp 63)]
   else if cp <? 65536 then
     [N.lor 224 (N.shiftr cp 12);
      N.lor 128 (N.land (N.shiftr cp 6) 63);
      N.lor 128 (N.land cp 63)]
   else
     [N.lor 240 (N.shiftr cp 18);
      N.lor 128 (N.land (N.shiftr cp 12) 63);
      N.lor 128 (N.land (N.shiftr cp 6) 63);
      N.lor 128 (N.land cp 63)])%N.

(** The replacement character U+FFFD, which a surrogate that is not part of
    a pair is encoded as. *)
Definition utf8_replacement : list N := [239; 191; 189]%N.

(** The UTF-8 encoding Node applies to a string ([Buffer.from(s, "utf8")],
    and what [res.send] puts on the wire). *)
Fixpoint utf8 (s : jstring) : list N :=
  match s with
  | [] => []
  | c :: rest =>
      if isHighSurrogate c then
        match rest with
        | d :: rest' =>
            if isLowSurrogate d
            then utf8_codepoint (65536 + (c - 55296) * 1024 + (d - 56320))%N
                   ++ utf8 rest'
            else utf8_replacement ++ utf8 rest
        | [] => utf8_replacement
        end
      else if isLowSurrogate c then utf8_replacement ++ utf8 rest
      else utf8_codepoint c ++ utf8 rest
  end.

(** [Buffer.byteLength(s, "utf8")]. *)
Definition byteLength (s : jstring) : nat := List.length (utf8 s).

(** [text.split("\r\n")]. *)
Fixpoint split_CRLF (text : jstring) : list jstring :=
  match text with
  | [] => [[]]
  | c :: rest =>
      match rest with
      | d :: rest' =>
          if ((c =? CR) && (d =? LF))%N then [] :: split_CRLF rest'
          else match split_CRLF rest with
               | l :: ls => (c :: l) :: ls
               | [] => [[c]]
               end
      | [] => [[c]]
      end
  end.

(** The inner loop of [foldLines]:
    [while (cut > 0 && byteLength(cur.slice(0, cut)) > 75) cut--]. *)
Fixpoint findCut (cur : jstring) (cut : nat) : nat :=
  match cut with
  | O => O
  | S cut' =>
      if (75 <? byteLength (firstn cut cur))%nat then findCut cur cut'
      else cut
  end.

Lemma utf8_codepoint_length (cp : N) :
  (1 <= List.length (utf8_codepoint cp) <= 4)%nat.
Proof.
  unfold utf8_codepoint.
  repeat match goal with |- context [if ?b then _ else _] => destruct b end;
    simpl; lia.
Qed.

(** A string of [n] code units has at most [4 n] octets. *)
Lemma byteLength_le_aux (n : nat) :
  forall s, (List.length s <= n)%nat ->
            (byteLength s <= 4 * List.length s)%nat.
Proof.
  unfold byteLength.
  induction n as [|n IH]; intros s Hn.
  - destruct s; simpl in *; lia.
  - destruct s as [|c rest]; [simpl; lia|].
    assert (IHrest : (List.length (utf8 rest) <= 4 * List.length rest)%nat)
      by (apply IH; simpl in Hn; lia).
    cbn [utf8].
    destruct (isHighSurrogate c).
    + destruct rest as [|d rest']; [simpl; lia|].
      destruct (isLowSurrogate d).
      * assert (List.length (utf8 rest') <= 4 * List.length rest')%nat
          by (apply IH; simpl in Hn; lia).
        rewrite length_app.
        pose proof (utf8_codepoint_length
                      (65536 + (c - 55296) * 1024 + (d - 56320))%N).
        cbn [List.length]. lia.
      * rewrite length_app. cbn [List.length utf8_replacement] in *. lia.
    + destruct (isLowSurrogate c).
      * rewrite length_app. cbn [List.length utf8_replacement] in *. lia.
      * rewrite length_app.
        pose proof (utf8_codepoint_length c). cbn [List.length]. lia.
Qed.

Lemma byteLength_le (s : jstring) :
  (byteLength s <= 4 * List.length s)%nat.
Proof. apply (byteLength_le_aux (n := List.length s)); auto. Qed.

Lemma findCut_le (cur : jstring) (cut : nat) : (findCut cur cut <= cut)%nat.
Proof.
  induction cut as [|cut IH]; cbn [findCut]; [lia|].
  destruct (75 <? byteLength (firstn (S cut) cur))%nat; lia.
Qed.

Lemma findCut_octets (cur : jstring) (cut : nat) :
  (byteLength (firstn (findCut cur cut) cur) <= 75)%nat.
Proof.
  induction cut as [|cut IH].
  - cbn. apply Nat.le_0_l.
  - cbn [findCut].
    destruct (75 <? byteLength (firstn (S cut) cur))%nat eqn:E; [exact IH|].
    apply Nat.ltb_ge in E. exact E.
Qed.

Lemma findCut_ge (cur : jstring) (cut : nat) :
  (18 <= cut)%nat -> (18 <= findCut cur cut)%nat.
Proof.
  induction cut as [|cut IH]; intros Hcut; [lia|].
  cbn [findCut].
  destruct (75 <? byteLength (firstn (S cut) cur))%nat eqn:E; [|lia].
  apply Nat.ltb_lt in E.
  destruct (Nat.eq_dec cut 17) as [->|Hne]; [|apply IH; lia].
  pose proof (byteLength_le (firstn 18 cur)) as Hb.
  rewrite length_firstn in Hb. lia.
Qed.

Lemma findCut_lt_length (cur : jstring) (cut : nat) :
  (75 < byteLength cur)%nat -> (findCut cur cut < List.length cur)%nat.
Proof.
  intros Hlong.
  destruct (Nat.lt_ge_cases (findCut cur cut) (List.length cur)) as [H|H];
    [exact H|].
  pose proof (findCut_octets cur cut) as Hoct.
  rewrite firstn_all2 in Hoct by exact H. lia.
Qed.

Lemma foldLoop_decreases (cur : jstring) :
  (75 <? byteLength cur)%nat = true ->
  (List.length (SP :: skipn (findCut cur 75) cur) < List.length cur)%nat.
Proof.
  intros Hlong. apply Nat.ltb_lt in Hlong.
  pose proof (findCut_lt_length cur 75 Hlong).
  pose proof (@findCut_ge cur 75 ltac:(lia)).
  cbn [List.length]. rewrite length_skipn. lia.
Qed.

Arguments findCut : simpl never.

Definition inspect {A} (a : A) : {b : A | a = b} := exist _ a eq_refl.

(** The outer loop of [foldLines] on one line, [out] being the lines pushed
    so far:
    [while (byteLength(cur) > 75) { ...; out.push(cur.slice(0, cut));
     cur = " " + cur.slice(cut); } out.push(cur)]. *)
Equations? foldLoop (cur : jstring) (out : list jstring) : list jstring
  by wf (List.length cur) lt :=
  foldLoop cur out with inspect (75 <? byteLength cur)%nat := {
    | exist _ true Hlong =>
        foldLoop (SP :: skipn (findCut cur 75) cur)
                 (out ++ [firstn (findCut cur 75) cur]);
    | exist _ false _ => out ++ [cur] }.
Proof. exact (foldLoop_decreases cur Hlong). Qed.

(** The array [out] of [foldLines] when its loops are over. *)
Definition foldedLines (text : jstring) : list jstring :=
  fold_left (fun out line => foldLoop line out) (split_CRLF text) [].

Definition foldLines (text : jstring) : jstring :=
  join CRLF (foldedLines text).

(** [ics.endsWith("\r\n")]. *)
Definition endsWith_CRLF (ics : jstring) : bool :=
  match rev ics with
  | l :: c :: _ => ((c =? CR) && (l =? LF))%N
  | _ => false
  end.

Definition finalizeIcs (ics : jstring) : jstring :=
  foldLines (if endsWith_CRLF ics then ics else ics ++ CRLF).

(* ================================================================== *)
(** ** SHA-1 (FIPS 180-4), for [crypto.createHash("sha1")] *)
(* ================================================================== *)

Definition w32 (x : Z) : Z := x mod 4294967296.

Definition rotl (n x : Z) : Z :=
  w32 (Z.lor (Z.shiftl x n) (Z.shiftr x (32 - n))).

(** The message with its padding: a [1] bit, zeros up to 56 modulo 64
    octets, and the length in bits as a 64-bit big-endian integer. *)
Definition be_bytes (n : nat) (x : Z) : list Z :=
  map (fun i => Z.shiftr x (8 * Z.of_nat i) mod 256) (rev (seq 0 n)).

Definition sha1_pad (msg : list Z) : list Z :=
  let len := Z.of_nat (List.length msg) in
  let zeros := Z.to_nat ((55 - len) mod 64) in
  msg ++ [128] ++ repeat 0 zeros ++ be_bytes 8 (8 * len).

Fixpoint be_words (fuel : nat) (bytes : list Z) : list Z :=
  match fuel, bytes with
  | S fuel', a :: b :: c :: d :: rest =>
      (((a * 256 + b) * 256 + c) * 256 + d) :: be_words fuel' rest
  | _, _ => []
  end.

Fixpoint chunks (fuel : nat) (words : list Z) : list (list Z) :=
  match fuel, words with
  | S fuel', _ :: _ => firstn 16 words :: chunks fuel' (skipn 16 words)
  | _, _ => []
  end.

(** The message schedule, most recent word first. *)
Fixpoint sha1_schedule (n : nat) (rev_w : list Z) : list Z :=
  match n with
  | O => rev_w
  | S n' =>
      let w :=
        rotl 1 (Z.lxor (Z.lxor (nth 2 rev_w 0) (nth 7 rev_w 0))
                       (Z.lxor (nth 13 rev_w 0) (nth 15 rev_w 0))) in
      sha1_schedule n' (w :: rev_w)
  end.

Definition sha1_state : Type := (Z * Z * Z * Z * Z)%type.

Definition sha1_round (st : sha1_state) (iw : nat * Z) : sha1_state :=
  let '(a, b, c, d, e) := st in
  let '(i, w) := iw in
  let '(f, k) :=
    if (i <? 20)%nat then
      (Z.lor (Z.land b c) (Z.land (Z.lxor b 4294967295) d), 1518500249)
    else if (i <? 40)%nat then (Z.lxor (Z.lxor b c) d, 1859775393)
    else if (i <? 60)%nat then
      (Z.lor (Z.lor (Z.land b c) (Z.land b d)) (Z.land c d), 2400959708)
    else (Z.lxor (Z.lxor b c) d, 3395469782) in
  (w32 (rotl 5 a + f + e + k + w), a, rotl 30 b, c, d).

Definition sha1_chunk (h : sha1_state) (chunk : list Z) : sha1_state :=
  let ws := rev (sha1_schedule 64 (rev chunk)) in
  let '(a, b, c, d, e) := fold_left sha1_round (combine (seq 0 80) ws) h in
  let '(h0, h1, h2, h3, h4) := h in
  (w32 (h0 + a), w32 (h1 + b), w32 (h2 + c), w32 (h3 + d), w32 (h4 + e)).

Definition hex_digit (x : Z) : N :=
  if x <? 10 then Z.to_N (48 + x) else Z.to_N (87 + x).

Definition hex_word (x : Z) : jstring :=
  map (fun i => hex_digit (Z.shiftr x (4 * Z.of_nat i) mod 16)) (rev (seq 0 8)).

(** [crypto.createHash("sha1").update(s).digest("hex")]: the digest of the
    UTF-8 encoding of [s], in lower-case hexadecimal. *)
Definition sha1_hex (s : jstring) : jstring :=
  let bytes := sha1_pad (map Z.of_N (utf8 s)) in
  let n := List.length bytes in
  let '(h0, h1, h2, h3, h4) :=
    fold_left sha1_chunk (chunks n (be_words n bytes))
      (1732584193, 4023233417, 2562383102, 271733878, 3285377520) in
  hex_word h0 ++ hex_word h1 ++ hex_word h2 ++ hex_word h3 ++ hex_word h4.

(* ================================================================== *)
(** ** Arrays and Maps *)
(* ================================================================== *)

(** [Array.prototype.sort] with a comparator; [le a b] says that the
    comparator does not put [a] after [b] (its result is not positive).
    When the comparator is a consistent comparison function in the sense of
    ECMAScript (it orders the elements by a key and never returns NaN), the
    sort is stable and the sorted array is determined: it is what
    [array_sort] returns.  When it is not, ECMAScript leaves the order to
    the engine, and [array_sort] is only the order of an insertion sort. *)
Section Sort.
Variable A : Type.
Variable le : A -> A -> bool.

Fixpoint sort_insert (x : A) (l : list A) : list A :=
  match l with
  | [] => [x]
  | y :: rest => if le x y then x :: l else y :: sort_insert x rest
  end.

Definition array_sort (l : list A) : list A := fold_right sort_insert [] l.
End Sort.

(** A [Map]: its entries in insertion order.  [set] on a key that is present
    replaces the value in place, on a new key it appends. *)
Module JMap.
Section Defs.
Variable V : Type.

Definition t : Type := list (jsval * V).

Fixpoint get (k : jsval) (m : t) : option V :=
  match m with
  | [] => None
  | (k', v) :: rest => if strict_eq k' k then Some v else get k rest
  end.

Fixpoint set (k : jsval) (v : V) (m : t) : t :=
  match m with
  | [] => [(k, v)]
  | (k', v') :: rest =>
      if strict_eq k' k then (k', v) :: rest else (k', v') :: set k v rest
  end.

Fixpoint delete (k : jsval) (m : t) : t :=
  match m with
  | [] => []
  | (k', v') :: rest =>
      if strict_eq k' k then rest else (k', v') :: delete k rest
  end.

Definition size (m : t) : nat := List.length m.

(** [[...m.entries()]]. *)
Definition entries (m : t) : list (jsval * V) := m.

Definition keys (m : t) : list jsval := map fst m.
End Defs.
End JMap.

(* ================================================================== *)
(** ** Helpers, operation selection and event mapping *)
(* ================================================================== *)

Section Engine.

(** [Date.parse] of the JavaScript engine: [None] is NaN. *)
Variable Date_parse : jstring -> time.

(** [new Date(v).getTime()]. *)
Definition newDate (v : jsval) : time :=
  match v with
  | JStr s => Date_parse s
  | JNum n => TimeClip n
  | JNull => Some 0
  | JUndefined => None
  end.

(** A time value used as a condition: NaN and 0 are falsy. *)
Definition time_truthy (t : time) : bool :=
  match t with
  | Some n => negb (n =? 0)
  | None => false
  end.

(** [a <= b] and [a < b] on numbers that may be NaN. *)
Definition time_leb (a b : time) : bool :=
  match a, b with
  | Some x, Some y => x <=? y
  | _, _ => false
  end.

Definition time_ltb (a b : time) : bool :=
  match a, b with
  | Some x, Some y => x <? y
  | _, _ => false
  end.

Definition icsEscape (s : jsval) : jstring :=
  let s0 := ToString (s ||| JStr []) in
  let s1 := flat_map (fun c => if ((c =? 44) || (c =? 59))%N
                               then [92%N; c] else [c]) s0 in
  flat_map (fun c => if (c =? 10)%N then [92%N; 110%N] else [c]) s1.

Definition toUTC (dt : jsval) : jstring :=
  match newDate dt with
  | Some d =>
      Z_to_jstring (getUTCFullYear d) ++ pad (getUTCMonth1 d)
        ++ pad (getUTCDate d) ++ js "T" ++ pad (getUTCHours d)
        ++ pad (getUTCMinutes d) ++ pad (getUTCSeconds d) ++ js "Z"
  | None =>
      NaN_string ++ NaN_string ++ NaN_string ++ js "T" ++ NaN_string
        ++ NaN_string ++ NaN_string ++ js "Z"
  end.

Definition yyyymmdd (dateLike : jsval) : jstring :=
  match newDate dateLike with
  | Some d => ymd d
  | None => NaN_string ++ NaN_string ++ NaN_string
  end.

(** [setUTCDate(getUTCDate() + n)] moves the time value by [n] days;
    [toISOString] throws a [RangeError] on an invalid date. *)
Definition addDaysISO (dateLike : jsval) (n : Z) : result jstring :=
  match newDate dateLike with
  | Some d =>
      match TimeClip (d + n * msPerDay) with
      | Some d' => Ok (toISOString d')
      | None => Throw (js "Invalid time value")
      end
  | None => Throw (js "Invalid time value")
  end.

Record vevent_args : Type := mk_vevent_args {
  va_uid : jstring;
  va_start : jsval;
  va_end : jsval;
  va_summary : jstring;
  va_location : jsval;
  va_description : jstring;
  va_categories : list jsval
}.

(** The lines after [DTEND], shared by the two renderers. *)
Definition vevent_tail (a : vevent_args) : list jsval :=
  [ JStr (js "SUMMARY:"
            ++ icsEscape (JStr (va_summary a) ||| JStr (js "Scheduled Work")));
    cond (va_location a)
      (JStr (js "LOCATION:" ++ icsEscape (va_location a))) JNull;
    cond (JStr (va_description a))
      (JStr (js "DESCRIPTION:" ++ icsEscape (JStr (va_description a)))) JNull;
    match va_categories a with
    | [] => JNull
    | cs => JStr (js "CATEGORIES:" ++ join (js ",") (map icsEscape cs))
    end;
    JStr (js "END:VEVENT") ].

(** The array of [veventTimed] before [.filter(Boolean).join]. *)
Definition veventTimed_lines (now : Z) (a : vevent_args) : list jsval :=
  [ JStr (js "BEGIN:VEVENT");
    JStr (js "UID:" ++ va_uid a);
    JStr (js "DTSTAMP:" ++ toUTC (JNum now));
    JStr (js "DTSTART:" ++ toUTC (va_start a));
    JStr (js "DTEND:" ++ toUTC (va_end a ||| va_start a)) ]
  ++ vevent_tail a.

Definition veventTimed (now : Z) (a : vevent_args) : jstring :=
  array_join CRLF (filter_Boolean (veventTimed_lines now a)).

(** The array of [veventAllDay]; [startDate] and [endDateInclusive] travel
    in [va_start] and [va_end]. *)
Definition veventAllDay_lines (now : Z) (a : vevent_args)
    (dtStart dtEndExclusive : jstring) : list jsval :=
  [ JStr (js "BEGIN:VEVENT");
    JStr (js "UID:" ++ va_uid a);
    JStr (js "DTSTAMP:" ++ toUTC (JNum now));
    JStr (js "DTSTART;VALUE=DATE:" ++ dtStart);
    JStr (js "DTEND;VALUE=DATE:" ++ dtEndExclusive) ]
  ++ vevent_tail a.

Definition veventAllDay (now : Z) (a : vevent_args) : result jstring :=
  let dtStart := yyyymmdd (va_start a) in
  do endPlus1 <- addDaysISO (va_end a) 1;
  let dtEndExclusive := yyyymmdd (JStr endPlus1) in
  Ok (array_join CRLF
        (filter_Boolean (veventAllDay_lines now a dtStart dtEndExclusive))).

(* ---------------------------------------------------------------- *)
(** *** Operation selection *)

Definition jobStartOf (job : Job.t) : jsval :=
  Job.scheduledStartUtc job ||| Job.originalScheduledStartUtc job
    ||| Job.productionDueDate job.

Definition jobEndOf (job : Job.t) : jsval :=
  Job.scheduledEndUtc job ||| Job.originalScheduledEndUtc job.

Definition opStartOf (o : Op.t) : jsval :=
  Op.scheduledStartUtc o ||| Op.originalScheduledStartUtc o.

Definition opEndOf (o : Op.t) : jsval :=
  Op.scheduledEndUtc o ||| Op.originalScheduledEndUtc o.

(** The comparator of the sort: the difference of two dates, NaN when one
    of them is invalid. *)
Definition compareStart (a b : Op.t) : time :=
  match newDate (opStartOf a), newDate (opStartOf b) with
  | Some x, Some y => Some (x - y)
  | _, _ => None
  end.

(** [a] stays before [b] unless the comparator is positive; a NaN is read
    as 0.  The comparator is a consistent comparison function when the
    starts of the candidates are dates; a start that is not a date makes it
    return NaN, and the order of the candidates is then the engine's: what
    is stated below of that order is stated of candidates whose starts are
    dates. *)
Definition sort_le (a b : Op.t) : bool :=
  match compareStart a b with
  | Some d => d <=? 0
  | None => true
  end.

Definition candidatesOf (ops : list Op.t) : list Op.t :=
  array_sort sort_le (filter (fun o => truthy (opStartOf o)) ops).

Definition overlaps (jStart jEnd : time) (o : Op.t) : bool :=
  let os := newDate (opStartOf o) in
  let oe := if truthy (opEndOf o) then newDate (opEndOf o) else os in
  if time_truthy jEnd
  then time_leb os jEnd && time_leb jStart oe
  else time_leb jStart os.

Definition pickPrimaryOperation (job : Job.t) (ops : list Op.t)
  : option Op.t :=
  match ops with
  | [] => None
  | _ =>
      let jStart := newDate (jobStartOf job ||| JNum 0) in
      let jEnd := newDate (jobEndOf job ||| JNum 0) in
      let candidates := candidatesOf ops in
      match candidates with
      | [] => None
      | first :: _ =>
          if time_truthy jStart then
            match find (overlaps jStart jEnd) candidates with
            | Some overlapping => Some overlapping
            | None => Some first
            end
          else Some first
      end
  end.

(* ---------------------------------------------------------------- *)
(** *** Event mapping *)

Definition itemRef (f : Item.reference -> jsval) (itm : option Item.t)
  : jsval :=
  match itm with
  | Some i => opt f (Item.itemReference i)
  | None => JUndefined
  end.

Definition mapJobToEvent (job : Job.t) (primaryOp : option Op.t)
    (itemToMake : option Item.t) : result Event.t :=
  let jobStart := jobStartOf job in
  let jobEnd := jobEndOf job in
  let opStart := opStartOpt primaryOp in
  let opEnd := opEndOpt primaryOp in
  let start := jobStart ||| opStart in
  let end0 := jobEnd ||| opEnd ||| start in
  do end_ <- (if negb (truthy end0) && truthy start
              then do e <- addDaysISO start 1; Ok (JStr e)
              else Ok end0);
  let title :=
    Job.name job |||
      (if not_nullish (Job.number job)
       then JStr (js "Job #" ++ ToString (Job.number job))
       else JStr (js "Scheduled Work")) in
  let number :=
    if not_nullish (Job.number job)
    then JStr (js "#" ++ ToString (Job.number job)) else JStr [] in
  let status := Job.status job ||| JStr [] in
  let project := Job.salesOrderId job ||| JStr [] in
  let equipment := opt Op.scheduledEquipmentName primaryOp ||| JStr [] in
  let opName := opt Op.name primaryOp ||| JStr [] in
  let itemName :=
    itemRef Item.name itemToMake ||| itemRef Item.number itemToMake
      ||| JStr [] in
  let itemDesc := itemRef Item.description itemToMake ||| JStr [] in
  let qtyMake :=
    if not_nullish (opt Item.quantityToMake itemToMake)
    then JStr (js "Qty: " ++ ToString (opt Item.quantityToMake itemToMake))
    else JStr [] in
  let summary :=
    array_join (js " ") (filter_Boolean
      [ title; number;
        cond opName (JStr (js "(" ++ ToString opName ++ js ")")) (JStr []) ]) in
  let location := equipment ||| JStr [] in
  let descLines := filter_Boolean
    [ cond status (JStr (js "Status: " ++ ToString status)) JNull;
      cond project (JStr (js "Sales Order: " ++ ToString project)) JNull;
      cond equipment (JStr (js "Equipment: " ++ ToString equipment)) JNull;
      cond opName (JStr (js "Operation: " ++ ToString opName)) JNull;
      cond itemName (JStr (js "Item: " ++ ToString itemName)) JNull;
      cond itemDesc (JStr (js "Desc: " ++ ToString itemDesc)) JNull;
      qtyMake ||| JNull;
      cond (Job.id job) (JStr (js "Job ID: " ++ ToString (Job.id job))) JNull ]
  in
  let categories :=
    filter_Boolean [ equipment ||| JNull; opName ||| JNull; status ||| JNull ]
  in
  Ok {| Event.id := Job.id job;
        Event.start := start;
        Event.end_ := end_;
        Event.summary := summary;
        Event.location := location;
        Event.description := array_join [92%N; 110%N] descLines;
        Event.categories := categories |}.

(* ------------------------------------------------------------------ *)
(** *** Configuration and the operation cache *)

Record config : Type := mk_config {
  ACCESS_KEY : jsval;
  CACHE_TTL_SECONDS : Z;
  CREATED_WINDOW_BUFFER_DAYS : Z;
  OPS_CACHE_TTL_MS : Z
}.

Variable cfg : config.

(** An element of an operation listing, an object: [o.operation] when the
    element wraps the operation, the element's own fields read as an
    operation, and [o.itemToMake].  (A [null] among the elements has no
    property to read, and the worker builds its pairs outside its [try]:
    the listings described here hold objects only.) *)
Record RawOp : Type := mk_RawOp {
  ro_operation : option Op.t;
  ro_self : Op.t;
  ro_itemToMake : option Item.t
}.

(** An entry [{ at, data }] of [opsCache]. *)
Record ops_entry : Type := mk_ops_entry {
  oe_at : Z;
  oe_data : list RawOp
}.

Definition ops_cache : Type := JMap.t ops_entry.

(** [now] is what [Date.now()] returns inside the call. *)
Definition cacheGetOps (now : Z) (jobId : jsval) (opsCache : ops_cache)
  : option (list RawOp) * ops_cache :=
  match JMap.get jobId opsCache with
  | None => (None, opsCache)
  | Some hit =>
      if OPS_CACHE_TTL_MS cfg <? now - oe_at hit
      then (None, JMap.delete jobId opsCache)
      else (Some (oe_data hit), opsCache)
  end.

(** The comparator [(a, b) => a[1].at - b[1].at] of the eviction. *)
Definition at_le (a b : jsval * ops_entry) : bool :=
  oe_at (snd a) - oe_at (snd b) <=? 0.

(** The sorted array is read at [[0][0]] only when the [Map] has more than
    500 entries, so it is never empty there. *)
Definition cachePutOps (now : Z) (jobId : jsval) (data : list RawOp)
    (opsCache : ops_cache) : ops_cache :=
  let opsCache := JMap.set jobId (mk_ops_entry now data) opsCache in
  if (500 <? JMap.size opsCache)%nat then
    match array_sort at_le (JMap.entries opsCache) with
    | (oldestKey, _) :: _ => JMap.delete oldestKey opsCache
    | [] => opsCache
    end
  else opsCache.

(* ------------------------------------------------------------------ *)
(** *** The [/calendar.ics] route *)

Record request : Type := mk_request {
  req_url : jstring;
  q_key : jsval;
  q_s : jsval;
  q_u : jsval;
  q_ops : jsval;
  q_allday : jsval;
  h_if_none_match : jsval
}.

(** What the environment answers during one request: the clock at each
    reading of [Date.now()] and the outcome of each upstream call.
    [w_now] is the clock at the cache read; [w_jobs] the job listing
    ([unwrapItems] of the answer when it is an array of job objects, or the
    error thrown); for the [i]-th job of
    [prefiltered], [w_ops i] is its operation listing and [w_get_time i],
    [w_put_time i] the clock inside [cacheGetOps] and [cachePutOps]; [w_stamp
    k] is the clock at the [DTSTAMP] of the [k]-th event.  The status filter
    and the limit of the query only shape the body sent upstream. *)
Record world : Type := mk_world {
  w_now : Z;
  w_jobs : result (list Job.t);
  w_ops : nat -> result (list RawOp);
  w_get_time : nat -> Z;
  w_put_time : nat -> Z;
  w_stamp : nat -> Z
}.

(** An entry [{ at, body, etag }] of the response cache. *)
Record cache_entry : Type := mk_cache_entry {
  ce_at : Z;
  ce_body : jstring;
  ce_etag : jstring
}.

Record server_state : Type := mk_state {
  cache : JMap.t cache_entry;
  opsCache : ops_cache
}.

Inductive response : Type :=
| Forbidden
| NotModified
| Success (body etag : jstring)
| ServerError (body : jstring).

(** [try { body } catch { handler }]. *)
Definition try_catch {A} (body : result A) (handler : jstring -> result A)
  : result A :=
  match body with
  | Ok a => Ok a
  | Throw m => handler m
  end.

(** [since ? new Date(since).getTime() : null]; [null] and NaN are both
    falsy where the bound is used. *)
Definition window_bound (v : jsval) : time :=
  if truthy v then newDate v else None.

(** The prefilter of the enrichment, on job-level dates. *)
Definition prefilter (since until : jsval) (j : Job.t) : bool :=
  let start := jobStartOf j in
  let end_ := jobEndOf j ||| start in
  if negb (truthy start) then false
  else
    let s := window_bound since in
    let u := window_bound until in
    let js := newDate start in
    let je := newDate end_ in
    if time_truthy s && time_ltb je s then false
    else if time_truthy u && time_ltb u js then false
    else true.

(** A value of [primaryOpByJob]: [{ op, itm }]. *)
Record op_pair : Type := mk_pair {
  pair_op : Op.t;
  pair_itm : option Item.t
}.

Definition primary_map : Type := JMap.t (option op_pair).

Definition pairsOf (arr : list RawOp) : list op_pair :=
  map (fun o =>
         mk_pair (match ro_operation o with Some op => op | None => ro_self o end)
                 (ro_itemToMake o)) arr.

Definition primaryPair (job : Job.t) (arr : list RawOp) : option op_pair :=
  let pairs := pairsOf arr in
  match pickPrimaryOperation job (map pair_op pairs) with
  | Some primary =>
      match find (fun p => strict_eq (Op.id (pair_op p)) (Op.id primary)) pairs
      with
      | Some p => Some p
      | None => Some (mk_pair primary None)
      end
  | None => None
  end.

(** One iteration of [worker], for the job at index [i] of [prefiltered]. *)
Definition workerStep (w : world) (i : nat) (job : Job.t)
    (st : ops_cache * primary_map) : result (ops_cache * primary_map) :=
  let '(opsCache, primaryOpByJob) := st in
  let '(hit, opsCache) := cacheGetOps (w_get_time w i) (Job.id job) opsCache in
  do fetched <-
    match hit with
    | Some arr => Ok (Some arr, opsCache)
    | None =>
        try_catch
          (do arr <- w_ops w i;
           Ok (Some arr, cachePutOps (w_put_time w i) (Job.id job) arr opsCache))
          (fun _ => Ok (None, opsCache))
    end;
  let '(arr, opsCache) := fetched in
  match arr with
  | Some arr =>
      Ok (opsCache, JMap.set (Job.id job) (primaryPair job arr) primaryOpByJob)
  | None => Ok (opsCache, JMap.set (Job.id job) None primaryOpByJob)
  end.

(** The worker loop.  The route starts up to [OPS_CONCURRENCY] workers on
    the shared index [idx]; they interleave at the upstream calls only.  The
    embedding runs the loop with one worker: the jobs of [prefiltered] from
    index [i] on, in order. *)
Fixpoint workerLoop (w : world) (i : nat) (prefiltered : list Job.t)
    (st : ops_cache * primary_map) : result (ops_cache * primary_map) :=
  match prefiltered with
  | [] => Ok st
  | job :: rest => do st' <- workerStep w i job st; workerLoop w (S i) rest st'
  end.

Definition enrich (w : world) (includeOps : bool) (since until : jsval)
    (jobs : list Job.t) (opsCache : ops_cache)
  : result (ops_cache * primary_map) :=
  if includeOps
  then workerLoop w 0 (filter (prefilter since until) jobs) (opsCache, [])
  else Ok (opsCache, []).

(** [primaryOpByJob.get(j.id)?.op] and [?.itm]. *)
Definition primaryOpOf (primaryOpByJob : primary_map) (j : Job.t)
  : option Op.t :=
  match JMap.get (Job.id j) primaryOpByJob with
  | Some (Some p) => Some (pair_op p)
  | _ => None
  end.

Definition itemToMakeOf (primaryOpByJob : primary_map) (j : Job.t)
  : option Item.t :=
  match JMap.get (Job.id j) primaryOpByJob with
  | Some (Some p) => pair_itm p
  | _ => None
  end.

(** [toMs]: [d ? new Date(d).getTime() : NaN]. *)
Definition toMs (d : jsval) : time := if truthy d then newDate d else None.

(** The start the window filter resolves for a job. *)
Definition resolvedStart (op : option Op.t) (j : Job.t) : jsval :=
  opt Op.scheduledStartUtc op ||| opt Op.originalScheduledStartUtc op
    ||| Job.scheduledStartUtc j ||| Job.originalScheduledStartUtc j
    ||| Job.productionDueDate j.

Definition resolvedEnd (op : option Op.t) (j : Job.t) : jsval :=
  opt Op.scheduledEndUtc op ||| opt Op.originalScheduledEndUtc op
    ||| Job.scheduledEndUtc j ||| Job.originalScheduledEndUtc j
    ||| resolvedStart op j.

(** The predicate of [filteredJobs]. *)
Definition keepJob (since until : jsval) (primaryOpByJob : primary_map)
    (j : Job.t) : bool :=
  let op := primaryOpOf primaryOpByJob j in
  let start := resolvedStart op j in
  let end_ := resolvedEnd op j in
  if negb (truthy start) then false
  else
    let s := toMs start in
    let e := if time_truthy (toMs end_) then toMs end_ else s in
    let winStart := window_bound since in
    let winEnd := window_bound until in
    if time_truthy winStart && time_ltb e winStart then false
    else if time_truthy winEnd && time_ltb winEnd s then false
    else true.

Definition filteredJobs (since until : jsval) (primaryOpByJob : primary_map)
    (jobs : list Job.t) : list Job.t :=
  filter (keepJob since until primaryOpByJob) jobs.

Definition eventOf (primaryOpByJob : primary_map) (j : Job.t)
  : result Event.t :=
  mapJobToEvent j (primaryOpOf primaryOpByJob j)
                (itemToMakeOf primaryOpByJob j).

Definition uidOf (e : Event.t) : jstring :=
  sha1_hex (js "fulcrum:" ++ ToString (Event.id e)) ++ js "@bettis".

(** The objects passed to [veventAllDay] and to [veventTimed]. *)
Definition allDayArgs (e : Event.t) : vevent_args :=
  mk_vevent_args (uidOf e)
    (Event.start e ||| Event.end_ e) (Event.end_ e ||| Event.start e)
    (Event.summary e) (Event.location e) (Event.description e)
    (Event.categories e).

Definition timedArgs (e : Event.t) : vevent_args :=
  mk_vevent_args (uidOf e) (Event.start e) (Event.end_ e)
    (Event.summary e) (Event.location e) (Event.description e)
    (Event.categories e).

(** One element of [icsBody]; [stamp] is [Date.now()] at its [DTSTAMP]. *)
Definition renderEvent (allDay : bool) (stamp : Z) (e : Event.t)
  : result jstring :=
  if allDay then veventAllDay stamp (allDayArgs e)
  else Ok (veventTimed stamp (timedArgs e)).

Fixpoint renderEvents (w : world) (allDay : bool) (k : nat)
    (events : list Event.t) : result (list jstring) :=
  match events with
  | [] => Ok []
  | e :: rest =>
      do v <- renderEvent allDay (w_stamp w k) e;
      do vs <- renderEvents w allDay (S k) rest;
      Ok (v :: vs)
  end.

Definition calendarOf (icsBody : jstring) : jstring :=
  join CRLF
    [ js "BEGIN:VCALENDAR";
      js "VERSION:2.0";
      js "PRODID:-//Bettis//Fulcrum Jobs Schedule//EN";
      js "CALSCALE:GREGORIAN";
      js "METHOD:PUBLISH";
      js "X-WR-CALNAME:Fulcrum Schedule";
      js "X-WR-TIMEZONE:UTC";
      icsBody;
      js "END:VCALENDAR" ].

Definition etagOf (safeIcs : jstring) : jstring :=
  js "W/" ++ [34%N] ++ sha1_hex safeIcs ++ [34%N].

(** Steps 3 and 4 of the route: filter, map, render and fold. *)
Definition renderFeed (w : world) (allDay : bool) (since until : jsval)
    (primaryOpByJob : primary_map) (jobs : list Job.t) : result jstring :=
  do events <- mapM (eventOf primaryOpByJob)
                 (filteredJobs since until primaryOpByJob jobs);
  do vevents <- renderEvents w allDay 0 events;
  Ok (finalizeIcs (calendarOf (join CRLF vevents))).

(** The body of the [try] block after a cache miss: the document and the
    operation cache it leaves, or the error and the operation cache at the
    throw. *)
Definition buildFeed (w : world) (req : request) (opsCache : ops_cache)
  : result jstring * ops_cache :=
  let since := q_s req in
  let until := q_u req in
  let includeOps := strict_eq (q_ops req) (JStr (js "1")) in
  let allDay := negb (strict_eq (q_allday req) (JStr (js "0"))) in
  match (do _a <- (if truthy since
                   then addDaysISO since (- CREATED_WINDOW_BUFFER_DAYS cfg)
                   else Ok []);
         do _b <- (if truthy until
                   then addDaysISO until (CREATED_WINDOW_BUFFER_DAYS cfg)
                   else Ok []);
         w_jobs w) with
  | Throw m => (Throw m, opsCache)
  | Ok jobs =>
      match enrich w includeOps since until jobs opsCache with
      | Throw m => (Throw m, opsCache)
      | Ok (opsCache', primaryOpByJob) =>
          (renderFeed w allDay since until primaryOpByJob jobs, opsCache')
      end
  end.

Definition calendar_ics (w : world) (req : request) (st : server_state)
  : response * server_state :=
  if truthy (ACCESS_KEY cfg) && negb (strict_eq (q_key req) (ACCESS_KEY cfg))
  then (Forbidden, st)
  else
    let key := JStr (req_url req) in
    let now := w_now w in
    let miss :=
      match buildFeed w req (opsCache st) with
      | (Ok safeIcs, opsCache') =>
          let etag := etagOf safeIcs in
          (Success safeIcs etag,
           mk_state (JMap.set key (mk_cache_entry now safeIcs etag) (cache st))
                    opsCache')
      | (Throw m, opsCache') =>
          (ServerError (js "Error: " ++ m), mk_state (cache st) opsCache')
      end in
    match JMap.get key (cache st) with
    | Some hit =>
        if now - ce_at hit <? CACHE_TTL_SECONDS cfg * 1000 then
          let inm := h_if_none_match req in
          if truthy inm && strict_eq inm (JStr (ce_etag hit))
          then (NotModified, st)
          else (Success (ce_body hit) (ce_etag hit), st)
        else miss
    | None => miss
    end.

End Engine.

(* ================================================================== *)
(** ** The request for the job listing *)
(* ================================================================== *)

(** [s.split(c)] for a separator of one code unit. *)
Fixpoint split_on (c : N) (s : jstring) : list jstring :=
  match s with
  | [] => [[]]
  | d :: rest =>
      if (d =? c)%N then [] :: split_on c rest
      else match split_on c rest with
           | l :: ls => (d :: l) :: ls
           | [] => [[d]]
           end
  end.

(** The code units [trim] removes: white space (TAB, VT, FF, SP, NBSP, the
    space separators, ZWNBSP) and the line terminators. *)
Definition isWhiteSpace (c : N) : bool :=
  ((9 <=? c) && (c <=? 13) || (c =? 32) || (c =? 160) || (c =? 5760)
   || (8192 <=? c) && (c <=? 8202) || (c =? 8232) || (c =? 8233)
   || (c =? 8239) || (c =? 8287) || (c =? 12288) || (c =? 65279))%N.

Fixpoint trimStart (s : jstring) : jstring :=
  match s with
  | c :: rest => if isWhiteSpace c then trimStart rest else s
  | [] => []
  end.

Definition trim (s : jstring) : jstring := rev (trimStart (rev (trimStart s))).

Definition DEFAULT_STATUSES : list jsval :=
  [JStr (js "scheduled"); JStr (js "inProgress")].

Definition STATUS_MAP : JMap.t jsval :=
  [ (JStr (js "scheduled"), JStr (js "scheduled"));
    (JStr (js "schedule"), JStr (js "scheduled"));
    (JStr (js "in-progress"), JStr (js "inProgress"));
    (JStr (js "in_progress"), JStr (js "inProgress"));
    (JStr (js "inprogress"), JStr (js "inProgress"));
    (JStr (js "pending"), JStr (js "pending"));
    (JStr (js "awaiting"), JStr (js "pending"));
    (JStr (js "queued"), JStr (js "pending"));
    (JStr (js "complete"), JStr (js "complete"));
    (JStr (js "completed"), JStr (js "complete"));
    (JStr (js "cancelled"), JStr (js "cancelled"));
    (JStr (js "canceled"), JStr (js "cancelled")) ].

(** [m.get(k)], which is [undefined] for a key the [Map] does not hold. *)
Definition map_get (k : jsval) (m : JMap.t jsval) : jsval :=
  match JMap.get k m with
  | Some v => v
  | None => JUndefined
  end.

(** The object [listBody]: [limit] ([None] is NaN), and the members that
    are set only under a condition ([JUndefined] and [None] when unset). *)
Record list_body : Type := mk_list_body {
  lb_limit : option Z;
  lb_status : jsval;
  lb_statuses : option (list jsval);
  lb_createdAfterUtc : jsval;
  lb_createdBeforeUtc : jsval
}.

Section Query.

(** [String.prototype.toLowerCase] and [parseInt(_, 10)] of the engine. *)
Variable toLowerCase : jstring -> jstring.
Variable parseInt10 : jstring -> option Z.
Variable Date_parse : jstring -> time.
Variable cfg : config.

Definition rawStatusesOf (statuses : jsval) : list jsval :=
  if truthy statuses
  then filter_Boolean
         (map (fun s => JStr (trim s)) (split_on 44 (ToString statuses)))
  else DEFAULT_STATUSES.

(** [STATUS_MAP.get(s.toLowerCase?.() || s)]. *)
Definition statusOf (s : jsval) : jsval :=
  map_get (JStr (toLowerCase (ToString s)) ||| s) STATUS_MAP.

Definition mappedStatusesOf (statuses : jsval) : list jsval :=
  filter_Boolean (map statusOf (rawStatusesOf statuses)).

Definition finalStatusesOf (statuses : jsval) : list jsval :=
  match mappedStatusesOf statuses with
  | [] => DEFAULT_STATUSES
  | mapped => mapped
  end.

(** The body posted to the job listing, from the query parameters
    [statuses], [limit], [s] and [u]. *)
Definition listBodyOf (statuses limit since until : jsval)
  : result list_body :=
  let limit := parseInt10 (ToString (limit ||| JStr (js "500"))) in
  let finalStatuses := finalStatusesOf statuses in
  do createdAfterUtc <-
    (if truthy since
     then do r <- addDaysISO Date_parse since (- CREATED_WINDOW_BUFFER_DAYS cfg);
          Ok (JStr r)
     else Ok JUndefined);
  do createdBeforeUtc <-
    (if truthy until
     then do r <- addDaysISO Date_parse until (CREATED_WINDOW_BUFFER_DAYS cfg);
          Ok (JStr r)
     else Ok JUndefined);
  Ok {| lb_limit := limit;
        lb_status := match finalStatuses with
                     | [s] => s
                     | _ => JUndefined
                     end;
        lb_statuses := match finalStatuses with
                       | _ :: _ :: _ => Some finalStatuses
                       | _ => None
                       end;
        lb_createdAfterUtc :=
          if truthy createdAfterUtc then createdAfterUtc else JUndefined;
        lb_createdBeforeUtc :=
          if truthy createdBeforeUtc then createdBeforeUtc else JUndefined |}.

End Query.

(* ================================================================== *)
(** ** The answers of the upstream *)
(* ================================================================== *)

(** A parsed JSON answer. *)
#[warnings="-register-all"] Inductive json : Type :=
| JsPrim (v : jsval)
| JsArray (elements : list json)
| JsObject (members : list (jstring * json)).

Definition json_truthy (x : json) : bool :=
  match x with
  | JsPrim v => truthy v
  | _ => true
  end.

Definition json_or (a b : json) : json := if json_truthy a then a else b.

(** [Array.isArray]. *)
Definition isArray (x : json) : bool :=
  match x with
  | JsArray _ => true
  | _ => false
  end.

Fixpoint member_lookup (name : jstring) (members : list (jstring * json))
  : json :=
  match members with
  | [] => JsPrim JUndefined
  | (k, v) :: rest =>
      if jstring_eqb k name then v else member_lookup name rest
  end.

(** [raw?.name], for a name that only an object of the answer can define. *)
Definition member (name : jstring) (raw : json) : json :=
  match raw with
  | JsObject members => member_lookup name members
  | _ => JsPrim JUndefined
  end.

Definition unwrapItems (raw : json) : json :=
  if isArray raw then raw
  else json_or (json_or (json_or (member (js "items") raw)
                                 (member (js "results") raw))
                        (member (js "data") raw))
               (JsArray []).

(* ================================================================== *)
(** ** Notions used in the statements *)
(* ================================================================== *)

(** [unfold] removes every line break that is followed by a space, in a
    string or in its octets. *)
Fixpoint unfold (s : list N) : list N :=
  match s with
  | [] => []
  | c :: t =>
      match t with
      | d :: e :: rest =>
          if ((c =? CR) && (d =? LF) && (e =? SP))%N then unfold rest
          else c :: unfold t
      | _ => c :: unfold t
      end
  end.

(** Undoing the folding of one line: the first piece, followed by the
    continuation pieces without their leading space. *)
Definition unfoldPieces (pieces : list jstring) : jstring :=
  match pieces with
  | [] => []
  | p :: ps => p ++ flat_map (skipn 1) ps
  end.

Definition continuation (piece : jstring) : Prop :=
  exists rest, piece = SP :: rest.

(** The string holds a line break. *)
Fixpoint containsCRLF (s : jstring) : bool :=
  match s with
  | [] => false
  | c :: t =>
      match t with
      | d :: _ => ((c =? CR) && (d =? LF))%N || containsCRLF t
      | [] => false
      end
  end.

Definition startsWith (c : N) (s : jstring) : bool :=
  match s with
  | d :: _ => (d =? c)%N
  | [] => false
  end.

(** A code unit that is not half of a surrogate pair, and an octet with
    its high bit set. *)
Definition notSurrogate (c : N) : Prop :=
  isHighSurrogate c = false /\ isLowSurrogate c = false.

Definition highOctet (b : N) : Prop := N.testbit b 7 = true.

(** A folded line as it stands in the output: a first piece that does not
    begin with a space, continuation pieces that do, and no line break
    inside a piece. *)
Definition wellFolded (g : list jstring) : Prop :=
  exists p ps,
    g = p :: ps
    /\ Forall (fun l => containsCRLF l = false) (p :: ps)
    /\ Forall continuation ps
    /\ startsWith SP p = false.


(** Whatever [opsCache] holds for [k] is older than the time-to-live at
    time [now], so that [cacheGetOps] misses. *)
Definition stale (cfg : config) (now : Z) (k : jsval) (c : ops_cache) : Prop :=
  forall e, In (k, e) c -> OPS_CACHE_TTL_MS cfg < now - oe_at e.

(** The caches the process can hold: [opsCache] starts empty and is only
    touched by [cacheGetOps] and [cachePutOps]. *)
Inductive ops_cache_reachable (cfg : config) : ops_cache -> Prop :=
| reachable_empty : ops_cache_reachable cfg []
| reachable_get now jobId c :
    ops_cache_reachable cfg c ->
    ops_cache_reachable cfg (snd (cacheGetOps cfg now jobId c))
| reachable_put now jobId data c :
    ops_cache_reachable cfg c ->
    ops_cache_reachable cfg (cachePutOps now jobId data c).


Definition etag_of (r : response) : jstring :=
  match r with
  | Success _ etag => etag
  | _ => []
  end.

(** Every comma and semicolon of the string stands after a backslash;
    [prev] is the code unit before the string. *)
Fixpoint separatorsEscapedFrom (prev : N) (s : jstring) : bool :=
  match s with
  | [] => true
  | c :: t =>
      (if ((c =? 44) || (c =? 59))%N then (prev =? 92)%N else true)
      && separatorsEscapedFrom c t
  end.

Definition separatorsEscaped (s : jstring) : bool := separatorsEscapedFrom 0 s.

(** Reading a TEXT value of RFC 5545 back: after a backslash, [\], [;] and
    [,] stand for themselves and [n] or [N] for a line feed. *)
Fixpoint icsUnescape (s : jstring) : jstring :=
  match s with
  | [] => []
  | c :: t =>
      if (c =? 92)%N then
        match t with
        | d :: t' =>
            if ((d =? 44) || (d =? 59) || (d =? 92))%N then d :: icsUnescape t'
            else if ((d =? 110) || (d =? 78))%N then LF :: icsUnescape t'
            else c :: icsUnescape t
        | [] => [c]
        end
      else c :: icsUnescape t
  end.

(** What the two replacements of [icsEscape] write for one code unit. *)
Definition escapeUnit (c : N) : jstring :=
  if ((c =? 44) || (c =? 59))%N then [92%N; c]
  else if (c =? 10)%N then [92%N; 110%N] else [c].

(** An element of the array of a renderer that holds no line feed. *)
Definition lineFree (v : jsval) : Prop := ~ In LF (join_elem v).

(** The summary a renderer writes: the summary of the event, or
    [Scheduled Work] when it is empty. *)
Definition summaryWritten (summary : jstring) : jstring :=
  match summary with
  | [] => js "Scheduled Work"
  | _ => summary
  end.

(** [P] holds of the [fuel] integers from [i] on. *)
Fixpoint all_from (P : Z -> bool) (fuel : nat) (i : Z) : bool :=
  match fuel with
  | O => true
  | S fuel' => if P i then all_from P fuel' (i + 1) else false
  end.

(** The date of day [doe] of the era that starts on 0000-03-01 is a date of
    the calendar, and [days_from_civil] takes it back. *)
Definition civil_ok (doe : Z) : bool :=
  let '(y, m, d) := civil_from_days (doe - 719468) in
  (1 <=? m) && (m <=? 12) && (1 <=? d) && (d <=? daysInMonth y m)
  && (days_from_civil y m d =? doe - 719468).

(** [digits n] reads the [n] digits [padStart(n, "0")] writes for [v]. *)
Definition digits_ok (n : nat) (v : Z) : bool :=
  match digits n (padStart0 n (Z_to_jstring v)) 0 with
  | Some (v', []) => v' =? v
  | _ => false
  end.

(** The cap of the operation cache: at most 500 entries, one for a key. *)
Definition opsCache_bounded (c : ops_cache) : Prop :=
  (JMap.size c <= 500)%nat /\ NoDup (JMap.keys c).

(** A document as the route serves it: its ETag is the digest of the body,
    the body ends with a line break and none of its lines exceeds 75
    octets. *)
Definition wellFormedDocument (body etag : jstring) : Prop :=
  etag = etagOf body
  /\ endsWith_CRLF body = true
  /\ Forall (fun l => (byteLength l <= 75)%nat) (split_CRLF body).

Definition cache_wellFormed (c : JMap.t cache_entry) : Prop :=
  forall k e, In (k, e) c -> wellFormedDocument (ce_body e) (ce_etag e).

(** The status names of the upstream API, the values of [STATUS_MAP]. *)
Definition API_STATUSES : list jsval :=
  [ JStr (js "scheduled"); JStr (js "inProgress"); JStr (js "pending");
    JStr (js "complete"); JStr (js "cancelled") ].

(** [toLowerCase] on strings of ASCII letters. *)
Definition asciiLower (s : jstring) : jstring :=
  map (fun c => if ((65 <=? c) && (c <=? 90))%N then (c + 32)%N else c) s.

(* ================================================================== *)
(** ** Scenarios *)
(* ================================================================== *)

Definition S_ (s : string) : jsval := JStr (js s).

(** The clock at 2024-06-01T10:00:00Z. *)
Definition T0 : Z := 1717236000000.

(** A job scheduled 10:00-11:00 and an operation inside that window. *)
Definition job_J1 : Job.t :=
  Job.mk (S_ "J1") JUndefined (JNum 7) (S_ "scheduled") JUndefined
         (S_ "2024-06-01T10:00:00Z") JUndefined JUndefined
         (S_ "2024-06-01T11:00:00Z") JUndefined.

Definition op_inside : Op.t :=
  Op.mk (S_ "OP1") (S_ "Cut") (S_ "Saw 2")
        (S_ "2024-06-01T10:30:00Z") JUndefined
        (S_ "2024-06-01T10:45:00Z") JUndefined.

(** A job with a start and no end. *)
Definition job_start_only : Job.t :=
  Job.mk (S_ "J3") JUndefined (JNum 9) (S_ "scheduled") JUndefined
         (S_ "2024-06-01T10:00:00Z") JUndefined JUndefined
         JUndefined JUndefined.

(** A job starting on June 5 with no end, and its only operation, which ran
    on June 1. *)
Definition job_late : Job.t :=
  Job.mk (S_ "J4") JUndefined (JNum 4) (S_ "scheduled") JUndefined
         (S_ "2024-06-05T08:00:00Z") JUndefined JUndefined
         JUndefined JUndefined.

Definition op_early : Op.t :=
  Op.mk (S_ "OP4") (S_ "Prep") JUndefined
        (S_ "2024-06-01T08:00:00Z") JUndefined
        (S_ "2024-06-01T09:00:00Z") JUndefined.

(** A job whose start is the epoch or does not parse. *)
Definition job_epoch : Job.t :=
  Job.mk (S_ "J5") JUndefined (JNum 5) (S_ "scheduled") JUndefined
         (S_ "1970-01-01T00:00:00Z") JUndefined JUndefined
         (S_ "2024-06-01T11:00:00Z") JUndefined.

Definition job_unparseable : Job.t :=
  Job.mk (S_ "J6") JUndefined (JNum 6) (S_ "scheduled") JUndefined
         (S_ "next tuesday") JUndefined JUndefined
         (S_ "2024-06-01T11:00:00Z") JUndefined.

(** A full cache: 500 entries stored at times 1000, 1001, ..., 1499. *)
Definition full_cache : ops_cache :=
  map (fun i => (JNum (Z.of_nat i), mk_ops_entry (1000 + Z.of_nat i) []))
      (seq 0 500).

(** A job with no schedule at all, between two scheduled jobs. *)
Definition job_unscheduled : Job.t :=
  Job.mk (S_ "J7") (S_ "Backlog item") (JNum 70) (S_ "scheduled") JUndefined
         JUndefined JNull (S_ "") JUndefined JUndefined.

Definition world_quiet (now : Z) (jobs : list Job.t) : world :=
  mk_world now (Ok jobs) (fun _ => Ok []) (fun _ => now) (fun _ => now)
           (fun _ => now).

Definition config_default : config := mk_config JNull 60 180 300000.

(** Two jobs; the operation listing of the first answers, the listing of
    the second fails. *)
Definition world_J2_fails : world :=
  mk_world 1717236000000 (Ok [job_J1; job_late])
    (fun i => match i with
              | O => Ok [mk_RawOp None op_inside None]
              | _ => Throw (js "503 Service Unavailable")
              end)
    (fun _ => 1717236000000) (fun _ => 1717236000500)
    (fun _ => 1717236001000).

(** An operation cache that still holds a listing for the second job,
    stored ten minutes before the request. *)
Definition cache_stale_J4 : ops_cache :=
  [(S_ "J4", mk_ops_entry (1717236000000 - 600000)
               [mk_RawOp None op_early None])].

Definition request_timed : request :=
  mk_request (js "/calendar.ics?allday=0") JUndefined JUndefined JUndefined
             JUndefined (S_ "0") JUndefined.

Definition state_empty : server_state := mk_state [] [].

(** Three requests for the same URL over the same job: at [T0], 59 seconds
    later and 61 seconds later. *)
Definition first_request : response * server_state :=
  calendar_ics isoParse config_default (world_quiet T0 [job_J1])
               request_timed state_empty.



(** A job whose name is 64 letters followed by U+1F600. *)
Definition job_emoji : Job.t :=
  Job.mk (S_ "J8") (JStr (repeat 120%N 64 ++ [55357%N; 56832%N])) (JNum 7)
         (S_ "scheduled") JUndefined
         (S_ "2024-06-01T10:00:00Z") JUndefined JUndefined
         (S_ "2024-06-01T11:00:00Z") JUndefined.

(** A summary line whose 73rd and 74th code units are the surrogate pair of
    U+1F600: [SUMMARY:], 64 letters, the emoji, and the job number. *)
Definition summary_with_emoji : jstring :=
  js "SUMMARY:" ++ repeat 120%N 64 ++ [55357%N; 56832%N] ++ js " #7".

(** Two lines, the first of 152 octets: [DESCRIPTION:] and seventy times
    U+00E9. *)
Definition text_accented : jstring :=
  js "DESCRIPTION:" ++ repeat 233%N 70 ++ CRLF ++ js "END:VEVENT".

(** Two short lines and their final line break. *)
Definition text_short : jstring :=
  js "BEGIN:VCALENDAR" ++ CRLF ++ js "END:VCALENDAR" ++ CRLF.

(** A text with a comma, a semicolon and a line feed. *)
Definition text_specials : jstring :=
  js "Cut, weld; paint" ++ [LF] ++ js "done".

(** An event from June 1 to June 2. *)
Definition event_two_days : Event.t :=
  Event.mk (S_ "J1") (S_ "2024-06-01T10:00:00Z") (S_ "2024-06-02T11:00:00Z")
           (js "Frame, welded") (S_ "Bay 2") (js "Status: scheduled")
           [S_ "Bay 2"; S_ "scheduled"].

(** A job whose end is not a date. *)
Definition job_bad_end : Job.t :=
  Job.mk (S_ "J9") JUndefined (JNum 9) (S_ "scheduled") JUndefined
         (S_ "2024-06-01T10:00:00Z") JUndefined JUndefined
         (S_ "soon") JUndefined.

(** A request whose window start is not a date. *)
Definition request_bad_since : request :=
  mk_request (js "/calendar.ics?s=yesterday") JUndefined (S_ "yesterday")
             JUndefined JUndefined JUndefined JUndefined.

(** A listing of two operations, the second wrapped with the item it
    makes. *)
Definition item_bracket : Item.t :=
  Item.mk (Some (Item.mkRef (S_ "Bracket") (S_ "B-7") JUndefined)) (JNum 4).

Definition listing_two_ops : list RawOp :=
  [ mk_RawOp None op_inside None;
    mk_RawOp (Some op_early) op_inside (Some item_bracket) ].



(** A job whose only date, its start, is not a date. *)
Definition job_bad_start : Job.t :=
  Job.mk (S_ "J10") JUndefined (JNum 10) (S_ "scheduled") JUndefined
         (S_ "next week") JUndefined JUndefined JUndefined JUndefined.

(** An event without a summary. *)
Definition event_no_summary : Event.t :=
  Event.mk (S_ "J1") (S_ "2024-06-01T10:00:00Z") (S_ "2024-06-02T11:00:00Z")
           [] (S_ "") [] [].

(** Two jobs; every operation listing fails. *)
Definition world_ops_down : world :=
  mk_world 1717236000000 (Ok [job_J1; job_late])
    (fun _ => Throw (js "503 Service Unavailable"))
    (fun _ => 1717236000000) (fun _ => 1717236000500)
    (fun _ => 1717236001000).

(* ================================================================== *)
(** ** Properties *)
(* ================================================================== *)

(* ------------------------------------------------------------------ *)
(** *** Sanity checks of the engine pieces *)

Example isoParse_epoch : isoParse (js "1970-01-01T00:00:00Z") = Some 0.
Proof. reflexivity. Qed.

Example isoParse_2024 :
  isoParse (js "2024-06-01T10:00:00Z") = Some 1717236000000.
Proof. reflexivity. Qed.

Example isoParse_garbage : isoParse (js "next tuesday") = None.
Proof. reflexivity. Qed.

Example toISOString_2024 :
  toISOString 1717236000000 = js "2024-06-01T10:00:00.000Z".
Proof. reflexivity. Qed.

Example isoParse_toISOString_leap :
  isoParse (toISOString (1709164800000 + 86399999)) =
  Some (1709164800000 + 86399999).
Proof. vm_compute. reflexivity. Qed.

Example foldLines_short :
  foldLines (js "BEGIN:VCALENDAR" ++ CRLF ++ js "END:VCALENDAR" ++ CRLF)
  = js "BEGIN:VCALENDAR" ++ CRLF ++ js "END:VCALENDAR" ++ CRLF.
Proof. vm_compute. reflexivity. Qed.

Example foldLines_long :
  foldLines (repeat 97%N 80) = repeat 97%N 75 ++ CRLF ++ SP :: repeat 97%N 5.
Proof. vm_compute. reflexivity. Qed.

Example sha1_hex_empty :
  sha1_hex [] = js "da39a3ee5e6b4b0d3255bfef95601890afd80709".
Proof. vm_compute. reflexivity. Qed.

Example sha1_hex_abc :
  sha1_hex (js "abc") = js "a9993e364706816aba3e25717850c26c9cd0d89d".
Proof. vm_compute. reflexivity. Qed.

Example sha1_hex_two_blocks :
  sha1_hex (js "abcdbcdecdefdefgefghfghighijhijkijkljklmklmnlmnomnopnopq")
  = js "84983e441c3bd26ebaae4aa1f95129e5e54670f1".
Proof. vm_compute. reflexivity. Qed.

(* ------------------------------------------------------------------ *)
(** *** Values *)

Lemma truthy_jor (a b : jsval) : truthy (a ||| b) = truthy a || truthy b.
Proof. unfold jor. destruct (truthy a) eqn:E; simpl; auto. Qed.

Lemma jor_truthy_l (a b : jsval) : truthy a = true -> a ||| b = a.
Proof. unfold jor. intros ->. reflexivity. Qed.

Lemma jor_falsy_l (a b : jsval) : truthy a = false -> a ||| b = b.
Proof. unfold jor. intros ->. reflexivity. Qed.

Lemma jor_assoc (a b c : jsval) : a ||| b ||| c = a ||| (b ||| c).
Proof. unfold jor. destruct (truthy a) eqn:E; rewrite ?E; reflexivity. Qed.

Lemma opStartOpt_Some (o : Op.t) : opStartOpt (Some o) = opStartOf o.
Proof. reflexivity. Qed.

Lemma opEndOpt_Some (o : Op.t) : opEndOpt (Some o) = opEndOf o.
Proof. reflexivity. Qed.

(* ------------------------------------------------------------------ *)
(** *** Sorting and Maps *)

Section SortProperties.
Variable A : Type.
Variable le : A -> A -> bool.

Lemma sort_insert_In (x y : A) (l : list A) :
  In y (sort_insert le x l) <-> y = x \/ In y l.
Proof.
  induction l as [|z l IH]; simpl.
  - intuition auto.
  - destruct (le x z); simpl; [intuition auto|].
    rewrite IH. intuition auto.
Qed.

Lemma array_sort_In (y : A) (l : list A) :
  In y (array_sort le l) <-> In y l.
Proof.
  induction l as [|x l IH]; simpl; [tauto|].
  rewrite sort_insert_In, IH. intuition auto.
Qed.

Lemma sort_insert_length (x : A) (l : list A) :
  List.length (sort_insert le x l) = S (List.length l).
Proof.
  induction l as [|z l IH]; simpl; [reflexivity|].
  destruct (le x z); simpl; auto.
Qed.

Lemma array_sort_length (l : list A) :
  List.length (array_sort le l) = List.length l.
Proof.
  induction l as [|x l IH]; simpl; [reflexivity|].
  now rewrite sort_insert_length, IH.
Qed.

(** When the comparator orders the elements of the array by a numeric key,
    the first element of the sorted array has the smallest key. *)
Lemma array_sort_head_min (key : A -> Z) (l : list A) :
  (forall a b, In a l -> In b l -> le a b = (key a <=? key b)) ->
  forall x rest, array_sort le l = x :: rest ->
  In x l /\ forall y, In y l -> key x <= key y.
Proof.
  induction l as [|a l IH]; intros Hle x rest Hsort; [discriminate|].
  simpl in Hsort.
  assert (Hle' : forall a0 b, In a0 l -> In b l -> le a0 b = (key a0 <=? key b))
    by (intros; apply Hle; simpl; auto).
  destruct (array_sort le l) as [|z sorted] eqn:Hs.
  - assert (l = []) as ->.
    { apply length_zero_iff_nil. rewrite <- (array_sort_length l), Hs.
      reflexivity. }
    simpl in Hsort. injection Hsort as <- _.
    split; [simpl; auto|]. intros y [<-|[]]. lia.
  - destruct (IH Hle' z sorted eq_refl) as [Hz Hmin].
    simpl in Hsort. destruct (le a z) eqn:Haz.
    + injection Hsort as <- _. split; [simpl; auto|].
      rewrite Hle in Haz by (simpl; auto). apply Z.leb_le in Haz.
      intros y [<-|Hy]; [lia|]. specialize (Hmin y Hy). lia.
    + injection Hsort as <- _. split; [simpl; auto|].
      rewrite Hle in Haz by (simpl; auto). apply Z.leb_gt in Haz.
      intros y [<-|Hy]; [lia|]. exact (Hmin y Hy).
Qed.

(** The sort is stable: the first element of the sorted array is the first
    of the elements with the smallest key, in the order of the array. *)
Lemma array_sort_head_first_min (key : A -> Z) (l : list A) :
  (forall a b, In a l -> In b l -> le a b = (key a <=? key b)) ->
  forall x rest, array_sort le l = x :: rest ->
  exists before after,
    l = before ++ x :: after
    /\ (forall y, In y before -> key x < key y)
    /\ (forall y, In y after -> key x <= key y).
Proof.
  induction l as [|a l IH]; intros Hle x rest Hsort; [discriminate|].
  simpl in Hsort.
  assert (Hle' : forall a0 b, In a0 l -> In b l -> le a0 b = (key a0 <=? key b))
    by (intros; apply Hle; simpl; auto).
  destruct (array_sort le l) as [|z sorted] eqn:Hs.
  - assert (l = []) as ->.
    { apply length_zero_iff_nil. rewrite <- (array_sort_length l), Hs.
      reflexivity. }
    simpl in Hsort. injection Hsort as <- _.
    exists [], []. split; [reflexivity|]. split; intros y [].
  - destruct (IH Hle' z sorted eq_refl) as (before & after & Hl & Hb & Ha).
    assert (Hz : In z l) by (rewrite Hl; apply in_elt).
    simpl in Hsort. destruct (le a z) eqn:Haz.
    + injection Hsort as <- _. exists [], l.
      split; [reflexivity|]. split; [intros y []|].
      rewrite Hle in Haz by (simpl; auto). apply Z.leb_le in Haz.
      intros y Hy. rewrite Hl in Hy. apply in_app_or in Hy.
      destruct Hy as [Hy | [<- | Hy]];
        [specialize (Hb y Hy) | | specialize (Ha y Hy)]; lia.
    + injection Hsort as <- _. exists (a :: before), after.
      split; [rewrite Hl; reflexivity|].
      rewrite Hle in Haz by (simpl; auto). apply Z.leb_gt in Haz.
      split; [|exact Ha]. intros y [<- | Hy]; [lia | exact (Hb y Hy)].
Qed.

End SortProperties.

Section MapProperties.
Variable V : Type.
Implicit Types (m : JMap.t V) (k : jsval) (v : V).

Lemma strict_eq_refl k : strict_eq k k = true.
Proof. unfold strict_eq. destruct (jsval_eq_dec k k); congruence. Qed.

Lemma strict_eq_true k k' : strict_eq k k' = true <-> k = k'.
Proof.
  unfold strict_eq. destruct (jsval_eq_dec k k'); split; congruence.
Qed.

Lemma strict_eq_false k k' : strict_eq k k' = false <-> k <> k'.
Proof.
  unfold strict_eq. destruct (jsval_eq_dec k k'); split; congruence.
Qed.

Lemma get_set_eq k v m : JMap.get k (JMap.set k v m) = Some v.
Proof.
  induction m as [|[k' v'] m IH]; simpl.
  - now rewrite strict_eq_refl.
  - destruct (strict_eq k' k) eqn:E; simpl; rewrite E; auto.
Qed.

Lemma get_set_ne k k' v m :
  k <> k' -> JMap.get k (JMap.set k' v m) = JMap.get k m.
Proof.
  intros Hne. induction m as [|[k0 v0] m IH]; simpl.
  - apply not_eq_sym, strict_eq_false in Hne. now rewrite Hne.
  - destruct (strict_eq k0 k') eqn:E; simpl.
    + apply strict_eq_true in E. subst k0.
      apply not_eq_sym, strict_eq_false in Hne. now rewrite Hne.
    + destruct (strict_eq k0 k); auto.
Qed.

Lemma get_delete_None k k' m :
  JMap.get k m = None -> JMap.get k (JMap.delete k' m) = None.
Proof.
  induction m as [|[k0 v0] m IH]; simpl; [auto|].
  destruct (strict_eq k0 k) eqn:E; [discriminate|].
  intros H. destruct (strict_eq k0 k'); simpl; [exact H|].
  rewrite E. auto.
Qed.

Lemma size_set k v m :
  JMap.size (JMap.set k v m)
  = match JMap.get k m with
    | Some _ => JMap.size m
    | None => S (JMap.size m)
    end.
Proof.
  unfold JMap.size. induction m as [|[k' v'] m IH]; simpl; [reflexivity|].
  destruct (strict_eq k' k); simpl; [reflexivity|].
  rewrite IH. destruct (JMap.get k m); reflexivity.
Qed.

Lemma size_delete_In k v m :
  In (k, v) m -> S (JMap.size (JMap.delete k m)) = JMap.size m.
Proof.
  unfold JMap.size. induction m as [|[k' v'] m IH]; simpl; [tauto|].
  intros [Heq | Hin].
  - injection Heq as -> ->. now rewrite strict_eq_refl.
  - destruct (strict_eq k' k); simpl; [reflexivity|]. now rewrite IH.
Qed.

Lemma size_delete_le k m : (JMap.size (JMap.delete k m) <= JMap.size m)%nat.
Proof.
  unfold JMap.size. induction m as [|[k' v'] m IH]; simpl; [lia|].
  destruct (strict_eq k' k); simpl; lia.
Qed.

Lemma get_None_keys k m : JMap.get k m = None <-> ~ In k (JMap.keys m).
Proof.
  unfold JMap.keys. induction m as [|[k' v'] m IH]; simpl; [tauto|].
  destruct (strict_eq k' k) eqn:E.
  - apply strict_eq_true in E. split; [discriminate | intros H; tauto].
  - apply strict_eq_false in E. rewrite IH. tauto.
Qed.

Lemma keys_set k v m :
  JMap.keys (JMap.set k v m)
  = match JMap.get k m with
    | Some _ => JMap.keys m
    | None => JMap.keys m ++ [k]
    end.
Proof.
  unfold JMap.keys. induction m as [|[k' v'] m IH]; simpl; [reflexivity|].
  destruct (strict_eq k' k); simpl; [reflexivity|].
  rewrite IH. destruct (JMap.get k m); reflexivity.
Qed.

(** A [Map] holds a key once; [set] and [delete] keep it so. *)
Lemma NoDup_set k v m :
  NoDup (JMap.keys m) -> NoDup (JMap.keys (JMap.set k v m)).
Proof.
  intros Hm. rewrite keys_set.
  destruct (JMap.get k m) eqn:Hget; [exact Hm|].
  apply get_None_keys in Hget.
  apply NoDup_app; [exact Hm | repeat constructor; auto|].
  intros x Hx [<- | []]. contradiction.
Qed.

Lemma keys_delete_In k k' m :
  In k (JMap.keys (JMap.delete k' m)) -> In k (JMap.keys m).
Proof.
  unfold JMap.keys. induction m as [|[k0 v0] m IH]; simpl; [tauto|].
  destruct (strict_eq k0 k'); simpl; intuition auto.
Qed.

Lemma NoDup_delete k m :
  NoDup (JMap.keys m) -> NoDup (JMap.keys (JMap.delete k m)).
Proof.
  unfold JMap.keys. induction m as [|[k0 v0] m IH]; simpl; [auto|].
  intros Hm. inversion Hm as [|? ? Hnotin Hm']; subst.
  destruct (strict_eq k0 k); simpl; [exact Hm'|].
  constructor; [|exact (IH Hm')].
  intros Hin. apply Hnotin. exact (keys_delete_In _ _ _ Hin).
Qed.

(** [delete] removes the entry of the key and nothing else. *)
Lemma delete_middle k v (before after : JMap.t V) :
  ~ In k (JMap.keys before) ->
  JMap.delete k (before ++ (k, v) :: after) = before ++ after.
Proof.
  unfold JMap.keys. induction before as [|[k0 v0] before IH]; simpl.
  - intros _. now rewrite strict_eq_refl.
  - intros Hnotin.
    destruct (strict_eq k0 k) eqn:E;
      [apply strict_eq_true in E; tauto|].
    rewrite IH; [reflexivity | tauto].
Qed.

End MapProperties.

(* ------------------------------------------------------------------ *)
(** *** The event window *)

Section MapperProperties.
Variable Date_parse : jstring -> time.

(** The [// safety] branch of [mapJobToEvent] is never taken: a defined
    start is already the last alternative of [end]. *)
Lemma safety_branch_dead (e s : jsval) :
  negb (truthy (e ||| s)) && truthy s = false.
Proof. rewrite truthy_jor. destruct (truthy e), (truthy s); reflexivity. Qed.

(** [mapJobToEvent] never throws, and its window is
    [jobStart || opStart] and [jobEnd || opEnd || start]. *)
Lemma mapJobToEvent_window (job : Job.t) (primaryOp : option Op.t)
    (itemToMake : option Item.t) :
  exists ev,
    mapJobToEvent Date_parse job primaryOp itemToMake = Ok ev
    /\ Event.id ev = Job.id job
    /\ Event.start ev = jobStartOf job ||| opStartOpt primaryOp
    /\ Event.end_ ev =
         jobEndOf job ||| opEndOpt primaryOp
           ||| (jobStartOf job ||| opStartOpt primaryOp).
Proof.
  unfold mapJobToEvent.
  rewrite safety_branch_dead. cbn [bind].
  eexists. split; [reflexivity|]. cbn. auto.
Qed.

End MapperProperties.

(** C1, as stated, fails: the job is scheduled at 10:00 and its selected
    primary operation at 10:30; the operation's effective start is defined,
    yet the event starts at the job's 10:00. *)
Lemma mapJobToEvent_start_not_operation_first :
  pickPrimaryOperation isoParse job_J1 [op_inside] = Some op_inside
  /\ opStartOf op_inside = S_ "2024-06-01T10:30:00Z"
  /\ truthy (opStartOf op_inside) = true
  /\ exists ev,
       mapJobToEvent isoParse job_J1 (Some op_inside) None = Ok ev
       /\ Event.start ev = S_ "2024-06-01T10:00:00Z"
       /\ Event.start ev <> opStartOf op_inside.
Proof.
  repeat split; try reflexivity.
  eexists. split; [reflexivity|]. split; [reflexivity|]. discriminate.
Qed.

(** C1, amended: the event start is the job's effective start
    (scheduled-start, else original-scheduled-start, else
    production-due-date) when one is defined, and only when the job has none
    is it the operation's effective start (scheduled-start, else
    original-scheduled-start). *)
Theorem mapJobToEvent_start_prefers_job :
  forall (Date_parse : jstring -> time) (job : Job.t)
         (primaryOp : option Op.t) (itemToMake : option Item.t),
  exists ev,
    mapJobToEvent Date_parse job primaryOp itemToMake = Ok ev
    /\ Event.start ev =
         (if truthy (jobStartOf job) then jobStartOf job
          else opStartOpt primaryOp)
    /\ jobStartOf job =
         (if truthy (Job.scheduledStartUtc job) then Job.scheduledStartUtc job
          else if truthy (Job.originalScheduledStartUtc job)
               then Job.originalScheduledStartUtc job
               else Job.productionDueDate job)
    /\ opStartOpt primaryOp =
         (if truthy (opt Op.scheduledStartUtc primaryOp)
          then opt Op.scheduledStartUtc primaryOp
          else opt Op.originalScheduledStartUtc primaryOp).
Proof.
  intros Date_parse job primaryOp itemToMake.
  destruct (mapJobToEvent_window Date_parse job primaryOp itemToMake)
    as (ev & Hev & _ & Hstart & _).
  exists ev. split; [exact Hev|]. split; [exact Hstart|].
  split; [|reflexivity].
  unfold jobStartOf. rewrite jor_assoc. unfold jor. reflexivity.
Qed.

(** C2, as stated, fails: for a job with a start at 10:00 and no end
    anywhere, the mapped end is the start itself, neither 30 minutes nor one
    day later, and the timed rendering has [DTEND] equal to [DTSTART]. *)
Lemma mapJobToEvent_no_synthesized_duration :
  truthy (jobEndOf job_start_only) = false
  /\ exists ev,
       mapJobToEvent isoParse job_start_only None None = Ok ev
       /\ newDate isoParse (Event.start ev) = Some 1717236000000
       /\ newDate isoParse (Event.end_ ev) = Some 1717236000000
       /\ newDate isoParse (Event.end_ ev)
            <> Some (1717236000000 + 30 * 60 * 1000)
       /\ newDate isoParse (Event.end_ ev) <> Some (1717236000000 + msPerDay)
       /\ forall stamp,
            nth 3 (veventTimed_lines isoParse stamp (timedArgs ev)) JNull
              = S_ "DTSTART:20240601T100000Z"
            /\ nth 4 (veventTimed_lines isoParse stamp (timedArgs ev)) JNull
                 = S_ "DTEND:20240601T100000Z".
Proof.
  split; [reflexivity|].
  eexists. split; [reflexivity|].
  repeat split; try reflexivity; try discriminate.
Qed.

(** C2, amended: when the derived start is defined and neither the primary
    operation nor the job supplies an end, the Event Mapper sets the event
    end to the start itself, whatever the mode of the feed.  The timed
    rendering then writes the same instant in [DTSTART] and [DTEND].  The
    all-day rendering writes the date of the start in [DTSTART] and, [DTEND]
    being exclusive, the date of the following day in [DTEND], when the
    start is a date whose following day is still in the range of dates (and
    the engine reads the ISO string of that day back); when the start is
    not a date, or its following day is out of range, it throws
    [Invalid time value]. *)
Theorem mapJobToEvent_end_defaults_to_start :
  forall (Date_parse : jstring -> time) (job : Job.t)
         (primaryOp : option Op.t) (itemToMake : option Item.t),
    truthy (jobStartOf job ||| opStartOpt primaryOp) = true ->
    truthy (jobEndOf job) = false ->
    truthy (opEndOpt primaryOp) = false ->
    exists ev,
      mapJobToEvent Date_parse job primaryOp itemToMake = Ok ev
      /\ Event.end_ ev = Event.start ev
      /\ (forall stamp,
            let lines := veventTimed_lines Date_parse stamp (timedArgs ev) in
            nth 3 lines JNull
              = JStr (js "DTSTART:" ++ toUTC Date_parse (Event.start ev))
            /\ nth 4 lines JNull
                 = JStr (js "DTEND:" ++ toUTC Date_parse (Event.start ev)))
      /\ (forall stamp t,
            newDate Date_parse (Event.start ev) = Some t ->
            Z.abs (t + msPerDay) <= maxTime ->
            Date_parse (toISOString (t + msPerDay)) = Some (t + msPerDay) ->
            exists lines,
              renderEvent Date_parse true stamp ev
                = Ok (array_join CRLF (filter_Boolean lines))
              /\ nth 3 lines JNull = JStr (js "DTSTART;VALUE=DATE:" ++ ymd t)
              /\ nth 4 lines JNull
                   = JStr (js "DTEND;VALUE=DATE:" ++ ymd (t + msPerDay)))
      /\ (forall stamp,
            newDate Date_parse (Event.start ev) = None ->
            renderEvent Date_parse true stamp ev
            = Throw (js "Invalid time value"))
      /\ (forall stamp t,
            newDate Date_parse (Event.start ev) = Some t ->
            maxTime < Z.abs (t + msPerDay) ->
            renderEvent Date_parse true stamp ev
            = Throw (js "Invalid time value")).
Proof.
  intros Date_parse job primaryOp itemToMake Hstart HjobEnd HopEnd.
  destruct (mapJobToEvent_window Date_parse job primaryOp itemToMake)
    as (ev & Hev & _ & Hs & He).
  assert (Hend : Event.end_ ev = Event.start ev).
  { assert (Hno : truthy (jobEndOf job ||| opEndOpt primaryOp) = false)
      by (rewrite truthy_jor, HjobEnd, HopEnd; reflexivity).
    rewrite He, Hs. now rewrite jor_falsy_l by exact Hno. }
  assert (Htruthy : truthy (Event.start ev) = true) by (rewrite Hs; exact Hstart).
  assert (Hall : forall stamp,
            renderEvent Date_parse true stamp ev
            = veventAllDay Date_parse stamp
                (mk_vevent_args (uidOf ev) (Event.start ev) (Event.start ev)
                   (Event.summary ev) (Event.location ev)
                   (Event.description ev) (Event.categories ev))).
  { intros stamp. unfold renderEvent, allDayArgs. rewrite Hend.
    now rewrite (@jor_truthy_l _ (Event.start ev) Htruthy). }
  exists ev. split; [exact Hev|]. split; [exact Hend|].
  split; [|split; [|split]].
  - intros stamp. cbn. split; [reflexivity|].
    rewrite Hend. unfold jor. rewrite Htruthy. reflexivity.
  - intros stamp t Ht Hrange Hback. rewrite Hall.
    unfold veventAllDay, addDaysISO, yyyymmdd. cbn [va_start va_end].
    rewrite Ht. rewrite Z.mul_1_l. unfold TimeClip.
    apply Z.leb_le in Hrange. rewrite Hrange.
    cbn [bind newDate]. rewrite Hback.
    eexists. split; [reflexivity|]. split; reflexivity.
  - intros stamp Hbad. rewrite Hall.
    unfold veventAllDay, addDaysISO. cbn [va_end]. now rewrite Hbad.
  - intros stamp t Ht Hrange. rewrite Hall.
    unfold veventAllDay, addDaysISO. cbn [va_end].
    rewrite Ht, Z.mul_1_l. unfold TimeClip.
    apply Z.leb_gt in Hrange. now rewrite Hrange.
Qed.

Lemma mapJobToEvent_end_defaults_to_start_witness :
  exists ev,
    mapJobToEvent isoParse job_start_only None None = Ok ev
    /\ Event.end_ ev = Event.start ev
    /\ (forall stamp,
          let lines := veventTimed_lines isoParse stamp (timedArgs ev) in
          nth 3 lines JNull
            = JStr (js "DTSTART:" ++ toUTC isoParse (Event.start ev))
          /\ nth 4 lines JNull
               = JStr (js "DTEND:" ++ toUTC isoParse (Event.start ev)))
    /\ (forall stamp t,
          newDate isoParse (Event.start ev) = Some t ->
          Z.abs (t + msPerDay) <= maxTime ->
          isoParse (toISOString (t + msPerDay)) = Some (t + msPerDay) ->
          exists lines,
            renderEvent isoParse true stamp ev
              = Ok (array_join CRLF (filter_Boolean lines))
            /\ nth 3 lines JNull = JStr (js "DTSTART;VALUE=DATE:" ++ ymd t)
            /\ nth 4 lines JNull
                 = JStr (js "DTEND;VALUE=DATE:" ++ ymd (t + msPerDay)))
    /\ (forall stamp,
          newDate isoParse (Event.start ev) = None ->
          renderEvent isoParse true stamp ev
          = Throw (js "Invalid time value"))
    /\ (forall stamp t,
          newDate isoParse (Event.start ev) = Some t ->
          maxTime < Z.abs (t + msPerDay) ->
          renderEvent isoParse true stamp ev
          = Throw (js "Invalid time value")).
Proof.
  apply (mapJobToEvent_end_defaults_to_start isoParse job_start_only None None);
    reflexivity.
Defined.

(** The all-day rendering of that event: June 1 to June 2, exclusive. *)
Example job_start_only_all_day :
  exists ev lines,
    mapJobToEvent isoParse job_start_only None None = Ok ev
    /\ renderEvent isoParse true T0 ev
         = Ok (array_join CRLF (filter_Boolean lines))
    /\ nth 3 lines JNull = S_ "DTSTART;VALUE=DATE:20240601"
    /\ nth 4 lines JNull = S_ "DTEND;VALUE=DATE:20240602".
Proof.
  eexists _, _. split; [reflexivity|].
  split; [reflexivity|]. split; reflexivity.
Qed.

(** A start that is not a date: the timed rendering writes [NaN] fields,
    the all-day rendering throws. *)
Example job_bad_start_all_day :
  exists ev,
    mapJobToEvent isoParse job_bad_start None None = Ok ev
    /\ Event.end_ ev = Event.start ev
    /\ renderEvent isoParse true T0 ev = Throw (js "Invalid time value")
    /\ nth 4 (veventTimed_lines isoParse T0 (timedArgs ev)) JNull
       = S_ "DTEND:NaNNaNNaNTNaNNaNNaNZ".
Proof.
  eexists. split; [reflexivity|]. repeat split; reflexivity.
Qed.

(** C3, as stated, fails on the summary: the job has no name, so the title
    is already ["Job #7"], and the number segment ["#7"] is joined after
    it. *)
Lemma scenario_J1_summary_repeats_number :
  pickPrimaryOperation isoParse job_J1 [] = None
  /\ exists ev,
       mapJobToEvent isoParse job_J1 None None = Ok ev
       /\ Event.summary ev = js "Job #7 #7"
       /\ Event.summary ev <> js "Job #7".
Proof.
  split; [reflexivity|].
  eexists. split; [reflexivity|]. split; [reflexivity|]. discriminate.
Qed.

(** C3, amended: for the job [{id:"J1", number:7, scheduledStartUtc:
    "2024-06-01T10:00:00Z", scheduledEndUtc:"2024-06-01T11:00:00Z",
    status:"scheduled"}] with no name, no operations and [allday=0], the
    event summary is exactly ["Job #7 #7"], and the rendered event has
    [DTSTART:20240601T100000Z] and [DTEND:20240601T110000Z]. *)
Theorem scenario_J1_timed :
  forall stamp : Z,
  exists ev,
    mapJobToEvent isoParse job_J1 (pickPrimaryOperation isoParse job_J1 []) None
      = Ok ev
    /\ Event.summary ev = js "Job #7 #7"
    /\ renderEvent isoParse false stamp ev
       = Ok (join CRLF
               [ js "BEGIN:VEVENT";
                 js "UID:5b71cecf88fe1576732afbe5abc08a4affeeaa7c@bettis";
                 js "DTSTAMP:" ++ toUTC isoParse (JNum stamp);
                 js "DTSTART:20240601T100000Z";
                 js "DTEND:20240601T110000Z";
                 js "SUMMARY:Job #7 #7";
                 js "DESCRIPTION:Status: scheduled\nJob ID: J1";
                 js "CATEGORIES:scheduled";
                 js "END:VEVENT" ]).
Proof.
  intros stamp. eexists. split; [reflexivity|]. split; reflexivity.
Qed.

(** C4, as stated, fails: the job starts on June 5 and has no end; its only
    operation ran on June 1 and is selected as primary (earliest candidate,
    no overlap); the job passes the window filter and its event starts on
    June 5 and ends on June 1. *)
Lemma mapJobToEvent_end_before_start :
  pickPrimaryOperation isoParse job_late [op_early] = Some op_early
  /\ keepJob isoParse JUndefined JUndefined
       [(Job.id job_late, Some (mk_pair op_early None))] job_late = true
  /\ exists ev,
       mapJobToEvent isoParse job_late (Some op_early) None = Ok ev
       /\ Event.start ev = S_ "2024-06-05T08:00:00Z"
       /\ Event.end_ ev = S_ "2024-06-01T09:00:00Z"
       /\ time_ltb (newDate isoParse (Event.end_ ev))
                   (newDate isoParse (Event.start ev)) = true
       /\ time_leb (newDate isoParse (Event.start ev))
                   (newDate isoParse (Event.end_ ev)) = false.
Proof.
  split; [reflexivity|]. split; [reflexivity|].
  eexists. split; [reflexivity|]. repeat split; reflexivity.
Qed.

(** C4, amended: for every mapped event whose start parses as a date, the
    end is not before the start when the end is the synthesized one (neither
    the job nor the operation supplies an end, so the end is the start), or
    when start and end both come from the job and the job's end is not
    before its start, or when both come from the operation and the
    operation's end is not before its start.  The mapper itself compares
    nothing. *)
Theorem mapJobToEvent_end_ge_start :
  forall (Date_parse : jstring -> time) (job : Job.t)
         (primaryOp : option Op.t) (itemToMake : option Item.t) (t : Z),
    newDate Date_parse (jobStartOf job ||| opStartOpt primaryOp) = Some t ->
    (truthy (jobEndOf job ||| opEndOpt primaryOp) = false
     \/ (truthy (jobStartOf job) = true /\ truthy (jobEndOf job) = true
         /\ time_leb (newDate Date_parse (jobStartOf job))
                     (newDate Date_parse (jobEndOf job)) = true)
     \/ (truthy (jobStartOf job) = false /\ truthy (jobEndOf job) = false
         /\ time_leb (newDate Date_parse (opStartOpt primaryOp))
                     (newDate Date_parse (opEndOpt primaryOp)) = true)) ->
    exists ev,
      mapJobToEvent Date_parse job primaryOp itemToMake = Ok ev
      /\ time_leb (newDate Date_parse (Event.start ev))
                  (newDate Date_parse (Event.end_ ev)) = true.
Proof.
  intros Date_parse job primaryOp itemToMake t Ht Hcases.
  destruct (mapJobToEvent_window Date_parse job primaryOp itemToMake)
    as (ev & Hev & _ & Hs & He).
  exists ev. split; [exact Hev|]. rewrite He, Hs.
  destruct Hcases as [Hno | [(Hjs & Hje & Hle) | (Hjs & Hje & Hle)]].
  - rewrite (@jor_falsy_l _ _ Hno), Ht. cbn. apply Z.leb_refl.
  - rewrite (@jor_truthy_l _ _ Hjs).
    rewrite jor_assoc, (@jor_truthy_l _ _ Hje). exact Hle.
  - rewrite (@jor_falsy_l _ _ Hjs).
    rewrite (@jor_falsy_l _ (opEndOpt primaryOp) Hje).
    destruct (truthy (opEndOpt primaryOp)) eqn:Hoe.
    + rewrite (@jor_truthy_l _ _ Hoe). exact Hle.
    + rewrite (@jor_falsy_l _ _ Hoe).
      rewrite (@jor_falsy_l _ _ Hjs) in Ht. rewrite Ht. cbn. apply Z.leb_refl.
Qed.

Lemma mapJobToEvent_end_ge_start_witness :
  exists ev,
    mapJobToEvent isoParse job_J1 None None = Ok ev
    /\ time_leb (newDate isoParse (Event.start ev))
                (newDate isoParse (Event.end_ ev)) = true.
Proof.
  apply (mapJobToEvent_end_ge_start isoParse job_J1 None None
           (t := 1717236000000)).
  - reflexivity.
  - right. left. repeat split; reflexivity.
Defined.

(* ------------------------------------------------------------------ *)
(** *** Operation selection *)

Lemma candidatesOf_nil (Date_parse : jstring -> time) :
  candidatesOf Date_parse [] = [].
Proof. reflexivity. Qed.


Section EarliestProperties.
Variable Date_parse : jstring -> time.





End EarliestProperties.



Example pickPrimaryOperation_epoch_picks_earliest :
  pickPrimaryOperation isoParse job_epoch [op_inside; op_early]
    = Some op_early.
Proof. reflexivity. Qed.

Example pickPrimaryOperation_unparseable_picks_earliest :
  pickPrimaryOperation isoParse job_unparseable [op_inside; op_early]
    = Some op_early.
Proof. reflexivity. Qed.

(** With a start that parses and is not the epoch, the overlapping
    operation is preferred to the earliest one. *)
Example pickPrimaryOperation_overlap_preferred :
  pickPrimaryOperation isoParse job_J1 [op_inside; op_early] = Some op_inside.
Proof. reflexivity. Qed.

(* ------------------------------------------------------------------ *)
(** *** The operation cache *)

Section OpsCacheProperties.
Variable cfg : config.

Lemma at_le_key (a b : jsval * ops_entry) :
  at_le a b = (oe_at (snd a) <=? oe_at (snd b)).
Proof.
  unfold at_le.
  destruct (oe_at (snd a) <=? oe_at (snd b)) eqn:E.
  - apply Z.leb_le in E. apply Z.leb_le. lia.
  - apply Z.leb_gt in E. apply Z.leb_gt. lia.
Qed.

(** What [cachePutOps] does when the insertion makes the size exceed 500:
    the head of the stable sort by [at] is the first entry of the [Map] with
    the smallest timestamp, and it is the one deleted. *)
Lemma cachePutOps_eviction (now : Z) (jobId : jsval) (data : list RawOp)
    (opsCache : ops_cache) :
  NoDup (JMap.keys opsCache) ->
  let inserted := JMap.set jobId (mk_ops_entry now data) opsCache in
  (500 < JMap.size inserted)%nat ->
  exists before oldestKey oldest after,
    inserted = before ++ (oldestKey, oldest) :: after
    /\ (forall k e, In (k, e) before -> oe_at oldest < oe_at e)
    /\ (forall k e, In (k, e) after -> oe_at oldest <= oe_at e)
    /\ cachePutOps now jobId data opsCache = before ++ after.
Proof.
  intros Hnodup inserted Hbig.
  assert (Hnd : NoDup (JMap.keys inserted)) by (apply NoDup_set; exact Hnodup).
  unfold cachePutOps. fold inserted.
  apply Nat.ltb_lt in Hbig. rewrite Hbig.
  unfold JMap.entries.
  destruct (array_sort at_le inserted) as [|[oldestKey oldest] rest] eqn:Hs.
  - apply Nat.ltb_lt in Hbig.
    pose proof (array_sort_length at_le inserted) as Hlen.
    rewrite Hs in Hlen. unfold JMap.size in Hbig. simpl in Hlen. lia.
  - destruct (@array_sort_head_first_min _ at_le (fun p => oe_at (snd p))
                inserted (fun a b _ _ => at_le_key a b) _ _ Hs)
      as (before & after & Heq & Hb & Ha).
    exists before, oldestKey, oldest, after.
    split; [exact Heq|].
    split; [intros k e Hke; exact (Hb (k, e) Hke)|].
    split; [intros k e Hke; exact (Ha (k, e) Hke)|].
    rewrite Heq. apply delete_middle.
    rewrite Heq in Hnd. unfold JMap.keys in Hnd |- *.
    rewrite map_app in Hnd. cbn [map fst] in Hnd.
    apply NoDup_remove_2 in Hnd. intros Hin. apply Hnd.
    apply in_or_app. auto.
Qed.

Lemma cachePutOps_size (now : Z) (jobId : jsval) (data : list RawOp)
    (opsCache : ops_cache) :
  (JMap.size opsCache <= 500)%nat -> NoDup (JMap.keys opsCache) ->
  (JMap.size (cachePutOps now jobId data opsCache) <= 500)%nat.
Proof.
  intros Hsize Hnodup.
  set (inserted := JMap.set jobId (mk_ops_entry now data) opsCache).
  assert (Hins : (JMap.size inserted <= 501)%nat).
  { unfold inserted. rewrite size_set.
    destruct (JMap.get jobId opsCache); lia. }
  destruct (Nat.le_gt_cases (JMap.size inserted) 500) as [Hle | Hgt].
  - unfold cachePutOps. fold inserted.
    apply Nat.ltb_ge in Hle. rewrite Hle. apply Nat.ltb_ge in Hle. exact Hle.
  - destruct (@cachePutOps_eviction now jobId data opsCache Hnodup Hgt)
      as (b & k & e & a & Heq & _ & _ & ->).
    fold inserted in Heq.
    unfold JMap.size in *. rewrite Heq in Hins.
    rewrite length_app in *. cbn [List.length] in Hins. lia.
Qed.

Lemma cachePutOps_keys (now : Z) (jobId : jsval) (data : list RawOp)
    (opsCache : ops_cache) :
  NoDup (JMap.keys opsCache) ->
  NoDup (JMap.keys (cachePutOps now jobId data opsCache)).
Proof.
  intros Hnodup. unfold cachePutOps.
  pose proof (@NoDup_set _ jobId (mk_ops_entry now data) opsCache Hnodup) as Hnd.
  destruct (500 <? _)%nat; [|exact Hnd].
  destruct (array_sort _ _) as [|[oldestKey ?] ?]; [exact Hnd|].
  apply NoDup_delete. exact Hnd.
Qed.

(** C9: a call of [cachePutOps] on a cache of at most 500 entries leaves at
    most 500 entries.  When the insertion makes the size exceed 500, exactly
    one entry is removed: the one whose stored timestamp is the smallest,
    and among several of that timestamp the one the [Map] holds first; all
    the other entries stay, in their order.  Otherwise nothing is
    removed. *)
Theorem cachePutOps_bounded :
  forall (now : Z) (jobId : jsval) (data : list RawOp) (opsCache : ops_cache),
    (JMap.size opsCache <= 500)%nat ->
    NoDup (JMap.keys opsCache) ->
    let inserted := JMap.set jobId (mk_ops_entry now data) opsCache in
    (JMap.size (cachePutOps now jobId data opsCache) <= 500)%nat
    /\ NoDup (JMap.keys (cachePutOps now jobId data opsCache))
    /\ ((JMap.size inserted <= 500)%nat ->
        cachePutOps now jobId data opsCache = inserted)
    /\ ((500 < JMap.size inserted)%nat ->
        exists before oldestKey oldest after,
          inserted = before ++ (oldestKey, oldest) :: after
          /\ (forall k e, In (k, e) before -> oe_at oldest < oe_at e)
          /\ (forall k e, In (k, e) after -> oe_at oldest <= oe_at e)
          /\ cachePutOps now jobId data opsCache = before ++ after).
Proof.
  intros now jobId data opsCache Hsize Hnodup inserted.
  split; [apply cachePutOps_size; assumption|].
  split; [apply cachePutOps_keys; assumption|].
  split; [|apply cachePutOps_eviction; assumption].
  intros Hle. unfold cachePutOps. fold inserted.
  apply Nat.ltb_ge in Hle. now rewrite Hle.
Qed.

(** [cacheGetOps] never grows the cache. *)
Lemma cacheGetOps_size (now : Z) (jobId : jsval) (opsCache : ops_cache) :
  (JMap.size (snd (cacheGetOps cfg now jobId opsCache))
   <= JMap.size opsCache)%nat.
Proof.
  unfold cacheGetOps. destruct (JMap.get jobId opsCache); simpl; [|lia].
  destruct (_ <? _); simpl; [apply size_delete_le | lia].
Qed.

(** Every cache the process can hold has at most 500 entries, one for a
    key. *)
Lemma ops_cache_reachable_bounded (c : ops_cache) :
  ops_cache_reachable cfg c ->
  (JMap.size c <= 500)%nat /\ NoDup (JMap.keys c).
Proof.
  induction 1 as [| now jobId c _ [IHs IHn] | now jobId data c _ [IHs IHn]].
  - split; [unfold JMap.size; simpl; lia | constructor].
  - split; [pose proof (cacheGetOps_size now jobId c); lia|].
    unfold cacheGetOps. destruct (JMap.get jobId c); simpl; [|exact IHn].
    destruct (_ <? _); simpl; [apply NoDup_delete|]; exact IHn.
  - split; [apply cachePutOps_size | apply cachePutOps_keys]; assumption.
Qed.

End OpsCacheProperties.

Lemma full_cache_keys : NoDup (JMap.keys full_cache).
Proof.
  unfold full_cache, JMap.keys. rewrite map_map. cbn [fst].
  apply NoDup_map_NoDup_ForallPairs; [|apply seq_NoDup].
  intros x y _ _ [= H]. lia.
Qed.

Lemma cachePutOps_bounded_witness :
  let inserted := JMap.set (S_ "J1") (mk_ops_entry 2000 []) full_cache in
  (JMap.size (cachePutOps 2000 (S_ "J1") [] full_cache) <= 500)%nat
  /\ NoDup (JMap.keys (cachePutOps 2000 (S_ "J1") [] full_cache))
  /\ ((JMap.size inserted <= 500)%nat ->
      cachePutOps 2000 (S_ "J1") [] full_cache = inserted)
  /\ ((500 < JMap.size inserted)%nat ->
      exists before oldestKey oldest after,
        inserted = before ++ (oldestKey, oldest) :: after
        /\ (forall k e, In (k, e) before -> oe_at oldest < oe_at e)
        /\ (forall k e, In (k, e) after -> oe_at oldest <= oe_at e)
        /\ cachePutOps 2000 (S_ "J1") [] full_cache = before ++ after).
Proof.
  apply (cachePutOps_bounded 2000 (S_ "J1") [] full_cache).
  - apply Nat.leb_le. vm_compute. reflexivity.
  - exact full_cache_keys.
Defined.

(** On the full cache the entry stored first, at time 1000, is the one
    evicted. *)
Example cachePutOps_evicts_oldest :
  cachePutOps 2000 (S_ "J1") [] full_cache
  = JMap.delete (JNum 0) (JMap.set (S_ "J1") (mk_ops_entry 2000 []) full_cache)
  /\ JMap.size (cachePutOps 2000 (S_ "J1") [] full_cache) = 500%nat
  /\ JMap.get (JNum 0) (cachePutOps 2000 (S_ "J1") [] full_cache) = None
  /\ JMap.get (S_ "J1") (cachePutOps 2000 (S_ "J1") [] full_cache)
     = Some (mk_ops_entry 2000 []).
Proof. vm_compute. repeat split; reflexivity. Qed.

(* ------------------------------------------------------------------ *)
(** *** Jobs without a start *)

Lemma filter_app_cons_false {A} (f : A -> bool) (l1 l2 : list A) (x : A) :
  f x = false -> filter f (l1 ++ x :: l2) = filter f (l1 ++ l2).
Proof.
  intros Hx. rewrite !filter_app. simpl. now rewrite Hx.
Qed.

(** C6: a job for which neither the primary operation nor the job itself
    has a start is dropped by the window filter, whatever the window; it is
    dropped by the prefilter of the enrichment too, so that no upstream call
    is made for it; and the feed is rendered as if the listing did not
    contain it: it contributes no event and no error. *)
Theorem job_without_start_excluded :
  forall (Date_parse : jstring -> time) (cfg : config) (w : world)
         (allDay includeOps : bool) (since until : jsval)
         (primaryOpByJob : primary_map) (j : Job.t),
    truthy (opt Op.scheduledStartUtc (primaryOpOf primaryOpByJob j)) = false ->
    truthy (opt Op.originalScheduledStartUtc (primaryOpOf primaryOpByJob j))
      = false ->
    truthy (Job.scheduledStartUtc j) = false ->
    truthy (Job.originalScheduledStartUtc j) = false ->
    truthy (Job.productionDueDate j) = false ->
    keepJob Date_parse since until primaryOpByJob j = false
    /\ (forall jobs,
          ~ In j (filteredJobs Date_parse since until primaryOpByJob jobs))
    /\ (forall before after opsCache,
          enrich Date_parse cfg w includeOps since until
                 (before ++ j :: after) opsCache
          = enrich Date_parse cfg w includeOps since until
                   (before ++ after) opsCache)
    /\ (forall before after,
          renderFeed Date_parse w allDay since until primaryOpByJob
                     (before ++ j :: after)
          = renderFeed Date_parse w allDay since until primaryOpByJob
                       (before ++ after)).
Proof.
  intros Date_parse cfg w allDay includeOps since until pm j H1 H2 H3 H4 H5.
  assert (Hkeep : keepJob Date_parse since until pm j = false).
  { unfold keepJob, resolvedStart.
    rewrite !truthy_jor, H1, H2, H3, H4, H5. reflexivity. }
  assert (Hpre : prefilter Date_parse since until j = false).
  { unfold prefilter, jobStartOf. rewrite !truthy_jor, H3, H4, H5.
    reflexivity. }
  split; [exact Hkeep|]. split; [|split].
  - intros jobs Hin. unfold filteredJobs in Hin.
    apply filter_In in Hin. destruct Hin as [_ Hin]. congruence.
  - intros before after opsCache. unfold enrich.
    now rewrite (filter_app_cons_false _ before after j Hpre).
  - intros before after. unfold renderFeed, filteredJobs.
    now rewrite (filter_app_cons_false _ before after j Hkeep).
Qed.

Lemma job_without_start_excluded_witness :
  keepJob isoParse JUndefined JUndefined [] job_unscheduled = false
  /\ (forall jobs,
        ~ In job_unscheduled
             (filteredJobs isoParse JUndefined JUndefined [] jobs))
  /\ (forall before after opsCache,
        enrich isoParse config_default (world_quiet 0 []) true
               JUndefined JUndefined
               (before ++ job_unscheduled :: after) opsCache
        = enrich isoParse config_default (world_quiet 0 []) true
                 JUndefined JUndefined (before ++ after) opsCache)
  /\ (forall before after,
        renderFeed isoParse (world_quiet 0 []) false JUndefined JUndefined []
                   (before ++ job_unscheduled :: after)
        = renderFeed isoParse (world_quiet 0 []) false JUndefined JUndefined []
                     (before ++ after)).
Proof.
  apply (job_without_start_excluded isoParse config_default (world_quiet 0 [])
           false true JUndefined JUndefined [] job_unscheduled);
    reflexivity.
Defined.

(* ------------------------------------------------------------------ *)
(** *** Enrichment failures *)

Section EnrichmentProperties.
Variable Date_parse : jstring -> time.
Variable cfg : config.
Variable w : world.

Lemma get_In {V} (k : jsval) (v : V) (m : JMap.t V) :
  JMap.get k m = Some v -> In (k, v) m.
Proof.
  induction m as [|[k' v'] m IH]; simpl; [discriminate|].
  destruct (strict_eq k' k) eqn:E.
  - apply strict_eq_true in E. subst k'. intros [= ->]. auto.
  - auto.
Qed.

Lemma delete_In {V} (k k' : jsval) (v : V) (m : JMap.t V) :
  In (k, v) (JMap.delete k' m) -> In (k, v) m.
Proof.
  induction m as [|[k0 v0] m IH]; simpl; [tauto|].
  destruct (strict_eq k0 k'); simpl; intuition auto.
Qed.



Lemma cacheGetOps_miss (now : Z) (jobId : jsval) (c : ops_cache) :
  stale cfg now jobId c -> fst (cacheGetOps cfg now jobId c) = None.
Proof.
  intros Hstale. unfold cacheGetOps.
  destruct (JMap.get jobId c) as [hit|] eqn:Hget; [|reflexivity].
  apply get_In, Hstale, Z.ltb_lt in Hget. now rewrite Hget.
Qed.






End EnrichmentProperties.




(* ------------------------------------------------------------------ *)
(** *** The response cache *)


Lemma jstring_eqb_false (a b : jstring) : jstring_eqb a b = false -> a <> b.
Proof. unfold jstring_eqb. destruct (jstring_eq_dec a b); congruence. Qed.



(** The document the first request answers with. *)
Example first_request_body :
  fst first_request
  = Success
      (join CRLF
         [ js "BEGIN:VCALENDAR";
           js "VERSION:2.0";
           js "PRODID:-//Bettis//Fulcrum Jobs Schedule//EN";
           js "CALSCALE:GREGORIAN";
           js "METHOD:PUBLISH";
           js "X-WR-CALNAME:Fulcrum Schedule";
           js "X-WR-TIMEZONE:UTC";
           js "BEGIN:VEVENT";
           js "UID:" ++ sha1_hex (js "fulcrum:J1") ++ js "@bettis";
           js "DTSTAMP:20240601T100000Z";
           js "DTSTART:20240601T100000Z";
           js "DTEND:20240601T110000Z";
           js "SUMMARY:Job #7 #7";
           js "DESCRIPTION:Status: scheduled\nJob ID: J1";
           js "CATEGORIES:scheduled";
           js "END:VEVENT";
           js "END:VCALENDAR";
           [] ])
      (etag_of (fst first_request)).
Proof. vm_compute. reflexivity. Qed.

(** A request whose second operation listing fails is answered with a
    document that holds both jobs. *)
Example failure_not_surfaced :
  exists body etag,
    fst (calendar_ics isoParse config_default world_J2_fails
           (mk_request (js "/calendar.ics?ops=1&allday=0") JUndefined
              JUndefined JUndefined (S_ "1") (S_ "0") JUndefined)
           state_empty)
    = Success body etag
    /\ In (js "SUMMARY:Job #7 #7 (Cut)") (split_CRLF body)
    /\ In (js "SUMMARY:Job #4 #4") (split_CRLF body)
    /\ In (js "DTSTART:20240605T080000Z") (split_CRLF body).
Proof.
  eexists _, _. split; [vm_compute; reflexivity|].
  vm_compute. intuition auto.
Qed.

(* ------------------------------------------------------------------ *)
(** *** Line folding *)

Lemma foldLoop_clause (cur : jstring) (out : list jstring) (b : bool)
    (H : (75 <? byteLength cur)%nat = b) :
  foldLoop_unfold_clause_1 cur (exist _ b H) out
  = if b
    then foldLoop (SP :: skipn (findCut cur 75) cur)
                  (out ++ [firstn (findCut cur 75) cur])
    else out ++ [cur].
Proof.
  destruct b;
    [apply foldLoop_clause_1_equation_1 | apply foldLoop_clause_1_equation_2].
Qed.

(** The loop of [foldLines], one turn at a time. *)
Lemma foldLoop_turn (cur : jstring) (out : list jstring) :
  foldLoop cur out
  = if (75 <? byteLength cur)%nat
    then foldLoop (SP :: skipn (findCut cur 75) cur)
                  (out ++ [firstn (findCut cur 75) cur])
    else out ++ [cur].
Proof. rewrite foldLoop_equation_1. apply foldLoop_clause. Qed.

Lemma foldLoop_long (cur : jstring) (out : list jstring) :
  (75 < byteLength cur)%nat ->
  foldLoop cur out
  = foldLoop (SP :: skipn (findCut cur 75) cur)
             (out ++ [firstn (findCut cur 75) cur]).
Proof.
  intros Hlong. apply Nat.ltb_lt in Hlong.
  rewrite foldLoop_turn at 1. now rewrite Hlong.
Qed.

Lemma foldLoop_short (cur : jstring) (out : list jstring) :
  (byteLength cur <= 75)%nat -> foldLoop cur out = out ++ [cur].
Proof.
  intros Hshort. apply Nat.ltb_ge in Hshort.
  rewrite foldLoop_turn. now rewrite Hshort.
Qed.

Lemma foldLines_join (text : jstring) :
  foldLines text = join CRLF (foldedLines text).
Proof. reflexivity. Qed.

Lemma containsCRLF_tail (c : N) (t : jstring) :
  containsCRLF (c :: t) = false -> containsCRLF t = false.
Proof.
  cbn [containsCRLF]. destruct t as [|d t']; [reflexivity|].
  intros H. apply orb_false_iff in H. tauto.
Qed.

Lemma containsCRLF_firstn (n : nat) :
  forall s, containsCRLF s = false -> containsCRLF (firstn n s) = false.
Proof.
  induction n as [|n IH]; intros s Hs; [reflexivity|].
  destruct s as [|c t]; [reflexivity|].
  cbn [firstn]. pose proof (IH t (containsCRLF_tail _ _ Hs)) as Ht.
  cbn [containsCRLF]. destruct (firstn n t) as [|d t'] eqn:E; [reflexivity|].
  rewrite Ht. destruct t as [|d0 t0]; [destruct n; discriminate|].
  destruct n; [discriminate|]. cbn [firstn] in E. injection E as <- _.
  cbn [containsCRLF] in Hs. apply orb_false_iff in Hs.
  rewrite (proj1 Hs). reflexivity.
Qed.

Lemma containsCRLF_skipn (n : nat) :
  forall s, containsCRLF s = false -> containsCRLF (skipn n s) = false.
Proof.
  induction n as [|n IH]; intros s Hs; [exact Hs|].
  destruct s as [|c t]; [reflexivity|].
  cbn [skipn]. apply IH. exact (containsCRLF_tail _ _ Hs).
Qed.

Lemma containsCRLF_SP (s : jstring) :
  containsCRLF s = false -> containsCRLF (SP :: s) = false.
Proof.
  intros Hs. cbn [containsCRLF]. destruct s; [reflexivity|].
  rewrite Hs. reflexivity.
Qed.

(** The accumulator of the loop only grows: the pieces of a line do not
    depend on the lines pushed before. *)
Lemma foldLoop_acc (cur : jstring) :
  forall out : list jstring, foldLoop cur out = out ++ foldLoop cur [].
Proof.
  induction cur as [cur IH] using (induction_ltof1 _ (@List.length N)).
  unfold ltof in IH. intros out.
  destruct (Nat.le_gt_cases (byteLength cur) 75) as [Hshort | Hlong].
  - now rewrite !(@foldLoop_short cur _ Hshort).
  - rewrite (@foldLoop_long cur out Hlong), (@foldLoop_long cur [] Hlong).
    assert (Hdec := @foldLoop_decreases cur
                      (proj2 (Nat.ltb_lt _ _) Hlong)).
    rewrite (IH _ Hdec (out ++ _)), (IH _ Hdec ([] ++ _)).
    now rewrite <- app_assoc.
Qed.

(** What holds of the folding of every line: the loop terminates with the
    line cut in pieces of at most 75 octets, every piece after the first
    begins with one added space, and the pieces without these spaces are the
    line. *)
Lemma foldLoop_pieces (cur : jstring) :
  exists p ps,
    foldLoop cur [] = p :: ps
    /\ Forall (fun l => (byteLength l <= 75)%nat) (p :: ps)
    /\ Forall continuation ps
    /\ firstn 1 p = firstn 1 cur
    /\ unfoldPieces (p :: ps) = cur
    /\ (containsCRLF cur = false ->
        Forall (fun l => containsCRLF l = false) (p :: ps)).
Proof.
  induction cur as [cur IH] using (induction_ltof1 _ (@List.length N)).
  unfold ltof in IH.
  destruct (Nat.le_gt_cases (byteLength cur) 75) as [Hshort | Hlong].
  - exists cur, []. rewrite (@foldLoop_short cur [] Hshort).
    repeat split; auto.
    simpl. apply app_nil_r.
  - rewrite (@foldLoop_long cur [] Hlong), foldLoop_acc.
    assert (Hdec := @foldLoop_decreases cur
                      (proj2 (Nat.ltb_lt _ _) Hlong)).
    destruct (IH _ Hdec)
      as (p' & ps' & Hfold & Hoct & Hcont & Hfirst & Hunfold & Hcrlf).
    exists (firstn (findCut cur 75) cur), (p' :: ps').
    assert (Hp' : continuation p').
    { destruct p' as [|c r]; [discriminate|].
      simpl in Hfirst. injection Hfirst as ->. exists r. reflexivity. }
    split; [rewrite Hfold; reflexivity|].
    split; [constructor; [apply findCut_octets | exact Hoct]|].
    split; [constructor; assumption|].
    split; [|split].
    + rewrite firstn_firstn.
      pose proof (@findCut_ge cur 75 ltac:(lia)).
      replace (Nat.min 1 (findCut cur 75)) with 1%nat by lia. reflexivity.
    + destruct Hp' as [r ->]. simpl in Hunfold. injection Hunfold as Hrest.
      cbn [unfoldPieces flat_map skipn]. rewrite Hrest.
      apply firstn_skipn.
    + intros Hcur. constructor; [now apply containsCRLF_firstn|].
      apply Hcrlf. now apply containsCRLF_SP, containsCRLF_skipn.
Qed.

Lemma foldedLines_flat_map (text : jstring) :
  foldedLines text = flat_map (fun line => foldLoop line []) (split_CRLF text).
Proof.
  unfold foldedLines.
  assert (Hgen : forall lines out,
            fold_left (fun out line => foldLoop line out) lines out
            = out ++ flat_map (fun line => foldLoop line []) lines).
  { induction lines as [|line lines IH]; intros out; simpl.
    - now rewrite app_nil_r.
    - rewrite IH, foldLoop_acc. now rewrite <- app_assoc. }
  apply Hgen.
Qed.

(** No line pushed by [foldLines] exceeds 75 octets. *)
Lemma foldedLines_octets (text : jstring) :
  Forall (fun l => (byteLength l <= 75)%nat) (foldedLines text).
Proof.
  rewrite foldedLines_flat_map.
  induction (split_CRLF text) as [|line lines IH]; simpl; [constructor|].
  destruct (foldLoop_pieces line) as (p & ps & -> & Hoct & _).
  apply Forall_app. split; assumption.
Qed.

Lemma unfold_cons_keep (c : N) (t : list N) :
  (forall d e rest, t = d :: e :: rest ->
                    ((c =? CR) && (d =? LF) && (e =? SP))%N = false) ->
  unfold (c :: t) = c :: unfold t.
Proof.
  intros H. destruct t as [|d [|e rest]]; try reflexivity.
  cbn [unfold]. now rewrite (H d e rest eq_refl).
Qed.

(** A piece without a line break is left alone, when what follows does not
    begin with a line feed. *)
Lemma unfold_app (p s : jstring) :
  containsCRLF p = false -> startsWith LF s = false ->
  unfold (p ++ s) = p ++ unfold s.
Proof.
  induction p as [|c p IH]; intros Hp Hs; [reflexivity|].
  cbn [app]. rewrite unfold_cons_keep.
  - f_equal. apply IH; [exact (containsCRLF_tail _ _ Hp) | exact Hs].
  - intros d e rest Heq. destruct p as [|d' p']; cbn [app] in Heq.
    + subst s. cbn [startsWith] in Hs. rewrite Hs.
      now rewrite andb_false_r.
    + injection Heq as -> _. cbn [containsCRLF] in Hp.
      apply orb_false_iff in Hp. now rewrite (proj1 Hp).
Qed.

Lemma unfold_break_continuation (q : jstring) :
  unfold (CRLF ++ SP :: q) = unfold q.
Proof. reflexivity. Qed.

Lemma unfold_break_line (q : jstring) :
  startsWith SP q = false -> unfold (CRLF ++ q) = CRLF ++ unfold q.
Proof.
  intros Hq. change (CRLF ++ q) with (CR :: LF :: q).
  change (CRLF ++ unfold q) with (CR :: LF :: unfold q).
  rewrite unfold_cons_keep.
  - f_equal. apply unfold_cons_keep. reflexivity.
  - intros d e rest [= <- ->]. cbn [startsWith] in Hq. rewrite Hq.
    apply andb_false_r.
Qed.

Lemma join_cons_cons (sep p q : jstring) (parts : list jstring) :
  join sep (p :: q :: parts) = p ++ sep ++ join sep (q :: parts).
Proof. reflexivity. Qed.

Lemma join_head_cons (sep l : jstring) (c : N) (parts : list jstring) :
  join sep ((c :: l) :: parts) = c :: join sep (l :: parts).
Proof. destruct parts; reflexivity. Qed.

Lemma join_CRLF_startsWith_SP (p : jstring) (parts : list jstring) :
  startsWith SP p = false -> startsWith SP (join CRLF (p :: parts)) = false.
Proof.
  intros Hp. destruct parts as [|q parts]; [exact Hp|].
  rewrite join_cons_cons. destruct p as [|d p]; [reflexivity | exact Hp].
Qed.

(** Pieces of one folded line followed by the pieces [following] of the
    next lines: the continuation breaks go, the break before the next line
    stays. *)
Lemma unfold_pieces (ps : list jstring) :
  forall (p : jstring) (following : list jstring),
    containsCRLF p = false ->
    Forall (fun l => containsCRLF l = false) ps ->
    Forall continuation ps ->
    startsWith SP (join CRLF following) = false ->
    unfold (join CRLF (p :: ps ++ following))
    = (p ++ flat_map (skipn 1) ps)
        ++ match following with
           | [] => []
           | _ => CRLF ++ unfold (join CRLF following)
           end.
Proof.
  induction ps as [|q ps IH]; intros p following Hp Hps Hcont Hnext.
  - cbn [app flat_map]. rewrite app_nil_r.
    destruct following as [|r following'].
    + cbn [join]. rewrite <- (app_nil_r p) at 1.
      rewrite unfold_app by auto. reflexivity.
    + rewrite join_cons_cons. rewrite unfold_app by auto.
      now rewrite unfold_break_line.
  - inversion Hps as [|? ? Hq Hps']; subst.
    inversion Hcont as [|? ? [r ->] Hcont']; subst.
    cbn [app]. rewrite join_cons_cons, join_head_cons.
    rewrite unfold_app by auto.
    rewrite unfold_break_continuation.
    rewrite (IH r following (containsCRLF_tail _ _ Hq) Hps' Hcont' Hnext).
    cbn [flat_map skipn]. now rewrite <- !app_assoc.
Qed.

Lemma foldLoop_nonempty (line : jstring) : foldLoop line [] <> [].
Proof. destruct (foldLoop_pieces line) as (p & ps & -> & _). discriminate. Qed.

(** The pieces of a line hold code units of the line and the added
    spaces. *)
Lemma foldLoop_Forall (P : N -> Prop) :
  P SP -> forall cur, Forall P cur -> Forall (Forall P) (foldLoop cur []).
Proof.
  intros HSP cur.
  induction cur as [cur IH] using (induction_ltof1 _ (@List.length N)).
  unfold ltof in IH. intros Hcur.
  destruct (Nat.le_gt_cases (byteLength cur) 75) as [Hshort | Hlong].
  - rewrite (@foldLoop_short cur [] Hshort). repeat constructor. exact Hcur.
  - rewrite (@foldLoop_long cur [] Hlong), foldLoop_acc.
    assert (Hdec := @foldLoop_decreases cur
                      (proj2 (Nat.ltb_lt _ _) Hlong)).
    rewrite <- (firstn_skipn (findCut cur 75) cur) in Hcur.
    apply Forall_app in Hcur. destruct Hcur as [Hfirst Hskip].
    constructor; [exact Hfirst|].
    apply (IH _ Hdec). constructor; assumption.
Qed.

(** Unfolding the joined pieces of folded lines gives the lines, joined. *)
Lemma unfold_groups (groups : list (list jstring)) :
  Forall wellFolded groups ->
  unfold (join CRLF (List.concat groups)) = join CRLF (map unfoldPieces groups).
Proof.
  induction groups as [|g rest IH]; intros Hall; [reflexivity|].
  pose proof (Forall_inv Hall) as (p & ps & -> & Hcrlf & Hcont & Hsp).
  pose proof (Forall_inv_tail Hall) as Hrest.
  pose proof (Forall_inv Hcrlf) as Hp. cbv beta in Hp.
  pose proof (Forall_inv_tail Hcrlf) as Hps.
  cbn [List.concat map app].
  assert (Hnext : startsWith SP (join CRLF (List.concat rest)) = false).
  { destruct rest as [|g' rest']; [reflexivity|].
    pose proof (Forall_inv Hrest) as (p' & ps' & -> & _ & _ & Hsp').
    cbn [List.concat app]. now apply join_CRLF_startsWith_SP. }
  rewrite (@unfold_pieces ps p _ Hp Hps Hcont Hnext).
  rewrite (IH Hrest). cbn [unfoldPieces].
  destruct rest as [|g' rest']; [cbn; apply app_nil_r|].
  pose proof (Forall_inv Hrest) as (p' & ps' & -> & _).
  reflexivity.
Qed.

Lemma foldLoop_wellFolded (line : jstring) :
  containsCRLF line = false -> startsWith SP line = false ->
  wellFolded (foldLoop line []).
Proof.
  intros Hcrlf Hsp.
  destruct (foldLoop_pieces line)
    as (p & ps & Hfold & _ & Hcont & Hfirst & _ & Hnocrlf).
  exists p, ps. split; [exact Hfold|]. split; [auto|]. split; [exact Hcont|].
  destruct p as [|c p]; [reflexivity|].
  destruct line as [|c' line]; [discriminate|].
  cbn in Hfirst. injection Hfirst as ->. exact Hsp.
Qed.

Lemma foldLoop_unfoldPieces (line : jstring) :
  unfoldPieces (foldLoop line []) = line.
Proof.
  destruct (foldLoop_pieces line) as (p & ps & -> & _ & _ & _ & Hunfold & _).
  exact Hunfold.
Qed.

(** [split("\r\n")] and [join("\r\n")] are inverse to each other, and no
    line of the split holds a line break. *)
Lemma list_ind2 {A} (P : list A -> Prop) :
  P [] -> (forall a, P [a]) ->
  (forall a b l, P l -> P (b :: l) -> P (a :: b :: l)) ->
  forall l, P l.
Proof.
  intros H0 H1 H2.
  assert (Hboth : forall l, P l /\ forall a, P (a :: l)).
  { induction l as [|b l [IHl IHbl]]; [split; auto|].
    split; [apply IHbl|]. intros a. apply H2; auto. }
  intros l. apply Hboth.
Qed.

Lemma split_CRLF_step (c d : N) (rest : jstring) :
  split_CRLF (c :: d :: rest)
  = if ((c =? CR) && (d =? LF))%N then [] :: split_CRLF rest
    else match split_CRLF (d :: rest) with
         | l :: ls => (c :: l) :: ls
         | [] => [[c]]
         end.
Proof. reflexivity. Qed.

Lemma split_CRLF_nonempty (text : jstring) : split_CRLF text <> [].
Proof.
  induction text as [| |c d rest IHrest IHd] using list_ind2;
    try discriminate.
  rewrite split_CRLF_step. destruct ((c =? CR) && (d =? LF))%N;
    [discriminate|].
  destruct (split_CRLF (d :: rest)); discriminate.
Qed.

Lemma join_split_CRLF (text : jstring) : join CRLF (split_CRLF text) = text.
Proof.
  induction text as [| |c d rest IHrest IHd] using list_ind2;
    try reflexivity.
  rewrite split_CRLF_step.
  destruct ((c =? CR) && (d =? LF))%N eqn:E.
  - apply andb_true_iff in E. destruct E as [Ec Ed].
    apply N.eqb_eq in Ec, Ed. subst c d.
    destruct (split_CRLF rest) as [|l ls] eqn:Hs;
      [exfalso; exact (split_CRLF_nonempty _ Hs)|].
    rewrite join_cons_cons, IHrest. reflexivity.
  - destruct (split_CRLF (d :: rest)) as [|l ls] eqn:Hs;
      [exfalso; exact (split_CRLF_nonempty _ Hs)|].
    rewrite join_head_cons, IHd. reflexivity.
Qed.

Lemma split_CRLF_head (c : N) (t : jstring) :
  exists l ls,
    split_CRLF (c :: t) = l :: ls /\ (l = [] \/ exists l', l = c :: l').
Proof.
  destruct t as [|d rest]; [exists [c], []; split; eauto|].
  rewrite split_CRLF_step. destruct ((c =? CR) && (d =? LF))%N.
  - eexists _, _. split; [reflexivity | auto].
  - destruct (split_CRLF (d :: rest)); eexists _, _;
      (split; [reflexivity | eauto]).
Qed.

Lemma split_CRLF_lines (text : jstring) :
  Forall (fun l => containsCRLF l = false) (split_CRLF text).
Proof.
  induction text as [| |c d rest IHrest IHd] using list_ind2.
  - repeat constructor.
  - repeat constructor.
  - rewrite split_CRLF_step.
    destruct ((c =? CR) && (d =? LF))%N eqn:E; [constructor; auto|].
    destruct (split_CRLF_head d rest) as (l & ls & Hs & Hl).
    rewrite Hs in IHd |- *. inversion IHd as [|? ? Hhead Htail]; subst.
    constructor; [|exact Htail].
    destruct Hl as [-> | [l' ->]]; [reflexivity|].
    cbn [containsCRLF]. cbn [containsCRLF] in Hhead.
    now rewrite E, Hhead.
Qed.

Lemma split_CRLF_Forall (P : N -> Prop) (text : jstring) :
  Forall P text -> Forall (Forall P) (split_CRLF text).
Proof.
  induction text as [| |c d rest IHrest IHd] using list_ind2; intros Hall.
  - repeat constructor.
  - repeat constructor. exact (Forall_inv Hall).
  - rewrite split_CRLF_step.
    pose proof (Forall_inv Hall) as Hc. cbv beta in Hc.
    pose proof (Forall_inv_tail Hall) as Hd.
    destruct ((c =? CR) && (d =? LF))%N.
    + constructor; [constructor|]. apply IHrest. exact (Forall_inv_tail Hd).
    + specialize (IHd Hd).
      destruct (split_CRLF (d :: rest)) as [|l ls];
        [repeat constructor; exact Hc|].
      constructor; [|exact (Forall_inv_tail IHd)].
      constructor; [exact Hc | exact (Forall_inv IHd)].
Qed.

(** Folding is undone by unfolding, on every text none of whose lines
    begins with a space (as a code-unit string). *)
Lemma unfold_foldLines (text : jstring) :
  Forall (fun l => startsWith SP l = false) (split_CRLF text) ->
  unfold (foldLines text) = text.
Proof.
  intros Hsp. unfold foldLines.
  rewrite foldedLines_flat_map, flat_map_concat_map.
  rewrite unfold_groups.
  - rewrite map_map.
    rewrite (map_ext _ (fun l => l) foldLoop_unfoldPieces), map_id.
    apply join_split_CRLF.
  - apply Forall_map.
    pose proof (split_CRLF_lines text) as Hcrlf.
    induction (split_CRLF text) as [|line lines IH]; [constructor|].
    constructor.
    + apply foldLoop_wellFolded;
        [exact (Forall_inv Hcrlf) | exact (Forall_inv Hsp)].
    + apply IH; [exact (Forall_inv_tail Hsp) | exact (Forall_inv_tail Hcrlf)].
Qed.

(** *** Folding and the octets on the wire *)

Lemma utf8_cons (c : N) (s : jstring) :
  notSurrogate c -> utf8 (c :: s) = utf8_codepoint c ++ utf8 s.
Proof. intros [Hh Hl]. cbn [utf8]. now rewrite Hh, Hl. Qed.

Lemma utf8_app (a b : jstring) :
  Forall notSurrogate a -> utf8 (a ++ b) = utf8 a ++ utf8 b.
Proof.
  induction 1 as [|c a Hc _ IH]; [reflexivity|].
  cbn [app]. rewrite !utf8_cons by assumption.
  now rewrite IH, app_assoc.
Qed.

Lemma notSurrogate_CRLF : Forall notSurrogate CRLF.
Proof. repeat constructor. Qed.

Lemma notSurrogate_SP : notSurrogate SP.
Proof. split; reflexivity. Qed.

Lemma utf8_join (parts : list jstring) :
  Forall (Forall notSurrogate) parts ->
  utf8 (join CRLF parts) = join CRLF (map utf8 parts).
Proof.
  induction parts as [|p parts IH]; intros Hall; [reflexivity|].
  pose proof (Forall_inv Hall) as Hp. cbv beta in Hp.
  pose proof (Forall_inv_tail Hall) as Hparts.
  destruct parts as [|q parts]; [reflexivity|].
  rewrite join_cons_cons. cbn [map]. rewrite join_cons_cons.
  rewrite utf8_app by exact Hp.
  rewrite utf8_app by exact notSurrogate_CRLF.
  now rewrite (IH Hparts).
Qed.

(** A code unit below 128 is its own octet; the octets of any other have
    their high bit set. *)
Lemma utf8_codepoint_cases (c : N) :
  ((c < 128)%N /\ utf8_codepoint c = [c])
  \/ ((128 <= c)%N
      /\ exists b bs, utf8_codepoint c = b :: bs
                      /\ Forall highOctet (b :: bs)).
Proof.
  unfold utf8_codepoint.
  destruct (c <? 128)%N eqn:E1; [left; apply N.ltb_lt in E1; auto|].
  apply N.ltb_ge in E1. right. split; [exact E1|].
  destruct (c <? 2048)%N; [|destruct (c <? 65536)%N];
    eexists _, _; (split; [reflexivity|]);
    repeat constructor; unfold highOctet; rewrite N.lor_spec; reflexivity.
Qed.

Lemma highOctet_neq (b x : N) :
  highOctet b -> N.testbit x 7 = false -> (b =? x)%N = false.
Proof.
  unfold highOctet. intros Hb Hx. apply N.eqb_neq. intros ->. congruence.
Qed.

Lemma startsWith_utf8 (x : N) (p : jstring) :
  (x < 128)%N -> N.testbit x 7 = false ->
  Forall notSurrogate p -> startsWith x (utf8 p) = startsWith x p.
Proof.
  intros Hx Hbit Hp. destruct Hp as [|c p Hc Hp]; [reflexivity|].
  rewrite utf8_cons by exact Hc. cbn [startsWith].
  destruct (utf8_codepoint_cases c) as [[_ ->] | (Hc128 & b & bs & -> & Hhigh)];
    [reflexivity|].
  cbn [app startsWith]. rewrite (@highOctet_neq b x (Forall_inv Hhigh) Hbit).
  symmetry. apply N.eqb_neq. lia.
Qed.

Lemma containsCRLF_cons (c : N) (t : jstring) :
  containsCRLF (c :: t)
  = ((c =? CR)%N && startsWith LF t) || containsCRLF t.
Proof.
  destruct t as [|d t]; [cbn; now rewrite andb_false_r | reflexivity].
Qed.

Lemma containsCRLF_high (bs s : jstring) :
  Forall highOctet bs -> containsCRLF (bs ++ s) = containsCRLF s.
Proof.
  induction 1 as [|b bs Hb _ IH]; [reflexivity|].
  cbn [app]. rewrite containsCRLF_cons, IH.
  now rewrite (@highOctet_neq b CR Hb eq_refl).
Qed.

Lemma containsCRLF_utf8 (p : jstring) :
  Forall notSurrogate p -> containsCRLF (utf8 p) = containsCRLF p.
Proof.
  induction 1 as [|c p Hc Hp IH]; [reflexivity|].
  rewrite utf8_cons by exact Hc. rewrite (containsCRLF_cons c p).
  destruct (utf8_codepoint_cases c) as [[_ ->] | (Hc128 & b & bs & -> & Hhigh)].
  - cbn [app]. rewrite containsCRLF_cons, IH.
    now rewrite (@startsWith_utf8 LF p eq_refl eq_refl Hp).
  - rewrite (@containsCRLF_high (b :: bs) (utf8 p) Hhigh), IH.
    replace (c =? CR)%N with false; [reflexivity|].
    symmetry. apply N.eqb_neq. unfold CR. lia.
Qed.

Lemma utf8_continuation (q : jstring) :
  continuation q -> continuation (utf8 q).
Proof.
  intros [r ->]. exists (utf8 r).
  now rewrite (@utf8_cons SP r notSurrogate_SP).
Qed.

Lemma flat_map_skipn_utf8 (ps : list jstring) :
  Forall (Forall notSurrogate) ps -> Forall continuation ps ->
  flat_map (skipn 1) (map utf8 ps) = utf8 (flat_map (skipn 1) ps).
Proof.
  induction ps as [|q ps IH]; intros Hps Hcont; [reflexivity|].
  pose proof (Forall_inv Hcont) as [r ->].
  pose proof (Forall_inv Hps) as Hq. cbv beta in Hq.
  cbn [map flat_map].
  rewrite (@utf8_cons SP r notSurrogate_SP).
  change (utf8_codepoint SP) with [SP]. cbn [app skipn].
  rewrite utf8_app by exact (Forall_inv_tail Hq).
  f_equal. exact (IH (Forall_inv_tail Hps) (Forall_inv_tail Hcont)).
Qed.

Lemma unfoldPieces_utf8 (p : jstring) (ps : list jstring) :
  Forall (Forall notSurrogate) (p :: ps) -> Forall continuation ps ->
  unfoldPieces (map utf8 (p :: ps)) = utf8 (unfoldPieces (p :: ps)).
Proof.
  intros Hall Hcont. cbn [map unfoldPieces].
  rewrite utf8_app by exact (Forall_inv Hall).
  now rewrite (flat_map_skipn_utf8 (Forall_inv_tail Hall) Hcont).
Qed.

Lemma wellFolded_utf8 (g : list jstring) :
  Forall (Forall notSurrogate) g -> wellFolded g -> wellFolded (map utf8 g).
Proof.
  intros Hall (p & ps & -> & Hcrlf & Hcont & Hsp).
  exists (utf8 p), (map utf8 ps). split; [reflexivity|].
  split; [|split].
  - change (utf8 p :: map utf8 ps) with (map utf8 (p :: ps)).
    apply Forall_map. revert Hcrlf Hall. generalize (p :: ps).
    induction l as [|x l IH]; intros Hcrlf Hall; constructor.
    + rewrite containsCRLF_utf8 by exact (Forall_inv Hall).
      exact (Forall_inv Hcrlf).
    + apply IH; [exact (Forall_inv_tail Hcrlf) | exact (Forall_inv_tail Hall)].
  - apply Forall_map. revert Hcont. apply Forall_impl.
    exact utf8_continuation.
  - rewrite (@startsWith_utf8 SP p eq_refl eq_refl (Forall_inv Hall)).
    exact Hsp.
Qed.

(** On a text without surrogate code units, none of whose lines begins
    with a space, the octets sent unfold to the octets of the text: the
    folding then cuts between characters only. *)
Lemma unfold_utf8_foldLines (text : jstring) :
  Forall notSurrogate text ->
  Forall (fun l => startsWith SP l = false) (split_CRLF text) ->
  unfold (utf8 (foldLines text)) = utf8 text.
Proof.
  intros Hbmp Hsp.
  pose proof (split_CRLF_lines text) as Hcrlf.
  pose proof (@split_CRLF_Forall notSurrogate text Hbmp) as Hlines.
  rewrite <- (join_split_CRLF text) at 2.
  rewrite (@utf8_join _ Hlines).
  unfold foldLines. rewrite foldedLines_flat_map, flat_map_concat_map.
  set (groups := map (fun line => foldLoop line []) (split_CRLF text)).
  assert (Hgroups : Forall (fun g => Forall (Forall notSurrogate) g
                                     /\ wellFolded g) groups).
  { subst groups. apply Forall_map.
    induction (split_CRLF text) as [|line lines IH]; [constructor|].
    constructor.
    - split.
      + apply foldLoop_Forall;
          [exact notSurrogate_SP | exact (Forall_inv Hlines)].
      + apply foldLoop_wellFolded;
          [exact (Forall_inv Hcrlf) | exact (Forall_inv Hsp)].
    - apply IH; [exact (Forall_inv_tail Hsp) | exact (Forall_inv_tail Hcrlf)
                 | exact (Forall_inv_tail Hlines)]. }
  rewrite utf8_join.
  - rewrite concat_map, unfold_groups.
    + rewrite map_map. f_equal. subst groups. rewrite map_map.
      apply map_ext_in. intros line Hline.
      destruct (foldLoop_pieces line)
        as (p & ps & Hfold & _ & Hcont & _ & Hunfold & _).
      rewrite Hfold. rewrite unfoldPieces_utf8.
      * now rewrite Hunfold.
      * rewrite <- Hfold. apply foldLoop_Forall; [exact notSurrogate_SP|].
        rewrite Forall_forall in Hlines. exact (Hlines line Hline).
      * exact Hcont.
    + apply Forall_map. revert Hgroups. apply Forall_impl.
      intros g [Hg Hwf]. now apply wellFolded_utf8.
  - apply Forall_concat. revert Hgroups. apply Forall_impl. tauto.
Qed.

(** C5 on [summary_with_emoji]: the line has 79 octets and is folded
    between the two halves of the surrogate pair; both output lines are
    within 75 octets, but on the wire each half becomes U+FFFD (EF BF BD)
    and the four octets F0 9F 98 80 of the character are gone, so that
    unfolding the octets does not give the octets of the input back. *)
Theorem foldLines_splits_surrogate_pair :
  byteLength summary_with_emoji = 79%nat
  /\ foldLines summary_with_emoji
     = (js "SUMMARY:" ++ repeat 120%N 64 ++ [55357%N])
         ++ CRLF ++ SP :: 56832%N :: js " #7"
  /\ utf8 summary_with_emoji
     = map N_of_ascii (list_ascii_of_string "SUMMARY:") ++ repeat 120%N 64
         ++ [240; 159; 152; 128]%N ++ [32; 35; 55]%N
  /\ unfold (utf8 (foldLines summary_with_emoji))
     = map N_of_ascii (list_ascii_of_string "SUMMARY:") ++ repeat 120%N 64
         ++ [239; 191; 189; 239; 191; 189]%N ++ [32; 35; 55]%N
  /\ unfold (utf8 (foldLines summary_with_emoji)) <> utf8 summary_with_emoji
  /\ unfold (foldLines summary_with_emoji) = summary_with_emoji.
Proof.
  split; [vm_compute; reflexivity|].
  split; [vm_compute; reflexivity|].
  split; [vm_compute; reflexivity|].
  split; [vm_compute; reflexivity|].
  split; [|vm_compute; reflexivity].
  apply jstring_eqb_false. vm_compute. reflexivity.
Qed.

(** The feed of a job named with 64 letters and that emoji holds these two
    lines. *)
Example calendar_ics_splits_emoji :
  exists body etag,
    fst (calendar_ics isoParse config_default (world_quiet T0 [job_emoji])
           request_timed state_empty)
    = Success body etag
    /\ In (js "SUMMARY:" ++ repeat 120%N 64 ++ [55357%N]) (split_CRLF body)
    /\ In (SP :: 56832%N :: js " #7") (split_CRLF body).
Proof.
  eexists _, _. split; [vm_compute; reflexivity|].
  vm_compute. intuition auto.
Qed.

(* ------------------------------------------------------------------ *)
(** *** The lines of the folded text *)

(** A line without a break followed by a break: [split] cuts there. *)
Lemma split_CRLF_app (p s : jstring) :
  containsCRLF p = false -> split_CRLF (p ++ CRLF ++ s) = p :: split_CRLF s.
Proof.
  induction p as [|c p IH]; intros Hp.
  - reflexivity.
  - cbn [app]. specialize (IH (containsCRLF_tail _ _ Hp)).
    destruct p as [|d p'].
    + cbn [app] in *. change (CRLF ++ s) with (CR :: LF :: s) in *.
      rewrite split_CRLF_step.
      replace ((c =? CR) && (CR =? LF))%N with false
        by (now rewrite andb_false_r).
      now rewrite IH.
    + cbn [app] in *. rewrite split_CRLF_step.
      cbn [containsCRLF] in Hp. apply orb_false_iff in Hp.
      rewrite (proj1 Hp). now rewrite IH.
Qed.

Lemma split_CRLF_line (p : jstring) :
  containsCRLF p = false -> split_CRLF p = [p].
Proof.
  induction p as [| |c d rest IHrest IHd] using list_ind2; intros Hp;
    try reflexivity.
  rewrite split_CRLF_step.
  pose proof Hp as Hp'. cbn [containsCRLF] in Hp'.
  apply orb_false_iff in Hp'. rewrite (proj1 Hp').
  now rewrite (IHd (containsCRLF_tail _ _ Hp)).
Qed.

(** [split] undoes [join] on lines that hold no break. *)
Lemma split_join_CRLF (ps : list jstring) :
  ps <> [] -> Forall (fun l => containsCRLF l = false) ps ->
  split_CRLF (join CRLF ps) = ps.
Proof.
  induction ps as [|p ps IH]; intros Hne Hall; [congruence|].
  pose proof (Forall_inv Hall) as Hp. cbv beta in Hp.
  destruct ps as [|q ps].
  - now apply split_CRLF_line.
  - rewrite join_cons_cons, split_CRLF_app by exact Hp.
    f_equal. apply IH; [discriminate | exact (Forall_inv_tail Hall)].
Qed.

Lemma foldedLines_nonempty (text : jstring) : foldedLines text <> [].
Proof.
  rewrite foldedLines_flat_map.
  destruct (split_CRLF text) as [|l ls] eqn:E;
    [exfalso; exact (split_CRLF_nonempty _ E)|].
  cbn [flat_map]. destruct (foldLoop_pieces l) as (p & ps & -> & _).
  discriminate.
Qed.

Lemma foldedLines_noCRLF (text : jstring) :
  Forall (fun l => containsCRLF l = false) (foldedLines text).
Proof.
  rewrite foldedLines_flat_map.
  pose proof (split_CRLF_lines text) as Hl.
  induction (split_CRLF text) as [|line lines IH]; [constructor|].
  cbn [flat_map]. apply Forall_app. split.
  - destruct (foldLoop_pieces line) as (p & ps & -> & _ & _ & _ & _ & H).
    apply H. exact (Forall_inv Hl).
  - apply IH. exact (Forall_inv_tail Hl).
Qed.

(** The lines a reader finds in the folded text are the lines pushed. *)
Lemma split_CRLF_foldLines (text : jstring) :
  split_CRLF (foldLines text) = foldedLines text.
Proof.
  unfold foldLines.
  apply split_join_CRLF; [apply foldedLines_nonempty | apply foldedLines_noCRLF].
Qed.

Lemma foldedLines_short (text : jstring) :
  Forall (fun l => (byteLength l <= 75)%nat) (split_CRLF text) ->
  foldedLines text = split_CRLF text.
Proof.
  rewrite foldedLines_flat_map.
  induction (split_CRLF text) as [|line lines IH]; intros Hall; [reflexivity|].
  cbn [flat_map].
  rewrite (@foldLoop_short line [] (Forall_inv Hall)).
  cbn [app]. f_equal. apply IH. exact (Forall_inv_tail Hall).
Qed.

Lemma foldLines_short_lines (text : jstring) :
  Forall (fun l => (byteLength l <= 75)%nat) (split_CRLF text) ->
  foldLines text = text.
Proof.
  intros Hall. unfold foldLines. rewrite (foldedLines_short _ Hall).
  apply join_split_CRLF.
Qed.

Lemma foldLines_twice (text : jstring) :
  foldLines (foldLines text) = foldLines text.
Proof.
  apply foldLines_short_lines. rewrite split_CRLF_foldLines.
  apply foldedLines_octets.
Qed.

Lemma split_CRLF_snoc (s : jstring) :
  split_CRLF (s ++ CRLF) = split_CRLF s ++ [[]].
Proof.
  induction s as [| |a b l IHl IHb] using list_ind2.
  - reflexivity.
  - change ([a] ++ CRLF) with (a :: CR :: [LF]).
    rewrite split_CRLF_step.
    replace ((a =? CR) && (CR =? LF))%N with false
      by (now rewrite andb_false_r).
    reflexivity.
  - change ((a :: b :: l) ++ CRLF) with (a :: b :: (l ++ CRLF)).
    rewrite !split_CRLF_step.
    destruct ((a =? CR) && (b =? LF))%N.
    + now rewrite IHl.
    + change (b :: l ++ CRLF) with ((b :: l) ++ CRLF). rewrite IHb.
      destruct (split_CRLF (b :: l)) as [|l0 ls] eqn:E;
        [exfalso; exact (split_CRLF_nonempty _ E)|].
      reflexivity.
Qed.

Lemma join_snoc_nil (ps : list jstring) :
  ps <> [] -> join CRLF (ps ++ [[]]) = join CRLF ps ++ CRLF.
Proof.
  induction ps as [|p ps IH]; intros Hne; [congruence|].
  destruct ps as [|q ps].
  - cbn. reflexivity.
  - change ((p :: q :: ps) ++ [[]]) with (p :: q :: (ps ++ [[]])).
    rewrite !join_cons_cons.
    change (q :: ps ++ [[]]) with ((q :: ps) ++ [[]]).
    rewrite IH by discriminate. now rewrite <- !app_assoc.
Qed.

(** Folding goes through a final line break. *)
Lemma foldLines_snoc (s : jstring) :
  foldLines (s ++ CRLF) = foldLines s ++ CRLF.
Proof.
  unfold foldLines. rewrite !foldedLines_flat_map, split_CRLF_snoc.
  rewrite flat_map_app. cbn [flat_map].
  rewrite (@foldLoop_short [] [] (Nat.le_0_l _)). cbn [app].
  rewrite <- foldedLines_flat_map.
  apply join_snoc_nil, foldedLines_nonempty.
Qed.

Lemma endsWith_CRLF_app (s : jstring) : endsWith_CRLF (s ++ CRLF) = true.
Proof. unfold endsWith_CRLF. rewrite rev_app_distr. reflexivity. Qed.

Lemma endsWith_CRLF_inv (s : jstring) :
  endsWith_CRLF s = true -> exists p, s = p ++ CRLF.
Proof.
  unfold endsWith_CRLF. intros H.
  destruct (rev s) as [|l [|c r]] eqn:E; try discriminate.
  apply andb_true_iff in H. destruct H as [Hc Hl].
  apply N.eqb_eq in Hc, Hl. subst.
  exists (rev r). rewrite <- (rev_involutive s), E. cbn [rev].
  now rewrite <- app_assoc.
Qed.

(** [finalizeIcs] folds a text that ends with a line break, and the break
    stays at the end. *)
Lemma finalizeIcs_shape (ics : jstring) :
  exists s, finalizeIcs ics = foldLines s ++ CRLF
            /\ (if endsWith_CRLF ics then ics else ics ++ CRLF) = s ++ CRLF.
Proof.
  unfold finalizeIcs.
  destruct (endsWith_CRLF ics) eqn:E.
  - destruct (endsWith_CRLF_inv _ E) as [p ->].
    exists p. split; [apply foldLines_snoc | reflexivity].
  - exists ics. split; [apply foldLines_snoc | reflexivity].
Qed.

Lemma finalizeIcs_endsWith (ics : jstring) :
  endsWith_CRLF (finalizeIcs ics) = true.
Proof.
  destruct (finalizeIcs_shape ics) as (s & -> & _). apply endsWith_CRLF_app.
Qed.

(** What [finalizeIcs] returns ends with a line break and has no line of
    more than 75 octets. *)
Lemma finalizeIcs_document (ics : jstring) :
  endsWith_CRLF (finalizeIcs ics) = true
  /\ Forall (fun l => (byteLength l <= 75)%nat) (split_CRLF (finalizeIcs ics)).
Proof.
  split; [apply finalizeIcs_endsWith|].
  unfold finalizeIcs. rewrite split_CRLF_foldLines. apply foldedLines_octets.
Qed.

(** X1: for every text, the lines of what [foldLines] returns (the pieces
    between its line breaks) are exactly the lines the function pushed, none
    of them is longer than 75 octets in UTF-8, and folding the result again
    changes nothing. *)
Theorem foldLines_output_lines :
  forall text : jstring,
    split_CRLF (foldLines text) = foldedLines text
    /\ Forall (fun l => (byteLength l <= 75)%nat) (split_CRLF (foldLines text))
    /\ foldLines (foldLines text) = foldLines text.
Proof.
  intros text. split; [apply split_CRLF_foldLines|].
  split; [rewrite split_CRLF_foldLines; apply foldedLines_octets|].
  apply foldLines_twice.
Qed.

(** X2: a text none of whose lines exceeds 75 octets is returned by
    [foldLines] as it is. *)
Theorem foldLines_keeps_short_lines :
  forall text : jstring,
    Forall (fun l => (byteLength l <= 75)%nat) (split_CRLF text) ->
    foldLines text = text.
Proof. exact foldLines_short_lines. Qed.

Lemma foldLines_keeps_short_lines_witness : foldLines text_short = text_short.
Proof.
  apply (@foldLines_keeps_short_lines text_short).
  apply Forall_forall. intros l Hl. vm_compute in Hl.
  destruct Hl as [<-|[<-|[<-|[]]]]; apply Nat.leb_le; vm_compute; reflexivity.
Defined.

(** X3: on a text none of whose lines begins with a space, removing every
    line break that is followed by a space from the folded text gives the
    text back, code unit for code unit. *)
Theorem foldLines_unfolds_to_text :
  forall text : jstring,
    Forall (fun l => startsWith SP l = false) (split_CRLF text) ->
    unfold (foldLines text) = text.
Proof. exact unfold_foldLines. Qed.

Lemma foldLines_unfolds_to_text_witness :
  unfold (foldLines text_accented) = text_accented.
Proof.
  apply (@foldLines_unfolds_to_text text_accented).
  apply Forall_forall. intros l Hl. vm_compute in Hl.
  destruct Hl as [<-|[<-|[]]]; reflexivity.
Defined.

Lemma Forall_notSurrogate (s : jstring) :
  forallb (fun c => negb (isHighSurrogate c) && negb (isLowSurrogate c)) s
  = true ->
  Forall notSurrogate s.
Proof.
  intros H. apply Forall_forall. intros c Hc.
  rewrite forallb_forall in H. specialize (H c Hc).
  apply andb_true_iff in H. destruct H as [Hh Hl].
  split; [now apply negb_true_iff in Hh | now apply negb_true_iff in Hl].
Qed.

(** X4: on a text without surrogate code units none of whose lines begins
    with a space, the octets of the folded text, with every line break that
    is followed by a space removed, are the octets of the text: there the
    folding cuts between characters only. *)
Theorem foldLines_unfolds_to_octets :
  forall text : jstring,
    Forall notSurrogate text ->
    Forall (fun l => startsWith SP l = false) (split_CRLF text) ->
    unfold (utf8 (foldLines text)) = utf8 text.
Proof. exact unfold_utf8_foldLines. Qed.

Lemma foldLines_unfolds_to_octets_witness :
  unfold (utf8 (foldLines text_accented)) = utf8 text_accented.
Proof.
  apply (@foldLines_unfolds_to_octets text_accented).
  - apply Forall_notSurrogate. vm_compute. reflexivity.
  - apply Forall_forall. intros l Hl. vm_compute in Hl.
    destruct Hl as [<-|[<-|[]]]; reflexivity.
Defined.

(** X5: whatever the text, what [finalizeIcs] returns ends with a line
    break, and [finalizeIcs] changes nothing in a text it has returned. *)
Theorem finalizeIcs_terminated :
  forall ics : jstring,
    endsWith_CRLF (finalizeIcs ics) = true
    /\ finalizeIcs (finalizeIcs ics) = finalizeIcs ics.
Proof.
  intros ics. pose proof (finalizeIcs_endsWith ics) as He.
  split; [exact He|].
  unfold finalizeIcs at 1. rewrite He.
  unfold finalizeIcs. apply foldLines_twice.
Qed.

(** X6: when a line is longer than 75 octets, the search for the cut in
    [foldLines] stops between 18 and 75 code units: the piece pushed is not
    empty and fits in 75 octets, and what is left for the next turn of the
    loop, the added space included, is shorter than the line. *)
Theorem findCut_progress :
  forall cur : jstring,
    (75 < byteLength cur)%nat ->
    (18 <= findCut cur 75 <= 75)%nat
    /\ (findCut cur 75 < List.length cur)%nat
    /\ (byteLength (firstn (findCut cur 75) cur) <= 75)%nat
    /\ (List.length (SP :: skipn (findCut cur 75) cur) < List.length cur)%nat.
Proof.
  intros cur Hlong.
  split; [split; [apply findCut_ge; lia | apply findCut_le]|].
  split; [now apply findCut_lt_length|].
  split; [apply findCut_octets|].
  apply foldLoop_decreases. now apply Nat.ltb_lt.
Qed.

Lemma findCut_progress_witness :
  (18 <= findCut (repeat 233%N 70) 75 <= 75)%nat
  /\ (findCut (repeat 233%N 70) 75 < List.length (repeat 233%N 70))%nat
  /\ (byteLength (firstn (findCut (repeat 233%N 70) 75) (repeat 233%N 70))
      <= 75)%nat
  /\ (List.length (SP :: skipn (findCut (repeat 233%N 70) 75)
                                (repeat 233%N 70))
      < List.length (repeat 233%N 70))%nat.
Proof.
  apply (@findCut_progress (repeat 233%N 70)).
  apply Nat.ltb_lt. vm_compute. reflexivity.
Defined.

(* ------------------------------------------------------------------ *)
(** *** Escaping *)

Lemma not_In_literal (x : N) (s : jstring) :
  forallb (fun c => negb (c =? x)%N) s = true -> ~ In x s.
Proof.
  intros H Hin. rewrite forallb_forall in H. specialize (H _ Hin).
  now rewrite N.eqb_refl in H.
Qed.

Lemma In_app_not {A} (x : A) (a b : list A) :
  ~ In x a -> ~ In x b -> ~ In x (a ++ b).
Proof. intros Ha Hb Hin. apply in_app_or in Hin. tauto. Qed.

(** The two replacements of [icsEscape], unit by unit. *)
Lemma icsEscape_flat_map (s : jstring) :
  icsEscape (JStr s) = flat_map escapeUnit s.
Proof.
  unfold icsEscape.
  assert (H : ToString (JStr s ||| JStr []) = s)
    by (destruct s; reflexivity).
  rewrite H. clear H.
  induction s as [|c s IH]; [reflexivity|].
  cbn [flat_map]. rewrite flat_map_app, IH. f_equal.
  unfold escapeUnit.
  destruct ((c =? 44) || (c =? 59))%N eqn:E.
  - cbn [flat_map app].
    assert (Hc : (c =? 10)%N = false).
    { apply orb_true_iff in E. destruct E as [E|E]; apply N.eqb_eq in E;
        subst c; reflexivity. }
    rewrite Hc. reflexivity.
  - cbn [flat_map app]. destruct (c =? 10)%N; reflexivity.
Qed.

Lemma icsEscape_falsy (v : jsval) : truthy v = false -> icsEscape v = [].
Proof.
  intros H. unfold icsEscape. rewrite (@jor_falsy_l _ _ H). reflexivity.
Qed.

Lemma icsEscape_ToString (v : jsval) :
  icsEscape v = flat_map escapeUnit (if truthy v then ToString v else []).
Proof.
  destruct (truthy v) eqn:E.
  - rewrite <- icsEscape_flat_map. unfold icsEscape.
    rewrite (@jor_truthy_l _ _ E).
    replace (ToString (JStr (ToString v) ||| JStr [])) with (ToString v);
      [reflexivity|].
    destruct (ToString v); reflexivity.
  - now rewrite icsEscape_falsy.
Qed.

Lemma escapeUnit_no_LF (c : N) : ~ In LF (escapeUnit c).
Proof.
  unfold escapeUnit.
  destruct ((c =? 44) || (c =? 59))%N eqn:E.
  - apply orb_true_iff in E.
    intros [H|[H|[]]]; [discriminate|].
    subst c. destruct E; discriminate.
  - destruct (c =? 10)%N eqn:E10.
    + intros [H|[H|[]]]; discriminate.
    + intros [H|[]]. subst c. discriminate.
Qed.

Lemma icsEscape_no_LF (v : jsval) : ~ In LF (icsEscape v).
Proof.
  rewrite icsEscape_ToString. intros Hin. apply in_flat_map in Hin.
  destruct Hin as (c & _ & Hc). exact (escapeUnit_no_LF _ Hc).
Qed.

Lemma separatorsEscapedFrom_flat_map (s : jstring) :
  forall prev, separatorsEscapedFrom prev (flat_map escapeUnit s) = true.
Proof.
  induction s as [|c s IH]; intros prev; [reflexivity|].
  cbn [flat_map]. unfold escapeUnit at 1.
  destruct ((c =? 44) || (c =? 59))%N eqn:E.
  - cbn [app separatorsEscapedFrom]. rewrite E. cbn. apply IH.
  - destruct (c =? 10)%N eqn:E10; cbn [app separatorsEscapedFrom].
    + cbn. apply IH.
    + rewrite E. cbn. apply IH.
Qed.

(** Without a line feed there is no line break. *)
Lemma no_LF_noCRLF (s : jstring) : ~ In LF s -> containsCRLF s = false.
Proof.
  induction s as [|c s IH]; intros H; [reflexivity|].
  rewrite containsCRLF_cons. rewrite IH by (intros Hin; apply H; now right).
  destruct s as [|d s']; [now rewrite andb_false_r|].
  cbn [startsWith].
  replace (d =? LF)%N with false; [now rewrite andb_false_r|].
  symmetry. apply N.eqb_neq. intros ->. apply H. right. now left.
Qed.

(** X7: whatever the value, what [icsEscape] returns holds no line feed,
    hence no line break, and each of its commas and semicolons stands after
    a backslash.  A backslash of the value is copied as it is: a backslash
    followed by [n] and a line feed are written the same way. *)
Theorem icsEscape_never_breaks_line :
  forall v : jsval,
    ~ In LF (icsEscape v)
    /\ containsCRLF (icsEscape v) = false
    /\ separatorsEscaped (icsEscape v) = true
    /\ forall a b : jstring,
         icsEscape (JStr (a ++ [92; 110]%N ++ b))
         = icsEscape (JStr (a ++ [LF] ++ b)).
Proof.
  intros v. pose proof (icsEscape_no_LF v) as Hlf.
  split; [exact Hlf|]. split; [exact (no_LF_noCRLF _ Hlf)|].
  split.
  - rewrite icsEscape_ToString. apply separatorsEscapedFrom_flat_map.
  - intros a b. rewrite !icsEscape_flat_map, !flat_map_app. reflexivity.
Qed.

Lemma icsUnescape_escapeUnit (c : N) (rest : jstring) :
  c <> 92%N ->
  icsUnescape (escapeUnit c ++ rest) = c :: icsUnescape rest.
Proof.
  intros Hc. unfold escapeUnit.
  destruct ((c =? 44) || (c =? 59))%N eqn:E.
  - cbn [app icsUnescape]. cbn [N.eqb Pos.eqb]. rewrite E. reflexivity.
  - destruct (c =? 10)%N eqn:E10.
    + apply N.eqb_eq in E10. subst c. reflexivity.
    + cbn [app icsUnescape].
      apply N.eqb_neq in Hc. rewrite Hc. reflexivity.
Qed.

(** X8: a text without a backslash is read back from what [icsEscape]
    writes for it: unescaping the commas, semicolons and line feeds as
    RFC 5545 prescribes gives the text. *)
Theorem icsEscape_round_trip :
  forall s : jstring,
    ~ In 92%N s -> icsUnescape (icsEscape (JStr s)) = s.
Proof.
  intros s. rewrite icsEscape_flat_map.
  induction s as [|c s IH]; intros H; [reflexivity|].
  cbn [flat_map]. rewrite icsUnescape_escapeUnit.
  - f_equal. apply IH. intros Hin. apply H. now right.
  - intros ->. apply H. now left.
Qed.

Lemma icsEscape_round_trip_witness :
  icsUnescape (icsEscape (JStr text_specials)) = text_specials.
Proof.
  apply (@icsEscape_round_trip text_specials).
  apply not_In_literal. vm_compute. reflexivity.
Defined.

Example icsEscape_specials :
  icsEscape (JStr text_specials) = js "Cut\, weld\; paint\ndone".
Proof. vm_compute. reflexivity. Qed.

(* ------------------------------------------------------------------ *)
(** *** Dates written and read back *)

Lemma all_from_spec (P : Z -> bool) (fuel : nat) :
  forall i, all_from P fuel i = true ->
            forall v, i <= v < i + Z.of_nat fuel -> P v = true.
Proof.
  induction fuel as [|fuel IH]; intros i Hall v Hv; [lia|].
  cbn [all_from] in Hall. destruct (P i) eqn:E; [|discriminate].
  destruct (Z.eq_dec v i) as [->|Hne]; [exact E|].
  apply (IH (i + 1) Hall). lia.
Qed.

(** The 146097 days of an era, and the numbers of two, three and four
    digits, checked one by one. *)
Lemma civil_ok_era : all_from civil_ok (Z.to_nat 146097) 0 = true.
Proof. vm_compute. reflexivity. Qed.

Lemma digits_ok_2 : all_from (digits_ok 2) 100 0 = true.
Proof. vm_compute. reflexivity. Qed.

Lemma digits_ok_3 : all_from (digits_ok 3) 1000 0 = true.
Proof. vm_compute. reflexivity. Qed.

Lemma digits_ok_4 : all_from (digits_ok 4) (Z.to_nat 10000) 0 = true.
Proof. vm_compute. reflexivity. Qed.

Lemma digits_app (n : nat) :
  forall s acc v r rest,
    digits n s acc = Some (v, r) -> digits n (s ++ rest) acc = Some (v, r ++ rest).
Proof.
  induction n as [|n IH]; intros s acc v r rest H.
  - cbn in *. injection H as <- <-. reflexivity.
  - destruct s as [|c s]; [discriminate|].
    cbn [digits app] in *. destruct (digit c); [|discriminate].
    now apply IH.
Qed.

Lemma digits_padded (n : nat) (bound : nat) (v : Z) (rest : jstring) :
  all_from (digits_ok n) bound 0 = true ->
  0 <= v < Z.of_nat bound ->
  digits n (padStart0 n (Z_to_jstring v) ++ rest) 0 = Some (v, rest).
Proof.
  intros Hall Hv.
  pose proof (@all_from_spec _ _ _ Hall v ltac:(lia)) as Hok.
  unfold digits_ok in Hok.
  destruct (digits n (padStart0 n (Z_to_jstring v)) 0) as [[v' r]|] eqn:E;
    [|discriminate].
  destruct r; [|discriminate]. apply Z.eqb_eq in Hok. subst v'.
  exact (@digits_app _ _ _ _ _ rest E).
Qed.

Lemma digits_pad (v : Z) (rest : jstring) :
  0 <= v < 100 -> digits 2 (pad v ++ rest) 0 = Some (v, rest).
Proof. intros Hv. apply (@digits_padded 2 100 v rest digits_ok_2). lia. Qed.

(** The calendar repeats every 400 years, that is every 146097 days. *)
Lemma civil_from_days_era (z : Z) :
  civil_from_days z
  = let '(y, m, d) := civil_from_days ((z + 719468) mod 146097 - 719468) in
    (y + 400 * ((z + 719468) / 146097), m, d).
Proof.
  unfold civil_from_days. cbv zeta.
  set (doe := (z + 719468) mod 146097).
  set (era := (z + 719468) / 146097).
  assert (Hdoe : 0 <= doe < 146097) by (apply Z.mod_pos_bound; lia).
  replace (doe - 719468 + 719468) with doe by lia.
  rewrite (Z.div_small doe 146097) by lia.
  replace (z + 719468 - era * 146097) with doe
    by (unfold doe, era; rewrite Z.mod_eq by lia; lia).
  replace (doe - 0 * 146097) with doe by lia.
  set (yoe := (doe - doe / 1460 + doe / 36524 - doe / 146096) / 365).
  set (doy := doe - (365 * yoe + yoe / 4 - yoe / 100)).
  set (mp := (5 * doy + 2) / 153).
  destruct ((if mp <? 10 then mp + 3 else mp - 9) <=? 2); f_equal; f_equal; lia.
Qed.

Lemma isLeap_era (y k : Z) : isLeap (y + 400 * k) = isLeap y.
Proof.
  unfold isLeap.
  replace (y + 400 * k) with (y + (100 * k) * 4) at 1 by lia.
  replace (y + 400 * k) with (y + (4 * k) * 100) at 1 by lia.
  replace (y + 400 * k) with (y + k * 400) by lia.
  now rewrite !Z_mod_plus_full.
Qed.

Lemma daysInMonth_era (y m k : Z) :
  daysInMonth (y + 400 * k) m = daysInMonth y m.
Proof. unfold daysInMonth. now rewrite isLeap_era. Qed.

Lemma days_from_civil_era (y m d k : Z) :
  days_from_civil (y + 400 * k) m d = days_from_civil y m d + 146097 * k.
Proof.
  unfold days_from_civil. cbv zeta.
  set (y0 := if m <=? 2 then y - 1 else y).
  replace (if m <=? 2 then y + 400 * k - 1 else y + 400 * k)
    with (y0 + k * 400) by (unfold y0; destruct (m <=? 2); lia).
  rewrite Z.div_add by lia.
  replace (y0 + k * 400 - (y0 / 400 + k) * 400) with (y0 - y0 / 400 * 400)
    by lia.
  lia.
Qed.

(** Every day number is the day number of its date, and that date is a
    date of the calendar. *)
Lemma civil_from_days_ok (z : Z) :
  let '(y, m, d) := civil_from_days z in
  1 <= m <= 12 /\ 1 <= d <= daysInMonth y m /\ days_from_civil y m d = z.
Proof.
  rewrite civil_from_days_era.
  set (doe := (z + 719468) mod 146097).
  set (era := (z + 719468) / 146097).
  assert (Hdoe : 0 <= doe < 146097) by (apply Z.mod_pos_bound; lia).
  pose proof (@all_from_spec _ _ _ civil_ok_era doe ltac:(lia)) as Hok.
  unfold civil_ok in Hok.
  destruct (civil_from_days (doe - 719468)) as [[y m] d].
  rewrite !andb_true_iff in Hok.
  destruct Hok as ((((H1 & H2) & H3) & H4) & H5).
  rewrite daysInMonth_era, days_from_civil_era.
  apply Z.eqb_eq in H5.
  assert (z + 719468 = 146097 * era + doe)
    by (unfold era, doe; apply Z.div_mod; lia).
  lia.
Qed.

Lemma timeOfDay_parts (tw : Z) :
  0 <= tw < msPerDay ->
  0 <= tw / 3600000 < 24
  /\ 0 <= (tw / 60000) mod 60 < 60
  /\ 0 <= (tw / 1000) mod 60 < 60
  /\ 0 <= tw mod 1000 < 1000
  /\ tw / 3600000 * 3600000 + (tw / 60000) mod 60 * 60000
       + ((tw / 1000) mod 60 * 1000 + tw mod 1000) = tw.
Proof. unfold msPerDay. intros H. Z.div_mod_to_equations. lia. Qed.

Lemma daysInMonth_le (y m : Z) : daysInMonth y m <= 31.
Proof.
  unfold daysInMonth.
  repeat match goal with |- context [if ?b then _ else _] => destruct b end;
    lia.
Qed.

(** [isoParse] on a string of the form [toISOString] writes. *)
Lemma isoParse_fields (y m d h mi s ms : Z) :
  0 <= y < 10000 -> 1 <= m <= 12 -> 1 <= d <= daysInMonth y m ->
  0 <= h < 24 -> 0 <= mi < 60 -> 0 <= s < 60 -> 0 <= ms < 1000 ->
  isoParse (padStart0 4 (Z_to_jstring y) ++ js "-" ++ pad m ++ js "-"
              ++ pad d ++ js "T" ++ pad h ++ js ":" ++ pad mi ++ js ":"
              ++ pad s ++ js "." ++ padStart0 3 (Z_to_jstring ms) ++ js "Z")
  = Some (days_from_civil y m d * msPerDay
          + (h * 3600000 + mi * 60000 + (s * 1000 + ms))).
Proof.
  intros Hy Hm Hd Hh Hmi Hs Hms.
  pose proof (daysInMonth_le y m) as Hd31.
  unfold isoParse.
  change (js "-") with [45%N]. change (js "T") with [84%N].
  change (js ":") with [58%N]. change (js ".") with [46%N].
  change (js "Z") with [90%N].
  rewrite (@digits_padded 4 (Z.to_nat 10000) y _ digits_ok_4) by lia.
  cbn [obind app expect N.eqb Pos.eqb].
  rewrite digits_pad by lia. cbn [obind app expect N.eqb Pos.eqb].
  rewrite digits_pad by lia. cbn [obind app].
  replace ((1 <=? m) && (m <=? 12) && (1 <=? d) && (d <=? daysInMonth y m))
    with true
    by (symmetry; rewrite !andb_true_iff, !Z.leb_le; lia).
  unfold parseTimeOfDay.
  rewrite digits_pad by lia. cbn [obind app expect N.eqb Pos.eqb].
  rewrite digits_pad by lia. cbn [obind app parseSeconds].
  rewrite digits_pad by lia. cbn [obind app parseFraction].
  rewrite (@digits_padded 3 1000 ms _ digits_ok_3) by lia.
  cbn [obind].
  replace (s <=? 59) with true by (symmetry; apply Z.leb_le; lia).
  replace ((h <=? 23) && (mi <=? 59)) with true
    by (symmetry; rewrite andb_true_iff, !Z.leb_le; lia).
  reflexivity.
Qed.

(** In the years 0 to 9999, [isoParse] reads back what [toISOString]
    writes. *)
Lemma isoParse_toISOString (t : Z) :
  0 <= getUTCFullYear t <= 9999 -> isoParse (toISOString t) = Some t.
Proof.
  intros Hy. unfold toISOString.
  replace ((0 <=? getUTCFullYear t) && (getUTCFullYear t <=? 9999)) with true
    by (symmetry; rewrite andb_true_iff, !Z.leb_le; lia).
  unfold getUTCFullYear, getUTCMonth1, getUTCDate, getUTCHours, getUTCMinutes,
    getUTCSeconds, getUTCMilliseconds in *.
  pose proof (civil_from_days_ok (Day t)) as Hciv.
  destruct (civil_from_days (Day t)) as [[y m] d]. cbn [fst snd] in *.
  destruct Hciv as (Hm & Hd & Hback).
  assert (Htw : 0 <= TimeWithinDay t < msPerDay)
    by (apply Z.mod_pos_bound; reflexivity).
  destruct (@timeOfDay_parts _ Htw) as (Hh & Hmi & Hs & Hms & Hsum).
  rewrite isoParse_fields by lia.
  rewrite Hback, Hsum. f_equal. unfold Day, TimeWithinDay.
  pose proof (Z.div_mod t msPerDay ltac:(discriminate)). lia.
Qed.

(** A time value in the years 0 to 9999 is in the range of [Date]. *)
Lemma year_range_time (t : Z) :
  0 <= getUTCFullYear t <= 9999 -> Z.abs t <= maxTime.
Proof.
  unfold getUTCFullYear. intros Hy.
  pose proof (civil_from_days_ok (Day t)) as Hciv.
  destruct (civil_from_days (Day t)) as [[y m] d]. cbn [fst snd] in *.
  destruct Hciv as (Hm & Hd & Hback).
  pose proof (daysInMonth_le y m) as H31.
  assert (Hday : -800000 <= Day t <= 3000000).
  { rewrite <- Hback. unfold days_from_civil. cbv zeta.
    destruct (m <=? 2); destruct (2 <? m); Z.div_mod_to_equations; lia. }
  assert (Htw : 0 <= TimeWithinDay t < msPerDay)
    by (apply Z.mod_pos_bound; reflexivity).
  unfold Day, TimeWithinDay, maxTime, msPerDay in *.
  pose proof (Z.div_mod t 86400000 ltac:(discriminate)). lia.
Qed.

Lemma addDaysISO_isoParse (v : jsval) (n t : Z) :
  newDate isoParse v = Some t ->
  0 <= getUTCFullYear (t + n * msPerDay) <= 9999 ->
  addDaysISO isoParse v n = Ok (toISOString (t + n * msPerDay))
  /\ newDate isoParse (JStr (toISOString (t + n * msPerDay)))
     = Some (t + n * msPerDay).
Proof.
  intros Ht Hy. unfold addDaysISO. rewrite Ht. unfold TimeClip.
  pose proof (@year_range_time _ Hy) as Hr. apply Z.leb_le in Hr. rewrite Hr.
  split; [reflexivity|]. cbn [newDate]. now apply isoParse_toISOString.
Qed.

(** X9: with the parser [isoParse] for [Date.parse], when the date-like
    value is the time [t] and [t] moved by [n] days falls in the years 0 to
    9999, [addDaysISO] returns a string that reads back as exactly that
    time, [n] days of 86400000 ms after [t]; [yyyymmdd] of the string is
    the date of that time, and moving the string by [m] more days is moving
    [t] by [n + m] days. *)
Theorem addDaysISO_reads_back :
  forall (v : jsval) (n t : Z),
    newDate isoParse v = Some t ->
    0 <= getUTCFullYear (t + n * msPerDay) <= 9999 ->
    exists r,
      addDaysISO isoParse v n = Ok r
      /\ newDate isoParse (JStr r) = Some (t + n * msPerDay)
      /\ yyyymmdd isoParse (JStr r) = ymd (t + n * msPerDay)
      /\ forall m,
           0 <= getUTCFullYear (t + (n + m) * msPerDay) <= 9999 ->
           addDaysISO isoParse (JStr r) m = addDaysISO isoParse v (n + m).
Proof.
  intros v n t Ht Hy.
  destruct (@addDaysISO_isoParse v n t Ht Hy) as [Hadd Hback].
  exists (toISOString (t + n * msPerDay)).
  split; [exact Hadd|]. split; [exact Hback|].
  split; [unfold yyyymmdd; now rewrite Hback|].
  intros m Hm.
  assert (Hm' : 0 <= getUTCFullYear (t + n * msPerDay + m * msPerDay) <= 9999)
    by (replace (t + n * msPerDay + m * msPerDay)
          with (t + (n + m) * msPerDay) by lia; exact Hm).
  rewrite (proj1 (@addDaysISO_isoParse _ m _ Hback Hm')).
  rewrite (proj1 (@addDaysISO_isoParse v (n + m) t Ht Hm)).
  do 2 f_equal. lia.
Qed.

Lemma addDaysISO_reads_back_witness :
  exists r,
    addDaysISO isoParse (S_ "2024-02-28T12:00:00Z") 2 = Ok r
    /\ newDate isoParse (JStr r) = Some (1709121600000 + 2 * msPerDay)
    /\ yyyymmdd isoParse (JStr r) = ymd (1709121600000 + 2 * msPerDay)
    /\ forall m,
         0 <= getUTCFullYear (1709121600000 + (2 + m) * msPerDay) <= 9999 ->
         addDaysISO isoParse (JStr r) m
         = addDaysISO isoParse (S_ "2024-02-28T12:00:00Z") (2 + m).
Proof.
  apply (@addDaysISO_reads_back (S_ "2024-02-28T12:00:00Z") 2
           1709121600000).
  - vm_compute. reflexivity.
  - vm_compute. split; discriminate.
Defined.

Example addDaysISO_leap_day :
  addDaysISO isoParse (S_ "2024-02-28T12:00:00Z") 2
  = Ok (js "2024-03-01T12:00:00.000Z").
Proof. vm_compute. reflexivity. Qed.

(** X10: with the parser [isoParse], an event whose start is the time [ts]
    and whose inclusive end is the time [te], the day after [te] falling in
    the years 0 to 9999, is rendered in all-day mode without error, with the
    UTC date of [ts] in [DTSTART] and in [DTEND] the UTC date of [te] plus
    one day, which is the day that follows the day of [te]. *)
Theorem veventAllDay_dates :
  forall (stamp : Z) (e : Event.t) (ts te : Z),
    newDate isoParse (Event.start e ||| Event.end_ e) = Some ts ->
    newDate isoParse (Event.end_ e ||| Event.start e) = Some te ->
    0 <= getUTCFullYear (te + msPerDay) <= 9999 ->
    exists lines,
      renderEvent isoParse true stamp e
        = Ok (array_join CRLF (filter_Boolean lines))
      /\ nth 3 lines JNull = JStr (js "DTSTART;VALUE=DATE:" ++ ymd ts)
      /\ nth 4 lines JNull
           = JStr (js "DTEND;VALUE=DATE:" ++ ymd (te + msPerDay))
      /\ Day (te + msPerDay) = Day te + 1.
Proof.
  intros stamp e ts te Hs He Hy.
  replace (te + msPerDay) with (te + 1 * msPerDay) in * by lia.
  destruct (@addDaysISO_isoParse _ 1 _ He Hy) as [Hadd Hback].
  unfold renderEvent, veventAllDay, yyyymmdd.
  cbn [allDayArgs va_start va_end]. rewrite Hs, Hadd. cbn [bind].
  rewrite Hback.
  eexists. split; [reflexivity|]. split; [reflexivity|].
  split; [reflexivity|].
  unfold Day. rewrite Z.div_add by discriminate. reflexivity.
Qed.

Lemma veventAllDay_dates_witness :
  exists lines,
    renderEvent isoParse true T0 event_two_days
      = Ok (array_join CRLF (filter_Boolean lines))
    /\ nth 3 lines JNull
         = JStr (js "DTSTART;VALUE=DATE:" ++ ymd 1717236000000)
    /\ nth 4 lines JNull
         = JStr (js "DTEND;VALUE=DATE:" ++ ymd (1717326000000 + msPerDay))
    /\ Day (1717326000000 + msPerDay) = Day 1717326000000 + 1.
Proof.
  apply (@veventAllDay_dates T0 event_two_days
           1717236000000 1717326000000).
  - vm_compute. reflexivity.
  - vm_compute. reflexivity.
  - vm_compute. split; discriminate.
Defined.

Example event_two_days_all_day :
  exists lines,
    renderEvent isoParse true T0 event_two_days
      = Ok (array_join CRLF (filter_Boolean lines))
    /\ nth 3 lines JNull = S_ "DTSTART;VALUE=DATE:20240601"
    /\ nth 4 lines JNull = S_ "DTEND;VALUE=DATE:20240603".
Proof.
  eexists. split; [reflexivity|]. split; reflexivity.
Qed.

(* ------------------------------------------------------------------ *)
(** *** The content lines of an event *)

Lemma string_of_uint_no_LF (d : Decimal.uint) :
  ~ In LF (js (NilEmpty.string_of_uint d)).
Proof.
  induction d; cbn; intros H; try (destruct H as [H|H]; [discriminate|auto]).
  exact H.
Qed.

Lemma Z_to_jstring_no_LF (n : Z) : ~ In LF (Z_to_jstring n).
Proof.
  unfold Z_to_jstring.
  assert (H : forall d, ~ In LF (js (NilZero.string_of_uint d))).
  { intros d. destruct d; try apply string_of_uint_no_LF.
    cbn. intros [H|[]]. discriminate. }
  destruct (Z.to_int n) as [d|d]; cbn [NilZero.string_of_int].
  - apply H.
  - cbn. intros [Hd|Hd]; [discriminate|]. exact (H d Hd).
Qed.

Lemma Z_to_jstring_nonempty (n : Z) : Z_to_jstring n <> [].
Proof.
  unfold Z_to_jstring.
  assert (H : forall d, NilZero.string_of_uint d <> EmptyString)
    by (intros d; destruct d; discriminate).
  destruct (Z.to_int n) as [d|d]; cbn [NilZero.string_of_int].
  - specialize (H d). destruct (NilZero.string_of_uint d); [congruence|].
    discriminate.
  - discriminate.
Qed.

Lemma padStart0_no_LF (n : nat) (s : jstring) :
  ~ In LF s -> ~ In LF (padStart0 n s).
Proof.
  intros Hs. unfold padStart0. apply In_app_not; [|exact Hs].
  intros Hin. apply repeat_spec in Hin. discriminate.
Qed.

Lemma pad_no_LF (n : Z) : ~ In LF (pad n).
Proof. apply padStart0_no_LF, Z_to_jstring_no_LF. Qed.

Lemma ymd_no_LF (d : Z) : ~ In LF (ymd d).
Proof.
  unfold ymd.
  repeat first [apply pad_no_LF | apply Z_to_jstring_no_LF | apply In_app_not].
Qed.

Lemma join_no_LF (sep : jstring) (parts : list jstring) :
  ~ In LF sep -> Forall (fun p => ~ In LF p) parts -> ~ In LF (join sep parts).
Proof.
  intros Hsep Hall. induction Hall as [|p parts Hp _ IH]; [intros []|].
  destruct parts as [|q parts]; [exact Hp|].
  rewrite join_cons_cons. now repeat apply In_app_not.
Qed.

Lemma Ok_inj {A} (a b : A) : Ok a = Ok b -> a = b.
Proof. now intros [= ->]. Qed.

Lemma hex_digit_range (x : Z) : 0 <= x < 16 -> (48 <= hex_digit x < 128)%N.
Proof. intros H. unfold hex_digit. destruct (x <? 10); lia. Qed.

Lemma hex_word_shape (x : Z) :
  List.length (hex_word x) = 8%nat
  /\ Forall (fun c => (48 <= c < 128)%N) (hex_word x).
Proof.
  unfold hex_word. split; [reflexivity|].
  apply Forall_map, Forall_forall. intros i _.
  apply hex_digit_range, Z.mod_pos_bound. lia.
Qed.

(** A digest is 40 hexadecimal digits. *)
Lemma sha1_hex_shape (s : jstring) :
  List.length (sha1_hex s) = 40%nat
  /\ Forall (fun c => (48 <= c < 128)%N) (sha1_hex s).
Proof.
  unfold sha1_hex. cbv zeta.
  destruct (fold_left _ _ _) as [[[[h0 h1] h2] h3] h4].
  split.
  - rewrite !length_app. now rewrite !(proj1 (hex_word_shape _)).
  - repeat (apply Forall_app; split); apply hex_word_shape.
Qed.

(** A string of code units below 128 is its own UTF-8 encoding. *)
Lemma utf8_ascii (s : jstring) :
  Forall (fun c => (c < 128)%N) s -> utf8 s = s.
Proof.
  induction 1 as [|c s Hc _ IH]; [reflexivity|].
  cbn [utf8]. unfold isHighSurrogate, isLowSurrogate, utf8_codepoint.
  replace (55296 <=? c)%N with false by (symmetry; apply N.leb_gt; lia).
  replace (56320 <=? c)%N with false by (symmetry; apply N.leb_gt; lia).
  cbn [andb].
  replace (c <? 128)%N with true by (symmetry; apply N.ltb_lt; lia).
  cbn [app]. now rewrite IH.
Qed.

Lemma uidOf_units (e : Event.t) :
  List.length (uidOf e) = 47%nat
  /\ Forall (fun c => (48 <= c < 128)%N) (uidOf e).
Proof.
  unfold uidOf.
  destruct (sha1_hex_shape (js "fulcrum:" ++ ToString (Event.id e)))
    as [Hlen Hhex].
  split; [rewrite length_app, Hlen; reflexivity|].
  apply Forall_app. split; [exact Hhex|].
  apply Forall_forall. intros c Hc. cbn in Hc.
  repeat (destruct Hc as [<-|Hc]; [lia|]). destruct Hc.
Qed.

Lemma uidOf_no_LF (e : Event.t) : ~ In LF (uidOf e).
Proof.
  intros Hin. destruct (uidOf_units e) as [_ Hall].
  rewrite Forall_forall in Hall. specialize (Hall _ Hin).
  unfold LF in Hall. lia.
Qed.

Section LineProperties.
Variable Date_parse : jstring -> time.

Lemma toUTC_no_LF (v : jsval) : ~ In LF (toUTC Date_parse v).
Proof.
  unfold toUTC. destruct (newDate Date_parse v) as [d|].
  - repeat first [apply pad_no_LF | apply Z_to_jstring_no_LF
                  | now apply not_In_literal | apply In_app_not].
  - now apply not_In_literal.
Qed.

Lemma yyyymmdd_no_LF (v : jsval) : ~ In LF (yyyymmdd Date_parse v).
Proof.
  unfold yyyymmdd. destruct (newDate Date_parse v) as [d|].
  - apply ymd_no_LF.
  - now apply not_In_literal.
Qed.

Lemma lineFree_JStr (s : jstring) : ~ In LF s -> lineFree (JStr s).
Proof. intros H. exact H. Qed.

Lemma lineFree_cond (c : jsval) (s : jstring) :
  ~ In LF s -> lineFree (cond c (JStr s) JNull).
Proof. intros H. unfold cond. destruct (truthy c); [exact H | intros []]. Qed.

Lemma vevent_tail_lineFree (a : vevent_args) :
  Forall lineFree (vevent_tail a).
Proof.
  unfold vevent_tail. repeat constructor.
  - apply lineFree_JStr, In_app_not; [now apply not_In_literal|].
    apply icsEscape_no_LF.
  - apply lineFree_cond, In_app_not; [now apply not_In_literal|].
    apply icsEscape_no_LF.
  - apply lineFree_cond, In_app_not; [now apply not_In_literal|].
    apply icsEscape_no_LF.
  - destruct (va_categories a) as [|c cs]; [intros []|].
    apply lineFree_JStr, In_app_not; [now apply not_In_literal|].
    apply join_no_LF; [now apply not_In_literal|].
    apply Forall_map, Forall_forall. intros x _. apply icsEscape_no_LF.
  - apply lineFree_JStr. now apply not_In_literal.
Qed.

(** The lines a reader finds in a rendered array are its elements, when
    none of them holds a line feed. *)
Lemma split_CRLF_array_join (lines : list jsval) :
  filter_Boolean lines <> [] -> Forall lineFree lines ->
  split_CRLF (array_join CRLF (filter_Boolean lines))
  = map join_elem (filter_Boolean lines)
  /\ Forall (fun l => ~ In LF l) (map join_elem (filter_Boolean lines)).
Proof.
  intros Hne Hall.
  assert (Hfree : Forall (fun l => ~ In LF l)
                    (map join_elem (filter_Boolean lines))).
  { apply Forall_map, Forall_forall. intros v Hv.
    apply filter_In in Hv. rewrite Forall_forall in Hall.
    exact (Hall v (proj1 Hv)). }
  split; [|exact Hfree].
  unfold array_join. apply split_join_CRLF.
  - destruct (filter_Boolean lines); [congruence | discriminate].
  - revert Hfree. apply Forall_impl. exact no_LF_noCRLF.
Qed.

Lemma veventTimed_lineFree (stamp : Z) (e : Event.t) :
  Forall lineFree (veventTimed_lines Date_parse stamp (timedArgs e)).
Proof.
  unfold veventTimed_lines. apply Forall_app.
  split; [|apply vevent_tail_lineFree].
  repeat constructor; apply lineFree_JStr.
  - now apply not_In_literal.
  - apply In_app_not; [now apply not_In_literal | apply uidOf_no_LF].
  - apply In_app_not; [now apply not_In_literal | apply toUTC_no_LF].
  - apply In_app_not; [now apply not_In_literal | apply toUTC_no_LF].
  - apply In_app_not; [now apply not_In_literal | apply toUTC_no_LF].
Qed.

Lemma veventAllDay_lineFree (stamp : Z) (e : Event.t) (a b : jsval) :
  Forall lineFree
    (veventAllDay_lines Date_parse stamp (allDayArgs e)
       (yyyymmdd Date_parse a) (yyyymmdd Date_parse b)).
Proof.
  unfold veventAllDay_lines. apply Forall_app.
  split; [|apply vevent_tail_lineFree].
  repeat constructor; apply lineFree_JStr.
  - now apply not_In_literal.
  - apply In_app_not; [now apply not_In_literal | apply uidOf_no_LF].
  - apply In_app_not; [now apply not_In_literal | apply toUTC_no_LF].
  - apply In_app_not; [now apply not_In_literal | apply yyyymmdd_no_LF].
  - apply In_app_not; [now apply not_In_literal | apply yyyymmdd_no_LF].
Qed.

End LineProperties.

(** X11: whatever the fields of the event hold, the lines a reader finds in
    a rendered event (the pieces between its line breaks) are exactly the
    elements of the array the renderer joins, [veventTimed]'s or
    [veventAllDay]'s, without the [null] ones; none of them holds a line
    feed: no value of the event opens a content line of its own. *)
Theorem renderEvent_lines :
  forall (Date_parse : jstring -> time) (allDay : bool) (stamp : Z)
         (e : Event.t) (v : jstring),
    renderEvent Date_parse allDay stamp e = Ok v ->
    exists lines,
      (if allDay
       then exists dtStart dtEndExclusive,
              lines = veventAllDay_lines Date_parse stamp (allDayArgs e)
                        dtStart dtEndExclusive
       else lines = veventTimed_lines Date_parse stamp (timedArgs e))
      /\ v = array_join CRLF (filter_Boolean lines)
      /\ split_CRLF v = map join_elem (filter_Boolean lines)
      /\ Forall (fun l => ~ In LF l) (split_CRLF v).
Proof.
  intros Date_parse allDay stamp e v. unfold renderEvent. destruct allDay.
  - unfold veventAllDay.
    destruct (addDaysISO Date_parse (va_end (allDayArgs e)) 1) as [r|];
      [|discriminate].
    cbn [bind]. intros H. apply Ok_inj in H. subst v.
    set (lines := veventAllDay_lines _ _ _ _ _).
    destruct (@split_CRLF_array_join lines) as [Hsplit Hfree];
      [discriminate | apply veventAllDay_lineFree|].
    exists lines. split; [eexists _, _; reflexivity|].
    split; [reflexivity|]. split; [exact Hsplit|]. now rewrite Hsplit.
  - intros H. apply Ok_inj in H. subst v. unfold veventTimed.
    set (lines := veventTimed_lines _ _ _).
    destruct (@split_CRLF_array_join lines) as [Hsplit Hfree];
      [discriminate | apply veventTimed_lineFree|].
    exists lines. split; [reflexivity|].
    split; [reflexivity|]. split; [exact Hsplit|]. now rewrite Hsplit.
Qed.

Lemma renderEvent_lines_witness :
  exists lines,
    lines = veventTimed_lines isoParse T0 (timedArgs event_two_days)
    /\ veventTimed isoParse T0 (timedArgs event_two_days)
       = array_join CRLF (filter_Boolean lines)
    /\ split_CRLF (veventTimed isoParse T0 (timedArgs event_two_days))
       = map join_elem (filter_Boolean lines)
    /\ Forall (fun l => ~ In LF l)
         (split_CRLF (veventTimed isoParse T0 (timedArgs event_two_days))).
Proof.
  apply (@renderEvent_lines isoParse false T0 event_two_days
           (veventTimed isoParse T0 (timedArgs event_two_days))).
  reflexivity.
Defined.

Example event_two_days_timed :
  split_CRLF (veventTimed isoParse T0 (timedArgs event_two_days))
  = [ js "BEGIN:VEVENT";
      js "UID:" ++ sha1_hex (js "fulcrum:J1") ++ js "@bettis";
      js "DTSTAMP:20240601T100000Z";
      js "DTSTART:20240601T100000Z";
      js "DTEND:20240602T110000Z";
      js "SUMMARY:Frame\, welded";
      js "LOCATION:Bay 2";
      js "DESCRIPTION:Status: scheduled";
      js "CATEGORIES:Bay 2,scheduled";
      js "END:VEVENT" ].
Proof. vm_compute. reflexivity. Qed.

(* ------------------------------------------------------------------ *)
(** *** The feed of a listing *)

Section FeedProperties.
Variable Date_parse : jstring -> time.

(** Mapping the jobs never throws. *)
Lemma mapM_eventOf (pm : primary_map) (jobs : list Job.t) :
  exists events,
    mapM (eventOf Date_parse pm) jobs = Ok events
    /\ Forall2 (fun j ev => eventOf Date_parse pm j = Ok ev) jobs events.
Proof.
  induction jobs as [|j jobs (events & Hm & Hall)].
  - exists []. split; [reflexivity | constructor].
  - destruct (mapJobToEvent_window Date_parse j (primaryOpOf pm j)
                (itemToMakeOf pm j)) as (ev & Hev & _).
    exists (ev :: events). cbn [mapM]. unfold eventOf at 1.
    rewrite Hev, Hm. split; [reflexivity|]. constructor; assumption.
Qed.



(** The only error of the all-day renderer is the [RangeError] of
    [toISOString]. *)
Lemma renderEvent_allDay_cases (stamp : Z) (e : Event.t) :
  (exists v, renderEvent Date_parse true stamp e = Ok v)
  \/ renderEvent Date_parse true stamp e = Throw (js "Invalid time value").
Proof.
  unfold renderEvent, veventAllDay, addDaysISO.
  destruct (newDate Date_parse (va_end (allDayArgs e))) as [d|];
    [|right; reflexivity].
  destruct (TimeClip _); [left; eexists; reflexivity | right; reflexivity].
Qed.

Lemma renderEvent_allDay_invalid (stamp : Z) (e : Event.t) :
  newDate Date_parse (Event.end_ e ||| Event.start e) = None ->
  renderEvent Date_parse true stamp e = Throw (js "Invalid time value").
Proof.
  intros H. unfold renderEvent, veventAllDay, addDaysISO.
  cbn [allDayArgs va_end]. now rewrite H.
Qed.

Lemma renderEvents_allDay_invalid (w : world) (events : list Event.t)
    (e : Event.t) :
  In e events ->
  newDate Date_parse (Event.end_ e ||| Event.start e) = None ->
  forall k,
    renderEvents Date_parse w true k events = Throw (js "Invalid time value").
Proof.
  intros Hin Hbad. induction events as [|e0 events IH]; [destruct Hin|].
  intros k. cbn [renderEvents]. destruct Hin as [-> | Hin].
  - now rewrite (@renderEvent_allDay_invalid (w_stamp w k) _ Hbad).
  - destruct (renderEvent_allDay_cases (w_stamp w k) e0) as [[v ->] | ->];
      [|reflexivity].
    cbn [bind]. now rewrite (IH Hin (S k)).
Qed.

End FeedProperties.


(** X13: in all-day mode, one job that passes the window filter and whose
    event has an end (or, without an end, a start) that does not parse as a
    date makes the rendering of the whole listing throw the [RangeError] of
    [toISOString]: no document is produced for the other jobs either. *)
Theorem renderFeed_allDay_invalid_end :
  forall (Date_parse : jstring -> time) (w : world) (since until : jsval)
         (primaryOpByJob : primary_map) (jobs : list Job.t) (j : Job.t)
         (ev : Event.t),
    In j jobs ->
    keepJob Date_parse since until primaryOpByJob j = true ->
    eventOf Date_parse primaryOpByJob j = Ok ev ->
    newDate Date_parse (Event.end_ ev ||| Event.start ev) = None ->
    renderFeed Date_parse w true since until primaryOpByJob jobs
    = Throw (js "Invalid time value").
Proof.
  intros Date_parse w since until pm jobs j ev Hin Hkeep Hev Hbad.
  unfold renderFeed.
  assert (Hf : In j (filteredJobs Date_parse since until pm jobs))
    by (apply filter_In; auto).
  destruct (mapM_eventOf Date_parse pm
              (filteredJobs Date_parse since until pm jobs))
    as (events & -> & Hall).
  cbn [bind].
  assert (Hine : In ev events).
  { clear - Hall Hf Hev. induction Hall as [|j0 e0 js es H0 _ IH];
      [destruct Hf|].
    destruct Hf as [-> | Hf]; [left; congruence | right; auto]. }
  now rewrite (@renderEvents_allDay_invalid Date_parse w _ _ Hine Hbad 0).
Qed.

Lemma renderFeed_allDay_invalid_end_witness :
  renderFeed isoParse (world_quiet T0 [job_J1; job_bad_end]) true
             JUndefined JUndefined [] [job_J1; job_bad_end]
  = Throw (js "Invalid time value").
Proof.
  eapply (@renderFeed_allDay_invalid_end isoParse
            (world_quiet T0 [job_J1; job_bad_end]) JUndefined JUndefined []
            [job_J1; job_bad_end] job_bad_end).
  - right. left. reflexivity.
  - reflexivity.
  - reflexivity.
  - reflexivity.
Defined.

(** The same listing in timed mode: the end is written as [NaN]s. *)
Example renderFeed_timed_invalid_end :
  exists doc,
    renderFeed isoParse (world_quiet T0 [job_J1; job_bad_end]) false
               JUndefined JUndefined [] [job_J1; job_bad_end] = Ok doc
    /\ In (js "DTEND:NaNNaNNaNTNaNNaNNaNZ") (split_CRLF doc).
Proof.
  eexists. split; [vm_compute; reflexivity|]. vm_compute. intuition auto.
Qed.

(** X14: when no job passes the window filter (in particular when the
    listing is empty), the document is, in either mode, the seven header
    lines, an empty line where the events would stand, and
    [END:VCALENDAR], each followed by a line break. *)
Theorem renderFeed_no_events :
  forall (Date_parse : jstring -> time) (w : world) (allDay : bool)
         (since until : jsval) (primaryOpByJob : primary_map)
         (jobs : list Job.t),
    filteredJobs Date_parse since until primaryOpByJob jobs = [] ->
    renderFeed Date_parse w allDay since until primaryOpByJob jobs
    = Ok (join CRLF
            [ js "BEGIN:VCALENDAR";
              js "VERSION:2.0";
              js "PRODID:-//Bettis//Fulcrum Jobs Schedule//EN";
              js "CALSCALE:GREGORIAN";
              js "METHOD:PUBLISH";
              js "X-WR-CALNAME:Fulcrum Schedule";
              js "X-WR-TIMEZONE:UTC";
              [];
              js "END:VCALENDAR";
              [] ]).
Proof.
  intros Date_parse w allDay since until pm jobs H.
  unfold renderFeed. rewrite H. vm_compute. reflexivity.
Qed.

Lemma renderFeed_no_events_witness :
  renderFeed isoParse (world_quiet T0 [job_unscheduled]) true
             JUndefined JUndefined [] [job_unscheduled]
  = Ok (join CRLF
          [ js "BEGIN:VCALENDAR";
            js "VERSION:2.0";
            js "PRODID:-//Bettis//Fulcrum Jobs Schedule//EN";
            js "CALSCALE:GREGORIAN";
            js "METHOD:PUBLISH";
            js "X-WR-CALNAME:Fulcrum Schedule";
            js "X-WR-TIMEZONE:UTC";
            [];
            js "END:VCALENDAR";
            [] ]).
Proof.
  apply (@renderFeed_no_events isoParse (world_quiet T0 [job_unscheduled])
           true JUndefined JUndefined [] [job_unscheduled]).
  reflexivity.
Defined.

(* ------------------------------------------------------------------ *)
(** *** Summary and identifier of an event *)

Lemma escapeUnit_nonempty (c : N) : escapeUnit c <> [].
Proof.
  unfold escapeUnit. destruct (_ || _)%bool; [discriminate|].
  destruct (_ =? _)%N; discriminate.
Qed.

Lemma icsEscape_nonempty (s : jstring) : s <> [] -> icsEscape (JStr s) <> [].
Proof.
  intros Hs. rewrite icsEscape_flat_map.
  destruct s as [|c s]; [congruence|]. cbn [flat_map].
  pose proof (escapeUnit_nonempty c) as Hc.
  destruct (escapeUnit c); [congruence | discriminate].
Qed.

Lemma summaryWritten_jor (summary : jstring) :
  JStr summary ||| JStr (js "Scheduled Work") = JStr (summaryWritten summary).
Proof. destruct summary; reflexivity. Qed.

Lemma summaryWritten_nonempty (summary : jstring) :
  summaryWritten summary <> [].
Proof. destruct summary; discriminate. Qed.

(** The sixth element of a renderer's array survives [filter(Boolean)] at
    its place when the five before it are non-empty strings. *)
Lemma nth_5_filter_Boolean (a b c d e f : jstring) (rest : list jsval) :
  a <> [] -> b <> [] -> c <> [] -> d <> [] -> e <> [] -> f <> [] ->
  nth 5 (map join_elem
           (filter_Boolean
              (JStr a :: JStr b :: JStr c :: JStr d :: JStr e :: JStr f
                 :: rest))) []
  = f.
Proof.
  intros Ha Hb Hc Hd He Hf.
  destruct a; [congruence|]. destruct b; [congruence|].
  destruct c; [congruence|]. destruct d; [congruence|].
  destruct e; [congruence|]. destruct f; [congruence|].
  reflexivity.
Qed.
(** X15: the sixth line of every rendered event, timed or all-day, is its
    [SUMMARY] line, and the value of that line is never empty: it is the
    escaped summary of the event or, when the summary is empty,
    [Scheduled Work]. *)
Theorem renderEvent_summary_line :
  forall (Date_parse : jstring -> time) (allDay : bool) (stamp : Z)
         (e : Event.t) (v : jstring),
    renderEvent Date_parse allDay stamp e = Ok v ->
    nth 5 (split_CRLF v) []
      = js "SUMMARY:" ++ icsEscape (JStr (summaryWritten (Event.summary e)))
    /\ icsEscape (JStr (summaryWritten (Event.summary e))) <> []
    /\ (Event.summary e = [] ->
        nth 5 (split_CRLF v) [] = js "SUMMARY:Scheduled Work").
Proof.
  intros Date_parse allDay stamp e v Hv.
  assert (Hline : nth 5 (split_CRLF v) []
                  = js "SUMMARY:"
                      ++ icsEscape (JStr (summaryWritten (Event.summary e)))).
  { unfold renderEvent in Hv. destruct allDay.
    - unfold veventAllDay in Hv.
      destruct (addDaysISO Date_parse (va_end (allDayArgs e)) 1) as [r|];
        [|discriminate].
      cbn [bind] in Hv. apply Ok_inj in Hv. subst v.
      destruct (@split_CRLF_array_join
                  (veventAllDay_lines Date_parse stamp (allDayArgs e)
                     (yyyymmdd Date_parse (va_start (allDayArgs e)))
                     (yyyymmdd Date_parse (JStr r)))) as [Hsplit _];
        [discriminate | apply veventAllDay_lineFree|].
      rewrite Hsplit. unfold veventAllDay_lines, vevent_tail.
      cbn [app va_summary allDayArgs]. rewrite summaryWritten_jor.
      apply nth_5_filter_Boolean; discriminate.
    - apply Ok_inj in Hv. subst v. unfold veventTimed.
      destruct (@split_CRLF_array_join
                  (veventTimed_lines Date_parse stamp (timedArgs e)))
        as [Hsplit _];
        [discriminate | apply veventTimed_lineFree|].
      rewrite Hsplit. unfold veventTimed_lines, vevent_tail.
      cbn [app va_summary timedArgs]. rewrite summaryWritten_jor.
      apply nth_5_filter_Boolean; discriminate. }
  split; [exact Hline|].
  split; [apply icsEscape_nonempty, summaryWritten_nonempty|].
  intros Hempty. rewrite Hline, Hempty. reflexivity.
Qed.

Lemma renderEvent_summary_line_witness :
  nth 5 (split_CRLF (veventTimed isoParse T0 (timedArgs event_no_summary))) []
    = js "SUMMARY:"
        ++ icsEscape (JStr (summaryWritten (Event.summary event_no_summary)))
  /\ icsEscape (JStr (summaryWritten (Event.summary event_no_summary))) <> []
  /\ (Event.summary event_no_summary = [] ->
      nth 5 (split_CRLF (veventTimed isoParse T0 (timedArgs event_no_summary)))
          []
      = js "SUMMARY:Scheduled Work").
Proof.
  apply (@renderEvent_summary_line isoParse false T0 event_no_summary
           (veventTimed isoParse T0 (timedArgs event_no_summary))).
  reflexivity.
Defined.

(** X16: the UID of an event is 47 code units, the 40 hexadecimal digits
    of the digest and [@bettis], all of them ASCII; its content line
    [UID:...] has 51 octets and is never folded. *)
Theorem uidOf_shape :
  forall e : Event.t,
    List.length (uidOf e) = 47%nat
    /\ Forall (fun c => (48 <= c < 128)%N) (uidOf e)
    /\ byteLength (js "UID:" ++ uidOf e) = 51%nat
    /\ foldLines (js "UID:" ++ uidOf e) = js "UID:" ++ uidOf e.
Proof.
  intros e. destruct (uidOf_units e) as [Hlen Huid].
  assert (Hall : Forall (fun c => (48 <= c < 128)%N) (js "UID:" ++ uidOf e)).
  { apply Forall_app. split; [|exact Huid].
    apply Forall_forall. intros c Hc. cbn in Hc.
    repeat (destruct Hc as [<-|Hc]; [lia|]). destruct Hc. }
  assert (Hbytes : byteLength (js "UID:" ++ uidOf e) = 51%nat).
  { unfold byteLength. rewrite utf8_ascii.
    - rewrite length_app, Hlen. reflexivity.
    - revert Hall. apply Forall_impl. intros c Hc. lia. }
  split; [exact Hlen|]. split; [exact Huid|]. split; [exact Hbytes|].
  apply foldLines_short_lines.
  rewrite split_CRLF_line.
  - constructor; [rewrite Hbytes; lia | constructor].
  - apply no_LF_noCRLF. intros Hin. rewrite Forall_forall in Hall.
    specialize (Hall _ Hin). unfold LF in Hall. lia.
Qed.

(* ------------------------------------------------------------------ *)
(** *** The operation selected *)

Section SelectionProperties.
Variable Date_parse : jstring -> time.

Lemma candidatesOf_In (ops : list Op.t) (o : Op.t) :
  In o (candidatesOf Date_parse ops)
  <-> In o ops /\ truthy (opStartOf o) = true.
Proof.
  unfold candidatesOf. rewrite array_sort_In, filter_In. tauto.
Qed.

Lemma candidatesOf_empty (ops : list Op.t) :
  candidatesOf Date_parse ops = [] ->
  forall o, In o ops -> truthy (opStartOf o) = false.
Proof.
  intros Hnil o Ho. destruct (truthy (opStartOf o)) eqn:E; [|reflexivity].
  assert (Hin : In o (candidatesOf Date_parse ops))
    by (apply candidatesOf_In; auto).
  rewrite Hnil in Hin. destruct Hin.
Qed.

(** What [pickPrimaryOperation] returns: nothing when there is no
    candidate; otherwise a candidate, which overlaps the job's window when
    the job has a start and some candidate overlaps. *)
Lemma pickPrimaryOperation_cases (job : Job.t) (ops : list Op.t) :
  match pickPrimaryOperation Date_parse job ops with
  | Some o =>
      In o (candidatesOf Date_parse ops)
      /\ (time_truthy (newDate Date_parse (jobStartOf job ||| JNum 0)) = true ->
          forall c,
            In c (candidatesOf Date_parse ops) ->
            overlaps Date_parse
              (newDate Date_parse (jobStartOf job ||| JNum 0))
              (newDate Date_parse (jobEndOf job ||| JNum 0)) c = true ->
            overlaps Date_parse
              (newDate Date_parse (jobStartOf job ||| JNum 0))
              (newDate Date_parse (jobEndOf job ||| JNum 0)) o = true)
  | None => candidatesOf Date_parse ops = []
  end.
Proof.
  unfold pickPrimaryOperation. destruct ops as [|o0 ops']; [reflexivity|].
  set (ops := o0 :: ops').
  destruct (candidatesOf Date_parse ops) as [|first rest] eqn:Hc;
    [reflexivity|].
  destruct (time_truthy _) eqn:Hstart.
  - destruct (find _ (first :: rest)) as [ov|] eqn:Hf.
    + destruct (find_some _ _ Hf) as [Hin Hov]. split; [exact Hin|]. auto.
    + split; [now left|]. intros _ c Hcin Hcov.
      pose proof (find_none _ _ Hf c Hcin) as Hn. cbv beta in Hn. congruence.
  - split; [now left | discriminate].
Qed.

End SelectionProperties.

(** X17: [pickPrimaryOperation] returns [null] exactly when no operation of
    the listing has a start.  Otherwise it returns an operation of the
    listing that has a start; and when the job's start parses to a time
    other than the epoch and some operation with a start overlaps the job's
    window (as the selector tests it), the operation returned overlaps
    it. *)
Theorem pickPrimaryOperation_selects :
  forall (Date_parse : jstring -> time) (job : Job.t) (ops : list Op.t),
    match pickPrimaryOperation Date_parse job ops with
    | Some o =>
        In o ops /\ truthy (opStartOf o) = true
        /\ (time_truthy (newDate Date_parse (jobStartOf job ||| JNum 0)) = true ->
            forall c,
              In c ops -> truthy (opStartOf c) = true ->
              overlaps Date_parse
                (newDate Date_parse (jobStartOf job ||| JNum 0))
                (newDate Date_parse (jobEndOf job ||| JNum 0)) c = true ->
              overlaps Date_parse
                (newDate Date_parse (jobStartOf job ||| JNum 0))
                (newDate Date_parse (jobEndOf job ||| JNum 0)) o = true)
    | None => forall o, In o ops -> truthy (opStartOf o) = false
    end.
Proof.
  intros Date_parse job ops.
  pose proof (pickPrimaryOperation_cases Date_parse job ops) as H.
  destruct (pickPrimaryOperation Date_parse job ops) as [o|].
  - destruct H as [Hin Hov]. apply candidatesOf_In in Hin.
    split; [tauto|]. split; [tauto|].
    intros Hstart c Hc Hct. apply (Hov Hstart c).
    apply candidatesOf_In. auto.
  - exact (@candidatesOf_empty Date_parse ops H).
Qed.

Lemma find_id_unique (pairs : list op_pair) (p : op_pair) :
  NoDup (map (fun q => Op.id (pair_op q)) pairs) ->
  In p pairs ->
  find (fun q => strict_eq (Op.id (pair_op q)) (Op.id (pair_op p))) pairs
  = Some p.
Proof.
  induction pairs as [|q pairs IH]; intros Hnd Hin; [destruct Hin|].
  cbn [map] in Hnd. inversion Hnd as [|? ? Hnotin Hnd']; subst.
  cbn [find]. destruct Hin as [-> | Hin].
  - now rewrite strict_eq_refl.
  - destruct (strict_eq _ _) eqn:E; [|now apply IH].
    apply strict_eq_true in E. exfalso. apply Hnotin. rewrite E.
    now apply (in_map (fun q => Op.id (pair_op q))).
Qed.

(** The pair recorded for a job is one of the pairs of its listing: the
    replacement pair [{ op: primary, itm: null }] is never needed. *)
Lemma primaryPair_In (Date_parse : jstring -> time) (job : Job.t)
    (arr : list RawOp) (p : op_pair) :
  primaryPair Date_parse job arr = Some p -> In p (pairsOf arr).
Proof.
  unfold primaryPair.
  pose proof (pickPrimaryOperation_cases Date_parse job
                (map pair_op (pairsOf arr))) as H.
  destruct (pickPrimaryOperation _ _ _) as [primary|]; [|discriminate].
  destruct H as [H _].
  apply candidatesOf_In in H. destruct H as [Hin _].
  apply in_map_iff in Hin. destruct Hin as (q & Hq & Hqin).
  destruct (find _ (pairsOf arr)) as [p'|] eqn:Hf.
  - intros [= <-]. exact (proj1 (find_some _ _ Hf)).
  - exfalso. pose proof (find_none _ _ Hf q Hqin) as Hn. cbv beta in Hn.
    rewrite Hq, strict_eq_refl in Hn. discriminate.
Qed.

(** X18: when the operations of a listing have distinct identifiers, the
    pair recorded for the job holds the operation [pickPrimaryOperation]
    selects (none when it selects none), and it is a pair of the listing,
    so that it carries the item of that operation. *)
Theorem primaryPair_selected :
  forall (Date_parse : jstring -> time) (job : Job.t) (arr : list RawOp),
    NoDup (map (fun q => Op.id (pair_op q)) (pairsOf arr)) ->
    option_map pair_op (primaryPair Date_parse job arr)
    = pickPrimaryOperation Date_parse job (map pair_op (pairsOf arr))
    /\ forall p, primaryPair Date_parse job arr = Some p -> In p (pairsOf arr).
Proof.
  intros Date_parse job arr Hnd.
  split; [|intros p; apply primaryPair_In].
  unfold primaryPair.
  pose proof (pickPrimaryOperation_cases Date_parse job
                (map pair_op (pairsOf arr))) as H.
  destruct (pickPrimaryOperation _ _ _) as [primary|]; [|reflexivity].
  destruct H as [H _].
  apply candidatesOf_In in H. destruct H as [Hin _].
  apply in_map_iff in Hin. destruct Hin as (q & <- & Hqin).
  now rewrite (@find_id_unique _ _ Hnd Hqin).
Qed.

Lemma primaryPair_selected_witness :
  option_map pair_op (primaryPair isoParse job_late listing_two_ops)
  = pickPrimaryOperation isoParse job_late (map pair_op (pairsOf listing_two_ops))
  /\ forall p, primaryPair isoParse job_late listing_two_ops = Some p ->
               In p (pairsOf listing_two_ops).
Proof.
  apply (@primaryPair_selected isoParse job_late listing_two_ops).
  vm_compute. repeat constructor; simpl; intuition discriminate.
Defined.

Example primaryPair_carries_item :
  primaryPair isoParse job_late listing_two_ops
  = Some (mk_pair op_early (Some item_bracket)).
Proof. reflexivity. Qed.

(* ------------------------------------------------------------------ *)
(** *** Storing and reading the operation cache *)

Section MoreMapProperties.
Variable V : Type.
Implicit Types (m : JMap.t V) (k : jsval) (v : V).

Lemma get_delete_ne k k' m :
  k <> k' -> JMap.get k (JMap.delete k' m) = JMap.get k m.
Proof.
  intros Hne. induction m as [|[k0 v0] m IH]; simpl; [reflexivity|].
  destruct (strict_eq k0 k') eqn:E'; simpl.
  - apply strict_eq_true in E'. subst k0.
    apply not_eq_sym, strict_eq_false in Hne. now rewrite Hne.
  - destruct (strict_eq k0 k); auto.
Qed.

Lemma get_delete_eq k m :
  NoDup (JMap.keys m) -> JMap.get k (JMap.delete k m) = None.
Proof.
  unfold JMap.keys. induction m as [|[k0 v0] m IH]; simpl; [reflexivity|].
  intros Hnd. inversion Hnd as [|? ? Hnotin Hnd']; subst.
  destruct (strict_eq k0 k) eqn:E.
  - apply strict_eq_true in E. subst k0.
    now apply get_None_keys.
  - simpl. rewrite E. auto.
Qed.

Lemma set_new k v m : JMap.get k m = None -> JMap.set k v m = m ++ [(k, v)].
Proof.
  induction m as [|[k0 v0] m IH]; simpl; [reflexivity|].
  destruct (strict_eq k0 k); [discriminate|].
  intros H. now rewrite IH.
Qed.

Lemma keys_set_In k k' v m :
  In k (JMap.keys m) -> In k (JMap.keys (JMap.set k' v m)).
Proof.
  intros H. rewrite keys_set. destruct (JMap.get k' m); [exact H|].
  apply in_or_app. now left.
Qed.

Lemma set_In_cases k k' v v' m :
  In (k, v) (JMap.set k' v' m) -> (k, v) = (k', v') \/ In (k, v) m.
Proof.
  induction m as [|[k0 v0] m IH]; simpl.
  - intros [H|[]]. left. now symmetry.
  - destruct (strict_eq k0 k') eqn:E; simpl.
    + apply strict_eq_true in E. subst k0.
      intros [H|H]; [left; now symmetry | auto].
    + intros [H|H]; [auto|]. destruct (IH H); auto.
Qed.

End MoreMapProperties.

(** With a clock that does not run backwards, the entry [cachePutOps]
    stores is not the one it evicts. *)
Lemma cachePutOps_get (now : Z) (jobId : jsval) (data : list RawOp)
    (c : ops_cache) :
  (JMap.size c <= 500)%nat -> NoDup (JMap.keys c) ->
  (forall k e, In (k, e) c -> oe_at e <= now) ->
  JMap.get jobId (cachePutOps now jobId data c)
  = Some (mk_ops_entry now data).
Proof.
  intros Hsize Hnd Hclock.
  set (new := mk_ops_entry now data).
  set (inserted := JMap.set jobId new c).
  destruct (Nat.le_gt_cases (JMap.size inserted) 500) as [Hle | Hgt].
  - unfold cachePutOps. fold new. fold inserted.
    apply Nat.ltb_ge in Hle. rewrite Hle. apply get_set_eq.
  - destruct (@cachePutOps_eviction now jobId data c Hnd Hgt)
      as (before & ok & o & after & Heq & Hb & Ha & Hres).
    fold new in Heq. fold inserted in Heq.
    assert (Hnone : JMap.get jobId c = None).
    { unfold inserted in Hgt. rewrite size_set in Hgt.
      destruct (JMap.get jobId c); [lia | reflexivity]. }
    assert (Hins : inserted = c ++ [(jobId, new)])
      by (apply set_new; exact Hnone).
    assert (Hne : jobId <> ok).
    { intros <-. clear Ha Hres.
      induction after as [|[k' e'] after' _] using rev_ind.
      - rewrite Hins in Heq.
        apply app_inj_tail in Heq. destruct Heq as [<- [= <-]].
        destruct c as [|[k0 e0] c'].
        + unfold inserted, JMap.size in Hgt. simpl in Hgt. lia.
        + specialize (Hb k0 e0 (or_introl eq_refl)).
          specialize (Hclock k0 e0 (or_introl eq_refl)).
          cbn in Hb. lia.
      - rewrite Hins in Heq.
        rewrite app_comm_cons, app_assoc in Heq.
        apply app_inj_tail in Heq. destruct Heq as [Hc _].
        apply get_None_keys in Hnone. apply Hnone.
        rewrite Hc. unfold JMap.keys. rewrite map_app. apply in_or_app.
        right. now left. }
    assert (Hdel : cachePutOps now jobId data c = JMap.delete ok inserted).
    { rewrite Hres, Heq. symmetry. apply delete_middle.
      assert (Hndi : NoDup (JMap.keys inserted)) by (apply NoDup_set; exact Hnd).
      rewrite Heq in Hndi. unfold JMap.keys in Hndi |- *.
      rewrite map_app in Hndi. cbn [map fst] in Hndi.
      apply NoDup_remove_2 in Hndi. intros Hin. apply Hndi.
      apply in_or_app. auto. }
    rewrite Hdel, get_delete_ne by exact Hne. apply get_set_eq.
Qed.

(** X19: a listing stored by [cachePutOps] is what [cacheGetOps] returns
    for the job as long as no more than the time-to-live has passed, and the
    read leaves the cache as it is.  This holds on a cache within its cap
    whose entries are not stamped later than the time of the store: then
    the entry evicted on overflow is never the one just stored. *)
Theorem cachePutOps_then_cacheGetOps :
  forall (cfg : config) (now now' : Z) (jobId : jsval) (data : list RawOp)
         (c : ops_cache),
    (JMap.size c <= 500)%nat ->
    NoDup (JMap.keys c) ->
    (forall k e, In (k, e) c -> oe_at e <= now) ->
    now' - now <= OPS_CACHE_TTL_MS cfg ->
    cacheGetOps cfg now' jobId (cachePutOps now jobId data c)
    = (Some data, cachePutOps now jobId data c).
Proof.
  intros cfg now now' jobId data c Hsize Hnd Hclock Hfresh.
  unfold cacheGetOps.
  rewrite (@cachePutOps_get now jobId data c Hsize Hnd Hclock).
  cbn [oe_at oe_data]. apply Z.ltb_ge in Hfresh. now rewrite Hfresh.
Qed.

Lemma full_cache_times :
  forall k e, In (k, e) full_cache -> oe_at e <= 2000.
Proof.
  intros k e Hin. unfold full_cache in Hin. apply in_map_iff in Hin.
  destruct Hin as (i & Heq & Hi). apply (f_equal snd) in Heq.
  cbn [snd] in Heq. subst e. apply in_seq in Hi. cbn [oe_at]. lia.
Qed.

Lemma cachePutOps_then_cacheGetOps_witness :
  cacheGetOps config_default (2000 + 300000) (S_ "J1")
              (cachePutOps 2000 (S_ "J1") [mk_RawOp None op_inside None]
                           full_cache)
  = (Some [mk_RawOp None op_inside None],
     cachePutOps 2000 (S_ "J1") [mk_RawOp None op_inside None] full_cache).
Proof.
  apply (@cachePutOps_then_cacheGetOps config_default 2000 (2000 + 300000)
           (S_ "J1") [mk_RawOp None op_inside None] full_cache).
  - apply Nat.leb_le. vm_compute. reflexivity.
  - exact full_cache_keys.
  - exact full_cache_times.
  - vm_compute. discriminate.
Defined.

(** X20: for a job the cache holds an entry for, [cacheGetOps] serves the
    stored listing and leaves the cache alone while the age of the entry is
    at most the time-to-live (the age equal to it included); past it, the
    call reports a miss and deletes the entry, after which the job has no
    entry and the entries of the other jobs are as before. *)
Theorem cacheGetOps_expiry :
  forall (cfg : config) (now : Z) (jobId : jsval) (e : ops_entry)
         (c : ops_cache),
    NoDup (JMap.keys c) ->
    JMap.get jobId c = Some e ->
    (now - oe_at e <= OPS_CACHE_TTL_MS cfg ->
     cacheGetOps cfg now jobId c = (Some (oe_data e), c))
    /\ (OPS_CACHE_TTL_MS cfg < now - oe_at e ->
        cacheGetOps cfg now jobId c = (None, JMap.delete jobId c)
        /\ JMap.get jobId (JMap.delete jobId c) = None
        /\ (forall k, k <> jobId ->
                      JMap.get k (JMap.delete jobId c) = JMap.get k c)
        /\ forall now',
             cacheGetOps cfg now' jobId (JMap.delete jobId c)
             = (None, JMap.delete jobId c)).
Proof.
  intros cfg now jobId e c Hnd Hget. split.
  - intros Hfresh. unfold cacheGetOps. rewrite Hget.
    apply Z.ltb_ge in Hfresh. now rewrite Hfresh.
  - intros Hold.
    pose proof (@get_delete_eq _ jobId c Hnd) as Hgone.
    split; [|split; [exact Hgone|split]].
    + unfold cacheGetOps. rewrite Hget.
      apply Z.ltb_lt in Hold. now rewrite Hold.
    + intros k Hk. now apply get_delete_ne.
    + intros now'. unfold cacheGetOps. now rewrite Hgone.
Qed.

Lemma cacheGetOps_expiry_witness :
  (T0 - (T0 - 600000) <= OPS_CACHE_TTL_MS config_default ->
   cacheGetOps config_default T0 (S_ "J4") cache_stale_J4
   = (Some [mk_RawOp None op_early None], cache_stale_J4))
  /\ (OPS_CACHE_TTL_MS config_default < T0 - (T0 - 600000) ->
      cacheGetOps config_default T0 (S_ "J4") cache_stale_J4
      = (None, JMap.delete (S_ "J4") cache_stale_J4)
      /\ JMap.get (S_ "J4") (JMap.delete (S_ "J4") cache_stale_J4) = None
      /\ (forall k, k <> S_ "J4" ->
                    JMap.get k (JMap.delete (S_ "J4") cache_stale_J4)
                    = JMap.get k cache_stale_J4)
      /\ forall now',
           cacheGetOps config_default now' (S_ "J4")
                       (JMap.delete (S_ "J4") cache_stale_J4)
           = (None, JMap.delete (S_ "J4") cache_stale_J4)).
Proof.
  apply (@cacheGetOps_expiry config_default T0 (S_ "J4")
           (mk_ops_entry (T0 - 600000) [mk_RawOp None op_early None])
           cache_stale_J4).
  - repeat constructor. intros [].
  - reflexivity.
Defined.

(* ------------------------------------------------------------------ *)
(** *** The enrichment as a whole *)

Section RouteProperties.
Variable Date_parse : jstring -> time.
Variable cfg : config.

Lemma cacheGetOps_keeps_bound (now : Z) (k : jsval) (c : ops_cache) :
  opsCache_bounded c -> opsCache_bounded (snd (cacheGetOps cfg now k c)).
Proof.
  intros [Hs Hn]. split.
  - pose proof (cacheGetOps_size cfg now k c). lia.
  - unfold cacheGetOps. destruct (JMap.get k c); simpl; [|exact Hn].
    destruct (_ <? _); simpl; [apply NoDup_delete|]; exact Hn.
Qed.

Lemma cachePutOps_keeps_bound (now : Z) (k : jsval) (data : list RawOp)
    (c : ops_cache) :
  opsCache_bounded c -> opsCache_bounded (cachePutOps now k data c).
Proof.
  intros [Hs Hn]. split; [apply cachePutOps_size | apply cachePutOps_keys];
    assumption.
Qed.

(** An iteration of the worker returns normally, whatever the upstream
    answers; it records an entry for its job, touches no other entry of
    [primaryOpByJob], and keeps the operation cache within its cap. *)
Lemma workerStep_total (w : world) (i : nat) (job : Job.t)
    (st : ops_cache * primary_map) :
  exists st',
    workerStep Date_parse cfg w i job st = Ok st'
    /\ JMap.get (Job.id job) (snd st') <> None
    /\ (forall k, k <> Job.id job ->
                  JMap.get k (snd st') = JMap.get k (snd st))
    /\ (opsCache_bounded (fst st) -> opsCache_bounded (fst st')).
Proof.
  destruct st as [c pm]. unfold workerStep.
  pose proof (@cacheGetOps_keeps_bound (w_get_time w i) (Job.id job) c) as Hget.
  destruct (cacheGetOps cfg (w_get_time w i) (Job.id job) c) as [hit c1].
  simpl in Hget.
  destruct hit as [arr|].
  - cbn. eexists. split; [reflexivity|]. cbn.
    split; [rewrite get_set_eq; discriminate|].
    split; [intros k Hk; now apply get_set_ne | exact Hget].
  - destruct (w_ops w i) as [arr|m]; cbn.
    + eexists. split; [reflexivity|]. cbn.
      split; [rewrite get_set_eq; discriminate|].
      split; [intros k Hk; now apply get_set_ne|].
      intros Hb. apply cachePutOps_keeps_bound. auto.
    + eexists. split; [reflexivity|]. cbn.
      split; [rewrite get_set_eq; discriminate|].
      split; [intros k Hk; now apply get_set_ne | exact Hget].
Qed.

Lemma workerLoop_total (w : world) (prefiltered : list Job.t) :
  forall (i : nat) (st : ops_cache * primary_map),
  exists st',
    workerLoop Date_parse cfg w i prefiltered st = Ok st'
    /\ (forall k, JMap.get k (snd st') <> None <->
                  JMap.get k (snd st) <> None
                  \/ In k (map Job.id prefiltered))
    /\ (opsCache_bounded (fst st) -> opsCache_bounded (fst st')).
Proof.
  induction prefiltered as [|job rest IH]; intros i st.
  - exists st. split; [reflexivity|]. split; [|auto].
    intros k. simpl. tauto.
  - destruct (workerStep_total w i job st) as (st1 & Hstep & Hown & Hother & Hb).
    destruct (IH (S i) st1) as (st' & Hloop & Hkeys & Hb').
    exists st'. cbn [workerLoop]. rewrite Hstep. cbn [bind].
    split; [exact Hloop|]. split; [|auto].
    intros k. rewrite Hkeys. cbn [map In].
    destruct (jsval_eq_dec k (Job.id job)) as [->|Hne].
    + split; [auto | intros _; left; exact Hown].
    + rewrite (Hother k Hne). split.
      * intros [H|H]; auto.
      * intros [H|[H|H]]; auto; congruence.
Qed.

Lemma enrich_total (w : world) (includeOps : bool) (since until : jsval)
    (jobs : list Job.t) (opsCache : ops_cache) :
  exists opsCache' primaryOpByJob,
    enrich Date_parse cfg w includeOps since until jobs opsCache
      = Ok (opsCache', primaryOpByJob)
    /\ (forall k, JMap.get k primaryOpByJob <> None <->
                  includeOps = true
                  /\ exists j, In j jobs
                               /\ prefilter Date_parse since until j = true
                               /\ Job.id j = k)
    /\ (includeOps = false -> opsCache' = opsCache)
    /\ (opsCache_bounded opsCache -> opsCache_bounded opsCache').
Proof.
  unfold enrich. destruct includeOps.
  - destruct (workerLoop_total w (filter (prefilter Date_parse since until) jobs)
                0 (opsCache, []))
      as ([c' pm] & Hloop & Hkeys & Hb).
    exists c', pm. split; [exact Hloop|]. split; [|split; [discriminate|exact Hb]].
    intros k. rewrite (Hkeys k). cbn [snd JMap.get]. rewrite in_map_iff.
    split.
    + intros [H|(j & Hid & Hj)]; [congruence|].
      apply filter_In in Hj. split; [reflexivity|]. exists j. tauto.
    + intros (_ & j & Hj & Hp & Hid). right. exists j.
      split; [exact Hid|]. apply filter_In. auto.
  - exists opsCache, []. split; [reflexivity|].
    split; [|auto]. intros k. cbn. split; [congruence|].
    intros [H _]. discriminate.
Qed.

Lemma renderFeed_document (w : world) (allDay : bool) (since until : jsval)
    (pm : primary_map) (jobs : list Job.t) (doc : jstring) :
  renderFeed Date_parse w allDay since until pm jobs = Ok doc ->
  exists ics, doc = finalizeIcs ics.
Proof.
  unfold renderFeed.
  destruct (mapM _ _) as [events|]; [|discriminate]. cbn [bind].
  destruct (renderEvents _ _ _ _ _) as [vevents|]; [|discriminate].
  cbn [bind]. intros [= <-]. eexists. reflexivity.
Qed.

Lemma buildFeed_result (w : world) (req : request) (oc : ops_cache) :
  (forall doc oc', buildFeed Date_parse cfg w req oc = (Ok doc, oc') ->
                   exists ics, doc = finalizeIcs ics)
  /\ (opsCache_bounded oc ->
      opsCache_bounded (snd (buildFeed Date_parse cfg w req oc))).
Proof.
  unfold buildFeed.
  destruct (bind _ _) as [jobs|m].
  2:{ split; [intros ? ? [=] | auto]. }
  destruct (enrich_total w (strict_eq (q_ops req) (JStr (js "1")))
              (q_s req) (q_u req) jobs oc)
    as (c' & pm & Henrich & _ & _ & Hb).
  rewrite Henrich. split; [|exact Hb].
  intros doc oc' [= Hdoc _]. eapply renderFeed_document. exact Hdoc.
Qed.

(** The request is refused, served from the response cache, rendered, or
    it fails. *)
Lemma calendar_ics_cases (w : world) (req : request) (st : server_state) :
  let r := calendar_ics Date_parse cfg w req st in
  (truthy (ACCESS_KEY cfg) = true /\ q_key req <> ACCESS_KEY cfg
   /\ r = (Forbidden, st))
  \/ ((truthy (ACCESS_KEY cfg) = false \/ q_key req = ACCESS_KEY cfg)
      /\ ((exists hit,
             JMap.get (JStr (req_url req)) (cache st) = Some hit
             /\ w_now w - ce_at hit < CACHE_TTL_SECONDS cfg * 1000
             /\ ((h_if_none_match req = JStr (ce_etag hit)
                  /\ truthy (h_if_none_match req) = true
                  /\ r = (NotModified, st))
                 \/ ((h_if_none_match req <> JStr (ce_etag hit)
                      \/ truthy (h_if_none_match req) = false)
                     /\ r = (Success (ce_body hit) (ce_etag hit), st))))
          \/ (exists doc oc',
                buildFeed Date_parse cfg w req (opsCache st) = (Ok doc, oc')
                /\ r = (Success doc (etagOf doc),
                        mk_state (JMap.set (JStr (req_url req))
                                    (mk_cache_entry (w_now w) doc (etagOf doc))
                                    (cache st)) oc'))
          \/ (exists m oc',
                buildFeed Date_parse cfg w req (opsCache st) = (Throw m, oc')
                /\ r = (ServerError (js "Error: " ++ m),
                        mk_state (cache st) oc')))).
Proof.
  cbv zeta. unfold calendar_ics.
  destruct (truthy (ACCESS_KEY cfg)) eqn:Hk; cbn [andb].
  - destruct (strict_eq (q_key req) (ACCESS_KEY cfg)) eqn:He; cbn [negb].
    + apply strict_eq_true in He. right. split; [auto|].
      destruct (JMap.get _ (cache st)) as [hit|] eqn:Hget.
      * destruct (_ <? _) eqn:Hfresh.
        -- left. exists hit. split; [reflexivity|].
           apply Z.ltb_lt in Hfresh. split; [exact Hfresh|].
           destruct (truthy (h_if_none_match req)) eqn:Hinm; cbn [andb].
           ++ destruct (strict_eq _ _) eqn:Hm.
              ** apply strict_eq_true in Hm. left. auto.
              ** apply strict_eq_false in Hm. right. auto.
           ++ right. auto.
        -- right.
           destruct (buildFeed _ _ _ _ _) as [[doc|m] oc'];
             [left | right]; eexists _, _; split; reflexivity.
      * right.
        destruct (buildFeed _ _ _ _ _) as [[doc|m] oc'];
          [left | right]; eexists _, _; split; reflexivity.
    + apply strict_eq_false in He. left. auto.
  - right. split; [auto|].
    destruct (JMap.get _ (cache st)) as [hit|] eqn:Hget.
    + destruct (_ <? _) eqn:Hfresh.
      * left. exists hit. split; [reflexivity|].
        apply Z.ltb_lt in Hfresh. split; [exact Hfresh|].
        destruct (truthy (h_if_none_match req)) eqn:Hinm; cbn [andb].
        -- destruct (strict_eq _ _) eqn:Hm.
           ++ apply strict_eq_true in Hm. left. auto.
           ++ apply strict_eq_false in Hm. right. auto.
        -- right. auto.
      * right.
        destruct (buildFeed _ _ _ _ _) as [[doc|m] oc'];
          [left | right]; eexists _, _; split; reflexivity.
    + right.
      destruct (buildFeed _ _ _ _ _) as [[doc|m] oc'];
        [left | right]; eexists _, _; split; reflexivity.
Qed.

(** The time bounds of the request that are not dates make the body of the
    [try] block throw before the upstream is called. *)
Lemma buildFeed_invalid_window (w : world) (req : request) (oc : ops_cache) :
  (truthy (q_s req) = true /\ newDate Date_parse (q_s req) = None)
  \/ (truthy (q_u req) = true /\ newDate Date_parse (q_u req) = None) ->
  buildFeed Date_parse cfg w req oc = (Throw (js "Invalid time value"), oc).
Proof.
  intros H. unfold buildFeed.
  assert (Hadd : forall v n,
            (exists r, addDaysISO Date_parse v n = Ok r)
            \/ addDaysISO Date_parse v n = Throw (js "Invalid time value")).
  { intros v n. unfold addDaysISO. destruct (newDate Date_parse v); [|auto].
    destruct (TimeClip _); eauto. }
  destruct H as [[Ht Hn] | [Ht Hn]].
  - rewrite Ht. unfold addDaysISO at 1. rewrite Hn. reflexivity.
  - rewrite Ht.
    assert (Hu : addDaysISO Date_parse (q_u req) (CREATED_WINDOW_BUFFER_DAYS cfg)
                 = Throw (js "Invalid time value"))
      by (unfold addDaysISO; now rewrite Hn).
    rewrite Hu.
    destruct (truthy (q_s req)); [|reflexivity].
    destruct (Hadd (q_s req) (- CREATED_WINDOW_BUFFER_DAYS cfg)) as [[r ->] | ->];
      reflexivity.
Qed.

End RouteProperties.

Section DownProperties.
Variable Date_parse : jstring -> time.
Variable cfg : config.
Variable w : world.

(** An iteration of the worker whose upstream call fails, on a cache with
    nothing fresh for the job: [null] is recorded and the cache gains
    nothing. *)
Lemma workerStep_down (i : nat) (job : Job.t) (c : ops_cache)
    (pm : primary_map) (m : jstring) :
  stale cfg (w_get_time w i) (Job.id job) c ->
  w_ops w i = Throw m ->
  exists c',
    workerStep Date_parse cfg w i job (c, pm)
    = Ok (c', JMap.set (Job.id job) None pm)
    /\ forall k e, In (k, e) c' -> In (k, e) c.
Proof.
  intros Hstale Hfail. unfold workerStep.
  pose proof (@cacheGetOps_miss cfg _ _ _ Hstale) as Hmiss.
  assert (Hsub : forall k e,
            In (k, e) (snd (cacheGetOps cfg (w_get_time w i) (Job.id job) c)) ->
            In (k, e) c).
  { intros k e. unfold cacheGetOps.
    destruct (JMap.get (Job.id job) c); cbn [snd]; [|auto].
    destruct (_ <? _); cbn [snd]; [apply delete_In | auto]. }
  destruct (cacheGetOps cfg (w_get_time w i) (Job.id job) c) as [hit c1].
  cbn [fst snd] in *. subst hit. rewrite Hfail. cbn.
  exists c1. split; [reflexivity | exact Hsub].
Qed.

Lemma workerLoop_down (prefiltered : list Job.t) :
  forall (i : nat) (c : ops_cache) (pm : primary_map),
    (forall n k, stale cfg (w_get_time w n) k c) ->
    (forall n, exists m, w_ops w n = Throw m) ->
    exists c' pm',
      workerLoop Date_parse cfg w i prefiltered (c, pm) = Ok (c', pm')
      /\ (forall k e, In (k, e) c' -> In (k, e) c)
      /\ (forall k v, JMap.get k pm' = Some v ->
                      v = None \/ JMap.get k pm = Some v).
Proof.
  induction prefiltered as [|job rest IH]; intros i c pm Hstale Hdown.
  - exists c, pm. split; [reflexivity|]. split; auto.
  - destruct (Hdown i) as [m Hm].
    destruct (@workerStep_down i job c pm m (Hstale i (Job.id job)) Hm)
      as (c1 & Hstep & Hsub).
    destruct (IH (S i) c1 (JMap.set (Job.id job) None pm)) as
      (c' & pm' & Hloop & Hsub' & Hvals).
    + intros n k e He. apply (Hstale n k). now apply Hsub.
    + exact Hdown.
    + exists c', pm'. cbn [workerLoop]. rewrite Hstep. cbn [bind].
      split; [exact Hloop|]. split; [auto|].
      intros k v Hget. destruct (Hvals k v Hget) as [Hv | Hv]; [now left|].
      destruct (jsval_eq_dec k (Job.id job)) as [-> | Hne].
      * rewrite get_set_eq in Hv. left. congruence.
      * rewrite get_set_ne in Hv by exact Hne. now right.
Qed.

Lemma mapM_ext {A B} (f g : A -> result B) (l : list A) :
  (forall a, In a l -> f a = g a) -> mapM f l = mapM g l.
Proof.
  induction l as [|a l IH]; intros H; [reflexivity|].
  cbn [mapM]. rewrite (H a) by now left.
  rewrite IH; [reflexivity|]. intros b Hb. apply H. now right.
Qed.

(** A map that records no operation for any job gives the feed of the empty
    map. *)
Lemma renderFeed_no_operations (allDay : bool) (since until : jsval)
    (pm : primary_map) (jobs : list Job.t) :
  (forall k v, JMap.get k pm = Some v -> v = None) ->
  (forall j, primaryOpOf pm j = None /\ itemToMakeOf pm j = None)
  /\ filteredJobs Date_parse since until pm jobs
     = filteredJobs Date_parse since until [] jobs
  /\ renderFeed Date_parse w allDay since until pm jobs
     = renderFeed Date_parse w allDay since until [] jobs.
Proof.
  intros Hnull.
  assert (Hop : forall j, primaryOpOf pm j = None /\ itemToMakeOf pm j = None).
  { intros j. unfold primaryOpOf, itemToMakeOf.
    destruct (JMap.get (Job.id j) pm) as [[p|]|] eqn:E; auto.
    specialize (Hnull _ _ E). discriminate. }
  assert (Hf : filteredJobs Date_parse since until pm jobs
               = filteredJobs Date_parse since until [] jobs).
  { unfold filteredJobs. apply filter_ext. intros j. unfold keepJob.
    now rewrite (proj1 (Hop j)). }
  split; [exact Hop|]. split; [exact Hf|].
  unfold renderFeed. rewrite Hf.
  rewrite (@mapM_ext _ _ (eventOf Date_parse pm) (eventOf Date_parse [])).
  - reflexivity.
  - intros j _. unfold eventOf.
    now rewrite (proj1 (Hop j)), (proj2 (Hop j)).
Qed.

End DownProperties.
(** X21: when every operation-listing call fails and the operation cache
    holds nothing fresh (the operations endpoint is down), the worker
    records [null] for each of the jobs it is given and adds nothing to the
    cache; the window filter then keeps the jobs it keeps without any
    operation, and the feed is, in either mode, the feed rendered without
    operations. *)
Theorem worker_upstream_down :
  forall (Date_parse : jstring -> time) (cfg : config) (w : world)
         (allDay : bool) (since until : jsval)
         (prefiltered jobs : list Job.t) (opsCache : ops_cache),
    (forall n, exists m, w_ops w n = Throw m) ->
    (forall n k e, In (k, e) opsCache ->
                   OPS_CACHE_TTL_MS cfg < w_get_time w n - oe_at e) ->
    exists opsCache' primaryOpByJob,
      workerLoop Date_parse cfg w 0 prefiltered (opsCache, [])
        = Ok (opsCache', primaryOpByJob)
      /\ (forall k e, In (k, e) opsCache' -> In (k, e) opsCache)
      /\ (forall j, In j prefiltered ->
                    JMap.get (Job.id j) primaryOpByJob = Some None)
      /\ (forall j, primaryOpOf primaryOpByJob j = None
                    /\ itemToMakeOf primaryOpByJob j = None)
      /\ filteredJobs Date_parse since until primaryOpByJob jobs
         = filteredJobs Date_parse since until [] jobs
      /\ renderFeed Date_parse w allDay since until primaryOpByJob jobs
         = renderFeed Date_parse w allDay since until [] jobs.
Proof.
  intros Date_parse cfg w allDay since until prefiltered jobs opsCache
         Hdown Hstale.
  destruct (@workerLoop_down Date_parse cfg w prefiltered 0 opsCache []
              (fun n k e He => Hstale n k e He) Hdown)
    as (c' & pm & Hloop & Hsub & Hvals).
  assert (Hnull : forall k v, JMap.get k pm = Some v -> v = None).
  { intros k v Hget. destruct (Hvals k v Hget) as [Hv | Hv]; [exact Hv|].
    discriminate. }
  destruct (@renderFeed_no_operations Date_parse w allDay since until pm jobs
              Hnull) as (Hop & Hf & Hfeed).
  exists c', pm. split; [exact Hloop|]. split; [exact Hsub|].
  split; [|split; [exact Hop|split; [exact Hf | exact Hfeed]]].
  intros j Hj.
  destruct (@workerLoop_total Date_parse cfg w prefiltered 0 (opsCache, []))
    as (st' & Hloop' & Hkeys & _).
  assert (Heq : Ok st' = Ok (c', pm)) by (rewrite <- Hloop'; exact Hloop).
  apply Ok_inj in Heq. subst st'.
  cbn [snd] in Hkeys.
  assert (Hin : JMap.get (Job.id j) pm <> None).
  { apply Hkeys. right. now apply in_map. }
  destruct (JMap.get (Job.id j) pm) as [v|] eqn:E; [|congruence].
  now rewrite (Hnull _ _ E).
Qed.

Lemma worker_upstream_down_witness :
  exists opsCache' primaryOpByJob,
    workerLoop isoParse config_default world_ops_down 0 [job_J1; job_late]
               (cache_stale_J4, [])
      = Ok (opsCache', primaryOpByJob)
    /\ (forall k e, In (k, e) opsCache' -> In (k, e) cache_stale_J4)
    /\ (forall j, In j [job_J1; job_late] ->
                  JMap.get (Job.id j) primaryOpByJob = Some None)
    /\ (forall j, primaryOpOf primaryOpByJob j = None
                  /\ itemToMakeOf primaryOpByJob j = None)
    /\ filteredJobs isoParse JUndefined JUndefined primaryOpByJob
                    [job_J1; job_late]
       = filteredJobs isoParse JUndefined JUndefined [] [job_J1; job_late]
    /\ renderFeed isoParse world_ops_down true JUndefined JUndefined
                  primaryOpByJob [job_J1; job_late]
       = renderFeed isoParse world_ops_down true JUndefined JUndefined []
                    [job_J1; job_late].
Proof.
  apply (@worker_upstream_down isoParse config_default world_ops_down true
           JUndefined JUndefined [job_J1; job_late] [job_J1; job_late]
           cache_stale_J4).
  - intros n. eexists. reflexivity.
  - intros n k e [[= <- <-]|[]]. vm_compute. reflexivity.
Defined.

Lemma resolvedStart_None (j : Job.t) : resolvedStart None j = jobStartOf j.
Proof. reflexivity. Qed.

Lemma resolvedEnd_None (j : Job.t) :
  resolvedEnd None j = jobEndOf j ||| jobStartOf j.
Proof. reflexivity. Qed.

(** X22: the prefilter of the enrichment loses no job of the window: a job
    for which no operation is known and which the window filter keeps on
    its own dates passes the prefilter, provided the job's end (its start
    when it has no end) does not parse to the epoch.  So a job the
    prefilter rejects is not in the feed either. *)
Theorem prefilter_keeps_window_jobs :
  forall (Date_parse : jstring -> time) (since until : jsval)
         (primaryOpByJob : primary_map) (j : Job.t),
    primaryOpOf primaryOpByJob j = None ->
    newDate Date_parse (jobEndOf j ||| jobStartOf j) <> Some 0 ->
    keepJob Date_parse since until primaryOpByJob j = true ->
    prefilter Date_parse since until j = true.
Proof.
  intros Date_parse since until pm j Hop Hepoch.
  unfold keepJob, prefilter. rewrite Hop.
  rewrite resolvedStart_None, resolvedEnd_None.
  destruct (truthy (jobStartOf j)) eqn:Hs; cbn [negb]; [|discriminate].
  assert (He : truthy (jobEndOf j ||| jobStartOf j) = true)
    by (rewrite truthy_jor, Hs; apply orb_true_r).
  unfold toMs. rewrite Hs, He.
  destruct (newDate Date_parse (jobEndOf j ||| jobStartOf j)) as [x|] eqn:Hje.
  - assert (Hx : x <> 0) by congruence.
    replace (time_truthy (Some x)) with true
      by (cbn; symmetry; apply negb_true_iff, Z.eqb_neq; exact Hx).
    auto.
  - cbn [time_truthy time_ltb]. rewrite andb_false_r.
    destruct (time_truthy (window_bound Date_parse since)
              && time_ltb (newDate Date_parse (jobStartOf j))
                          (window_bound Date_parse since)); [discriminate|].
    auto.
Qed.

Lemma prefilter_keeps_window_jobs_witness :
  prefilter isoParse (S_ "2024-06-01") (S_ "2024-06-30") job_J1 = true.
Proof.
  apply (@prefilter_keeps_window_jobs isoParse (S_ "2024-06-01")
           (S_ "2024-06-30") [] job_J1).
  - reflexivity.
  - vm_compute. discriminate.
  - vm_compute. reflexivity.
Defined.

(* ------------------------------------------------------------------ *)
(** *** The answers of the route *)

(** X23: the route answers 403 exactly when an access key is configured and
    the [key] of the query is not that key, and then it changes nothing.
    It answers 304 only to a request whose [If-None-Match] is the ETag of a
    cache entry for its URL that is younger than the time-to-live. *)
Theorem calendar_ics_status_conditions :
  forall (Date_parse : jstring -> time) (cfg : config) (w : world)
         (req : request) (st : server_state),
    (fst (calendar_ics Date_parse cfg w req st) = Forbidden
     <-> truthy (ACCESS_KEY cfg) = true /\ q_key req <> ACCESS_KEY cfg)
    /\ (fst (calendar_ics Date_parse cfg w req st) = Forbidden ->
        snd (calendar_ics Date_parse cfg w req st) = st)
    /\ (fst (calendar_ics Date_parse cfg w req st) = NotModified ->
        exists hit,
          JMap.get (JStr (req_url req)) (cache st) = Some hit
          /\ w_now w - ce_at hit < CACHE_TTL_SECONDS cfg * 1000
          /\ h_if_none_match req = JStr (ce_etag hit)).
Proof.
  intros Date_parse cfg w req st.
  destruct (calendar_ics_cases Date_parse cfg w req st)
    as [(Hk & Hne & Hr)
       | (Hacc & [(hit & Hget & Hfresh & [(Hm & _ & Hr) | (_ & Hr)])
                 | [(doc & oc' & _ & Hr) | (m & oc' & _ & Hr)]])];
    cbv zeta in Hr; rewrite Hr; cbn [fst snd].
  - split; [tauto|]. split; [reflexivity | discriminate].
  - split; [|split; [discriminate|intros _; exists hit; auto]].
    split; [discriminate|]. intros [Hk Hne]. destruct Hacc; congruence.
  - split; [|split; discriminate].
    split; [discriminate|]. intros [Hk Hne]. destruct Hacc; congruence.
  - split; [|split; discriminate].
    split; [discriminate|]. intros [Hk Hne]. destruct Hacc; congruence.
  - split; [|split; discriminate].
    split; [discriminate|]. intros [Hk Hne]. destruct Hacc; congruence.
Qed.

(** X24: the response cache only grows: every URL it holds before a
    request it holds after it, whatever the answer (the route has no
    eviction for it).  A request that fails stores nothing, and a 304
    changes nothing at all. *)
Theorem calendar_ics_cache_grows :
  forall (Date_parse : jstring -> time) (cfg : config) (w : world)
         (req : request) (st : server_state),
    let r := calendar_ics Date_parse cfg w req st in
    (forall k, In k (JMap.keys (cache st)) -> In k (JMap.keys (cache (snd r))))
    /\ (JMap.size (cache st) <= JMap.size (cache (snd r)))%nat
    /\ (forall body, fst r = ServerError body -> cache (snd r) = cache st)
    /\ (fst r = NotModified -> snd r = st).
Proof.
  intros Date_parse cfg w req st.
  destruct (calendar_ics_cases Date_parse cfg w req st)
    as [(Hk & Hne & Hr)
       | (Hacc & [(hit & _ & _ & [(_ & _ & Hr) | (_ & Hr)])
                 | [(doc & oc' & _ & Hr) | (m & oc' & _ & Hr)]])];
    cbv zeta in Hr |- *; rewrite Hr; cbn [fst snd cache];
    repeat split; auto; try discriminate.
  - intros k. apply keys_set_In.
  - rewrite size_set. destruct (JMap.get _ _); lia.
Qed.

(** X25: when every document of the response cache has the digest of its
    body for ETag, ends with a line break and has no line of more than 75
    octets, the same holds after any request, and of every document the
    request is answered with, cached or rendered.  The cache is empty when
    the process starts, so every document served has these properties. *)
Theorem calendar_ics_serves_folded_documents :
  forall (Date_parse : jstring -> time) (cfg : config) (w : world)
         (req : request) (st : server_state),
    cache_wellFormed (cache st) ->
    cache_wellFormed (cache (snd (calendar_ics Date_parse cfg w req st)))
    /\ forall body etag,
         fst (calendar_ics Date_parse cfg w req st) = Success body etag ->
         wellFormedDocument body etag.
Proof.
  intros Date_parse cfg w req st Hinv.
  destruct (calendar_ics_cases Date_parse cfg w req st)
    as [(Hk & Hne & Hr)
       | (Hacc & [(hit & Hget & _ & [(_ & _ & Hr) | (_ & Hr)])
                 | [(doc & oc' & Hb & Hr) | (m & oc' & _ & Hr)]])];
    cbv zeta in Hr; rewrite Hr; cbn [fst snd cache];
    (split; [try exact Hinv | try discriminate]).
  - intros body etag [= <- <-]. apply get_In in Hget.
    exact (Hinv _ _ Hget).
  - assert (Hdoc : wellFormedDocument doc (etagOf doc)).
    { destruct (proj1 (buildFeed_result Date_parse cfg w req (opsCache st))
                  doc oc' Hb) as [ics ->].
      split; [reflexivity | apply finalizeIcs_document]. }
    intros k e Hin. apply set_In_cases in Hin.
    destruct Hin as [[= _ ->] | Hin]; [exact Hdoc | exact (Hinv _ _ Hin)].
  - intros body etag [= <- <-].
    destruct (proj1 (buildFeed_result Date_parse cfg w req (opsCache st))
                doc oc' Hb) as [ics ->].
    split; [reflexivity | apply finalizeIcs_document].
Qed.

Lemma calendar_ics_serves_folded_documents_witness :
  cache_wellFormed (cache (snd first_request))
  /\ forall body etag,
       fst first_request = Success body etag -> wellFormedDocument body etag.
Proof.
  apply (@calendar_ics_serves_folded_documents isoParse config_default
           (world_quiet T0 [job_J1]) request_timed state_empty).
  intros k e [].
Defined.

(** X26: a request leaves the operation cache within its cap (at most 500
    entries, one for a key) when it finds it so, whatever it is answered
    with; the cache is empty when the process starts. *)
Theorem calendar_ics_keeps_ops_cache_bounded :
  forall (Date_parse : jstring -> time) (cfg : config) (w : world)
         (req : request) (st : server_state),
    opsCache_bounded (opsCache st) ->
    opsCache_bounded (opsCache (snd (calendar_ics Date_parse cfg w req st))).
Proof.
  intros Date_parse cfg w req st Hinv.
  pose proof (proj2 (buildFeed_result Date_parse cfg w req (opsCache st)) Hinv)
    as Hb.
  destruct (calendar_ics_cases Date_parse cfg w req st)
    as [(Hk & Hne & Hr)
       | (Hacc & [(hit & Hget & _ & [(_ & _ & Hr) | (_ & Hr)])
                 | [(doc & oc' & Hf & Hr) | (m & oc' & Hf & Hr)]])];
    cbv zeta in Hr; rewrite Hr; cbn [fst snd opsCache]; auto;
    rewrite Hf in Hb; exact Hb.
Qed.

Lemma calendar_ics_keeps_ops_cache_bounded_witness :
  opsCache_bounded
    (opsCache (snd (calendar_ics isoParse config_default world_J2_fails
                      (mk_request (js "/calendar.ics?ops=1") JUndefined
                         JUndefined JUndefined (S_ "1") JUndefined JUndefined)
                      state_empty))).
Proof.
  apply (@calendar_ics_keeps_ops_cache_bounded isoParse config_default
           world_J2_fails
           (mk_request (js "/calendar.ics?ops=1") JUndefined JUndefined
              JUndefined (S_ "1") JUndefined JUndefined)
           state_empty).
  split; [apply Nat.le_0_l | constructor].
Defined.

(** X27: a request that passes the access check and is not served from the
    response cache, and whose [s] or [u] is given but does not parse as a
    date, is answered 500 with the message of the [RangeError] of
    [toISOString]; the upstream answer plays no part, and nothing is
    stored. *)
Theorem calendar_ics_invalid_window :
  forall (Date_parse : jstring -> time) (cfg : config) (w : world)
         (req : request) (st : server_state),
    truthy (ACCESS_KEY cfg) = false \/ q_key req = ACCESS_KEY cfg ->
    JMap.get (JStr (req_url req)) (cache st) = None ->
    (truthy (q_s req) = true /\ newDate Date_parse (q_s req) = None)
    \/ (truthy (q_u req) = true /\ newDate Date_parse (q_u req) = None) ->
    calendar_ics Date_parse cfg w req st
    = (ServerError (js "Error: Invalid time value"), st).
Proof.
  intros Date_parse cfg w req st Hacc Hmiss Hbad. unfold calendar_ics.
  replace (truthy (ACCESS_KEY cfg)
           && negb (strict_eq (q_key req) (ACCESS_KEY cfg))) with false.
  2:{ destruct Hacc as [-> | ->]; [reflexivity|].
      rewrite strict_eq_refl. now rewrite andb_false_r. }
  rewrite Hmiss.
  rewrite (@buildFeed_invalid_window Date_parse cfg w req (opsCache st) Hbad).
  destruct st. reflexivity.
Qed.

Lemma calendar_ics_invalid_window_witness :
  calendar_ics isoParse config_default (world_quiet T0 [job_J1])
               request_bad_since state_empty
  = (ServerError (js "Error: Invalid time value"), state_empty).
Proof.
  apply (@calendar_ics_invalid_window isoParse config_default
           (world_quiet T0 [job_J1]) request_bad_since state_empty).
  - left. reflexivity.
  - reflexivity.
  - left. split; reflexivity.
Defined.

(* ------------------------------------------------------------------ *)
(** *** The status filter of the listing request *)

Lemma map_get_STATUS_MAP (k : jsval) :
  map_get k STATUS_MAP = JUndefined \/ In (map_get k STATUS_MAP) API_STATUSES.
Proof.
  unfold map_get.
  destruct (JMap.get k STATUS_MAP) as [v|] eqn:E; [|now left].
  right. apply get_In in E. cbn in E |- *.
  repeat (destruct E as [[= _ <-]|E]; [tauto|]). destruct E.
Qed.

Lemma mappedStatuses_API (toLowerCase : jstring -> jstring) (statuses : jsval) :
  Forall (fun s => In s API_STATUSES) (mappedStatusesOf toLowerCase statuses).
Proof.
  unfold mappedStatusesOf, filter_Boolean. apply Forall_forall. intros s Hs.
  apply filter_In in Hs. destruct Hs as [Hs Ht].
  apply in_map_iff in Hs. destruct Hs as (r & <- & _).
  unfold statusOf in *.
  destruct (map_get_STATUS_MAP (JStr (toLowerCase (ToString r)) ||| r))
    as [H|H]; [rewrite H in Ht; discriminate | exact H].
Qed.

(** X28: whatever the [statuses] parameter holds and whatever the engine's
    [toLowerCase] does, the list of statuses asked of the upstream is never
    empty and holds only names of the upstream API ([scheduled],
    [inProgress], [pending], [complete], [cancelled]); the body of the
    listing request carries it as [status] when it has one name and as
    [statuses] when it has more, never both and never neither. *)
Theorem finalStatuses_valid :
  forall (toLowerCase : jstring -> jstring) (statuses : jsval),
    let fs := finalStatusesOf toLowerCase statuses in
    fs <> []
    /\ Forall (fun s => In s API_STATUSES) fs
    /\ forall parseInt10 Date_parse cfg limit since until body,
         listBodyOf toLowerCase parseInt10 Date_parse cfg statuses limit
                    since until = Ok body ->
         (exists s, fs = [s] /\ lb_status body = s /\ lb_statuses body = None)
         \/ ((2 <= List.length fs)%nat
             /\ lb_status body = JUndefined /\ lb_statuses body = Some fs).
Proof.
  intros toLowerCase statuses. cbv zeta.
  assert (Hfs : finalStatusesOf toLowerCase statuses <> []
                /\ Forall (fun s => In s API_STATUSES)
                     (finalStatusesOf toLowerCase statuses)).
  { unfold finalStatusesOf.
    pose proof (mappedStatuses_API toLowerCase statuses) as H.
    destruct (mappedStatusesOf toLowerCase statuses) as [|m ms].
    - split; [discriminate|]. repeat constructor; cbn; tauto.
    - split; [discriminate | exact H]. }
  destruct Hfs as [Hne Hall]. split; [exact Hne|]. split; [exact Hall|].
  intros parseInt10 Date_parse cfg limit since until body. unfold listBodyOf.
  destruct (if truthy since then _ else _) as [a|]; [|discriminate].
  cbn [bind].
  destruct (if truthy until then _ else _) as [b|]; [|discriminate].
  cbn [bind]. intros [= <-]. cbn [lb_status lb_statuses].
  destruct (finalStatusesOf toLowerCase statuses) as [|s [|s' rest]];
    [congruence | left | right].
  - exists s. auto.
  - cbn [List.length]. repeat split. lia.
Qed.

(** X29: for an engine whose [toLowerCase] leaves [scheduled] alone and
    turns [inProgress] into [inprogress], the statuses asked of the upstream
    are the defaults, [scheduled] and [inProgress], when the [statuses]
    parameter is absent or empty, and also when none of the names it holds
    is a key of [STATUS_MAP]: unknown names are dropped without an error. *)
Theorem finalStatuses_default :
  forall (toLowerCase : jstring -> jstring) (statuses : jsval),
    toLowerCase (js "scheduled") = js "scheduled" ->
    toLowerCase (js "inProgress") = js "inprogress" ->
    truthy statuses = false
    \/ Forall (fun s => truthy (statusOf toLowerCase s) = false)
         (rawStatusesOf statuses) ->
    finalStatusesOf toLowerCase statuses = DEFAULT_STATUSES.
Proof.
  intros toLowerCase statuses lower_scheduled lower_inProgress [H|H].
  - unfold finalStatusesOf, mappedStatusesOf, rawStatusesOf. rewrite H.
    unfold DEFAULT_STATUSES. cbn [map]. unfold statusOf. cbn [ToString].
    rewrite lower_scheduled, lower_inProgress. reflexivity.
  - unfold finalStatusesOf, mappedStatusesOf, filter_Boolean.
    replace (filter truthy (map (statusOf toLowerCase) (rawStatusesOf statuses)))
      with (@nil jsval); [reflexivity|].
    symmetry. induction H as [|s l Hs _ IH]; [reflexivity|].
    cbn [map filter]. now rewrite Hs.
Qed.

Lemma finalStatuses_default_witness :
  finalStatusesOf asciiLower (S_ "done, archived") = DEFAULT_STATUSES.
Proof.
  apply (@finalStatuses_default asciiLower (S_ "done, archived")).
  - reflexivity.
  - reflexivity.
  - right. apply Forall_forall. intros s Hs. vm_compute in Hs.
    destruct Hs as [<-|[<-|[]]]; reflexivity.
Defined.

Example finalStatuses_aliases :
  finalStatusesOf asciiLower (S_ " Completed , IN-PROGRESS,, bogus")
  = [S_ "complete"; S_ "inProgress"].
Proof. vm_compute. reflexivity. Qed.

Example finalStatuses_repeated :
  finalStatusesOf asciiLower (S_ "scheduled,schedule")
  = [S_ "scheduled"; S_ "scheduled"].
Proof. vm_compute. reflexivity. Qed.

(** The listing request throws exactly where the route does before it calls
    the upstream. *)
Lemma buildFeed_after_listBody (toLowerCase : jstring -> jstring)
    (parseInt10 : jstring -> option Z) (Date_parse : jstring -> time)
    (cfg : config) (w : world) (req : request) (oc : ops_cache)
    (statuses limit : jsval) (m : jstring) :
  listBodyOf toLowerCase parseInt10 Date_parse cfg statuses limit
             (q_s req) (q_u req) = Throw m ->
  buildFeed Date_parse cfg w req oc = (Throw m, oc).
Proof.
  unfold listBodyOf, buildFeed.
  destruct (truthy (q_s req)).
  - destruct (addDaysISO Date_parse (q_s req) _) as [a|ma]; cbn [bind].
    + destruct (truthy (q_u req)).
      * destruct (addDaysISO Date_parse (q_u req) _) as [b|mb]; cbn [bind];
          [discriminate|]. now intros [= ->].
      * discriminate.
    + now intros [= ->].
  - cbn [bind]. destruct (truthy (q_u req)).
    + destruct (addDaysISO Date_parse (q_u req) _) as [b|mb]; cbn [bind];
        [discriminate|]. now intros [= ->].
    + discriminate.
Qed.

(* ------------------------------------------------------------------ *)
(** *** The listing inside an answer *)

Lemma unwrapItems_array (raw : json) :
  isArray raw = true -> unwrapItems raw = raw.
Proof. intros H. unfold unwrapItems. now rewrite H. Qed.

Lemma json_or_l (a b : json) : json_truthy a = true -> json_or a b = a.
Proof. unfold json_or. now intros ->. Qed.

Lemma json_or_r (a b : json) : json_truthy a = false -> json_or a b = b.
Proof. unfold json_or. now intros ->. Qed.

(** What [unwrapItems] returns for an answer that is not an array: the
    first truthy one of its three members, or a new empty array. *)
Lemma unwrapItems_cases (raw : json) :
  isArray raw = false ->
  (exists name, In name [js "items"; js "results"; js "data"]
                /\ json_truthy (member name raw) = true
                /\ unwrapItems raw = member name raw)
  \/ unwrapItems raw = JsArray [].
Proof.
  intros H. unfold unwrapItems. rewrite H.
  destruct (json_truthy (member (js "items") raw)) eqn:E1.
  - left. exists (js "items"). rewrite (@json_or_l _ _ E1).
    rewrite (@json_or_l _ _ E1), (@json_or_l _ _ E1). cbn; auto.
  - rewrite (@json_or_r _ _ E1).
    destruct (json_truthy (member (js "results") raw)) eqn:E2.
    + left. exists (js "results"). rewrite (@json_or_l _ _ E2).
      rewrite (@json_or_l _ _ E2). cbn; auto.
    + rewrite (@json_or_r _ _ E2).
      destruct (json_truthy (member (js "data") raw)) eqn:E3.
      * left. exists (js "data"). rewrite (@json_or_l _ _ E3). cbn; auto.
      * right. now rewrite (@json_or_r _ _ E3).
Qed.

(** X30: [unwrapItems] never returns a falsy value.  It returns an array as
    it is, so unwrapping twice is unwrapping once when the result is an
    array; and its result is an array for every answer that is an array,
    that is not an object, or whose members [items], [results] and [data]
    are arrays when they are truthy (an empty array under [items] is truthy
    and hides [results] and [data]). *)
Theorem unwrapItems_result :
  forall raw : json,
    json_truthy (unwrapItems raw) = true
    /\ (isArray raw = true -> unwrapItems raw = raw)
    /\ (isArray (unwrapItems raw) = true ->
        unwrapItems (unwrapItems raw) = unwrapItems raw)
    /\ ((forall name, In name [js "items"; js "results"; js "data"] ->
           json_truthy (member name raw) = true ->
           isArray (member name raw) = true) ->
        isArray (unwrapItems raw) = true).
Proof.
  intros raw.
  split; [|split; [apply unwrapItems_array|split; [apply unwrapItems_array|]]].
  - destruct (isArray raw) eqn:Harr.
    + rewrite unwrapItems_array by exact Harr. now destruct raw.
    + destruct (unwrapItems_cases raw Harr) as [(name & _ & Ht & ->) | ->];
        [exact Ht | reflexivity].
  - intros H. destruct (isArray raw) eqn:Harr.
    + now rewrite unwrapItems_array.
    + destruct (unwrapItems_cases raw Harr) as [(name & Hin & Ht & ->) | ->];
        [exact (H name Hin Ht) | reflexivity].
Qed.

Example unwrapItems_envelopes :
  unwrapItems (JsObject [(js "items", JsArray [JsPrim (JNum 1)])])
    = JsArray [JsPrim (JNum 1)]
  /\ unwrapItems (JsObject [(js "results", JsArray [JsPrim (JNum 1)]);
                            (js "items", JsArray [])])
     = JsArray []
  /\ unwrapItems (JsObject [(js "data", JsArray [JsPrim (JNum 1)]);
                            (js "items", JsPrim JNull)])
     = JsArray [JsPrim (JNum 1)]
  /\ unwrapItems (JsPrim JNull) = JsArray [].
Proof. repeat split; reflexivity. Qed.
